(** * HALO-UTILS: file store, MIME resolver, buffer digest and logger

    A shallow embedding of the bundled sources of the package
    ([src/files/mimeType.ts], [src/files/IOFiles.ts], [src/utils/time.ts],
    [src/terminal/terminalColors.ts], [src/terminal/logger.ts],
    [src/terminal/terminalinteractive.ts]) together with the properties of
    its specification and further properties of the code.

    Conventions of the embedding.
    - A JavaScript string is a [string]: a sequence of 8-bit code units.
    - A JavaScript number is an integer [Z]; fractional numbers and the
      exponent notation are outside the modelled fragment.
    - A JavaScript value is a [jsval]: [undefined], [null], booleans,
      numbers, [BigInt]s, strings, arrays, plain objects (their properties
      in enumeration order) and [Error]s.  Functions and symbols are not
      modelled.
    - A call either returns a value or throws an [Error] carrying a
      message: the [outcome] type.  Every [catch] of the sources only reads
      [error.message], so the message is all an exception carries.
    - Code that reads or writes the disk or the console is a function
      from the state before to an outcome and the state after: the [eff]
      type.  An [await] is the sequencing of [eff].
    - The host platform (file system, [path], [JSON], [crypto], [Intl],
      the [Error] stack) is modelled first; the functions of the package
      follow, under their own names, each in the module of its class.

    The file has two parts: the definitions, then the properties with
    their proofs. *)

From Stdlib Require Import ZArith NArith Ascii List Bool Lia.
From Stdlib Require Import DecimalString DecimalN DecimalPos DecimalFacts.
From stdpp Require Import base option list gmap strings.

Local Open Scope Z_scope.

(** ** Outcomes: normal completion or a thrown error *)

Inductive outcome (A : Type) : Type :=
| Returns (a : A)
| Throws (message : string).
Arguments Returns {A} a.
Arguments Throws {A} message.

Definition bind {A B : Type} (m : outcome A) (f : A -> outcome B) : outcome B :=
  match m with
  | Returns a => f a
  | Throws e => Throws e
  end.

Notation "'do' x <- m ; k" := (bind m (fun x => k))
  (at level 10, x name, m at level 100, k at level 200).

(** A computation over a state (the disk, the console) that returns or
    throws. *)
Definition eff (S A : Type) : Type := S -> outcome A * S.

Definition eff_ret {S A : Type} (a : A) : eff S A := fun d => (Returns a, d).
Definition eff_throw {S A : Type} (message : string) : eff S A :=
  fun d => (Throws message, d).
Definition eff_bind {S A B : Type} (m : eff S A) (f : A -> eff S B) : eff S B :=
  fun d =>
    match m d with
    | (Returns a, d') => f a d'
    | (Throws e, d') => (Throws e, d')
    end.
(** [try { m } catch (error) { handler(error.message) }]. *)
Definition eff_catch {S A : Type} (m : eff S A) (handler : string -> eff S A)
  : eff S A :=
  fun d =>
    match m d with
    | (Returns a, d') => (Returns a, d')
    | (Throws e, d') => handler e d'
    end.
Definition eff_lift {S A : Type} (o : outcome A) : eff S A := fun d => (o, d).

Notation "'run' x <- m ; k" := (eff_bind m (fun x => k))
  (at level 10, x name, m at level 100, k at level 200).

(** ** Text helpers *)

Abbreviation text := (list ascii).

Definition lit (s : string) : text := String.list_ascii_of_string s.
Definition str (t : text) : string := String.string_of_list_ascii t.

(** The characters that cannot be written inside a literal. *)
Definition dquote : ascii := "034"%char.
Definition bslash : ascii := "092"%char.
Definition newline : ascii := "010"%char.
Definition nl : string := String newline EmptyString.
Definition dq : string := String dquote EmptyString.

(** [Array.prototype.join] on an array of strings. *)
Fixpoint join (sep : text) (parts : list text) : text :=
  match parts with
  | [] => []
  | [p] => p
  | p :: rest => p ++ sep ++ join sep rest
  end.

(** [s.split(sep)] for a one-character separator: never empty. *)
Fixpoint split_on (sep : ascii) (s : text) : list text :=
  match s with
  | [] => [[]]
  | c :: s' =>
      if (c =? sep)%char then [] :: split_on sep s'
      else
        match split_on sep s' with
        | seg :: segs => (c :: seg) :: segs
        | [] => [[c]]
        end
  end.

(** Decimal rendering of an integer ([Number::toString], [BigInt::toString]). *)
Definition digits_of_N (n : N) : text :=
  lit (NilEmpty.string_of_uint (N.to_uint n)).

Definition decimal (z : Z) : text :=
  match z with
  | Z0 => lit "0"
  | Zpos p => digits_of_N (Npos p)
  | Zneg p => "-"%char :: digits_of_N (Npos p)
  end.

Definition hex_digit (n : N) : ascii :=
  nth (N.to_nat n) (lit "0123456789abcdef") "0"%char.

(** ** JavaScript values *)

Unset Elimination Schemes.
Inductive jsval : Type :=
| VUndefined
| VNull
| VBool (b : bool)
| VNum (n : Z)
| VBigInt (n : Z)
| VStr (s : string)
| VArr (items : list jsval)
| VObj (props : list (string * jsval))
| VError (stack : option string) (message : string).
Set Elimination Schemes.

(** [Array.isArray]. *)
Definition isArray (v : jsval) : bool :=
  match v with VArr _ => true | _ => false end.

(** [v instanceof Error]. *)
Definition instanceofError (v : jsval) : bool :=
  match v with VError _ _ => true | _ => false end.

(** [typeof v === "object"]. *)
Definition typeof_object (v : jsval) : bool :=
  match v with
  | VNull | VArr _ | VObj _ | VError _ _ => true
  | _ => false
  end.

(** [String(v)].  The sources apply it to values that are not objects;
    the three object cases give the conversion of an empty array, of a
    plain object and of an error and are never reached from them. *)
Definition String_ (v : jsval) : string :=
  match v with
  | VUndefined => "undefined"
  | VNull => "null"
  | VBool true => "true"
  | VBool false => "false"
  | VNum n => str (decimal n)
  | VBigInt n => str (decimal n)
  | VStr s => s
  | VArr _ => ""
  | VObj _ => "[object Object]"
  | VError _ m => "Error: " +:+ m
  end.

(** ** JSON.stringify *)

(** [QuoteJSONString]: the escapes of a string literal. *)
Definition quote_char (c : ascii) : text :=
  match c with
  | "034"%char => [bslash; dquote]
  | "092"%char => [bslash; bslash]
  | "008"%char => [bslash; "b"%char]
  | "012"%char => [bslash; "f"%char]
  | "010"%char => [bslash; "n"%char]
  | "013"%char => [bslash; "r"%char]
  | "009"%char => [bslash; "t"%char]
  | _ =>
      let n := N_of_ascii c in
      if (n <? 32)%N
      then [bslash; "u"%char; "0"%char; "0"%char;
            hex_digit (n / 16)%N; hex_digit (n mod 16)%N]
      else [c]
  end.

Definition quote (s : string) : text :=
  dquote :: flat_map quote_char (lit s) ++ [dquote].

(** The brackets of [SerializeJSONArray] and [SerializeJSONObject]:
    [stepback] is the indentation of the enclosing level. *)
Definition wrap (opening closing : ascii) (gap stepback : text)
    (partial : list text) : text :=
  match partial with
  | [] => [opening; closing]
  | _ =>
      match gap with
      | [] => opening :: join (lit ",") partial ++ [closing]
      | _ =>
          let indent := stepback ++ gap in
          opening :: newline :: indent
            ++ join ("," %char :: newline :: indent) partial
            ++ newline :: stepback ++ [closing]
      end
  end.

Definition member (gap : text) (k : string) (t : text) : text :=
  quote k ++ ":"%char :: match gap with [] => t | _ => " "%char :: t end.

(** [SerializeJSONProperty]: [None] is the result [undefined]. *)
Fixpoint serialize (gap indent : text) (v : jsval) : outcome (option text) :=
  match v with
  | VUndefined => Returns None
  | VNull => Returns (Some (lit "null"))
  | VBool true => Returns (Some (lit "true"))
  | VBool false => Returns (Some (lit "false"))
  | VNum n => Returns (Some (decimal n))
  | VBigInt _ => Throws "Do not know how to serialize a BigInt"
  | VStr s => Returns (Some (quote s))
  | VError _ _ => Returns (Some (lit "{}"))
  | VArr items =>
      do partial <- (fix elements (l : list jsval) : outcome (list text) :=
                   match l with
                   | [] => Returns []
                   | x :: l' =>
                       do sx <- serialize gap (indent ++ gap) x;
                       do rest <- elements l';
                       Returns (default (lit "null") sx :: rest)
                   end) items;
      Returns (Some (wrap "["%char "]"%char gap indent partial))
  | VObj props =>
      do partial <- (fix members (l : list (string * jsval)) : outcome (list text) :=
                   match l with
                   | [] => Returns []
                   | (k, x) :: l' =>
                       do sx <- serialize gap (indent ++ gap) x;
                       do rest <- members l';
                       Returns (match sx with
                                | Some t => member gap k t :: rest
                                | None => rest
                                end)
                   end) props;
      Returns (Some (wrap "{"%char "}"%char gap indent partial))
  end.

(** [JSON.stringify(value, null, space)]; [space = 0] is the compact
    form of [JSON.stringify(value)]. *)
Definition JSON_stringify (v : jsval) (space : nat) : outcome (option string) :=
  do r <- serialize (repeat " "%char (Nat.min space 10)) [] v;
  Returns (str <$> r).

(** ** JSON.parse *)

Definition is_ws (c : ascii) : bool :=
  match c with
  | " "%char | "009"%char | "010"%char | "013"%char => true
  | _ => false
  end.

Fixpoint skip_ws (s : text) : text :=
  match s with
  | c :: s' => if is_ws c then skip_ws s' else s
  | [] => []
  end.

Definition is_digit (c : ascii) : bool :=
  let n := N_of_ascii c in ((48 <=? n) && (n <=? 57))%N.

Fixpoint span (p : ascii -> bool) (s : text) : text * text :=
  match s with
  | c :: s' => if p c then let '(a, b) := span p s' in (c :: a, b) else ([], s)
  | [] => ([], [])
  end.

Fixpoint strip_prefix (p s : text) : option text :=
  match p, s with
  | [], _ => Some s
  | c :: p', d :: s' => if (c =? d)%char then strip_prefix p' s' else None
  | _ :: _, [] => None
  end.

Definition hex_value (c : ascii) : option N :=
  let n := N_of_ascii c in
  if ((48 <=? n) && (n <=? 57))%N then Some (n - 48)%N
  else if ((97 <=? n) && (n <=? 102))%N then Some (n - 87)%N
  else if ((65 <=? n) && (n <=? 70))%N then Some (n - 55)%N
  else None.

(** The code unit of a [\uXXXX] escape, when it fits the 8-bit code
    units of the model. *)
Definition unicode_escape (h1 h2 h3 h4 : ascii) : option ascii :=
  match hex_value h1, hex_value h2, hex_value h3, hex_value h4 with
  | Some a, Some b, Some c, Some d =>
      let n := (((a * 16 + b) * 16 + c) * 16 + d)%N in
      if (n <? 256)%N then Some (ascii_of_N n) else None
  | _, _, _, _ => None
  end.

Definition simple_escape (e : ascii) : option ascii :=
  match e with
  | "034"%char => Some dquote
  | "092"%char => Some bslash
  | "/"%char => Some "/"%char
  | "b"%char => Some "008"%char
  | "f"%char => Some "012"%char
  | "n"%char => Some "010"%char
  | "r"%char => Some "013"%char
  | "t"%char => Some "009"%char
  | _ => None
  end.

(** The characters of a string literal, after its opening quote. *)
Fixpoint parse_chars (s : text) : option (text * text) :=
  match s with
  | [] => None
  | c :: s1 =>
      if (c =? dquote)%char then Some ([], s1)
      else if (c =? bslash)%char then
        match s1 with
        | [] => None
        | e :: s2 =>
            if (e =? "u")%char then
              match s2 with
              | h1 :: h2 :: h3 :: h4 :: s3 =>
                  match unicode_escape h1 h2 h3 h4, parse_chars s3 with
                  | Some u, Some (cs, r) => Some (u :: cs, r)
                  | _, _ => None
                  end
              | _ => None
              end
            else
              match simple_escape e, parse_chars s2 with
              | Some u, Some (cs, r) => Some (u :: cs, r)
              | _, _ => None
              end
        end
      else if (N_of_ascii c <? 32)%N then None
      else
        match parse_chars s1 with
        | Some (cs, r) => Some (c :: cs, r)
        | None => None
        end
  end.

(** An integer literal: an optional minus sign, then [0] or a digit
    sequence without a leading zero. *)
Definition parse_number (s : text) : option (Z * text) :=
  let '(negative, s1) :=
    match s with
    | c :: s' => if (c =? "-")%char then (true, s') else (false, s)
    | [] => (false, s)
    end in
  let '(ds, rest) := span is_digit s1 in
  match ds with
  | [] => None
  | d :: ds' =>
      if (d =? "0")%char && negb (Nat.eqb (length ds') 0) then None
      else
        match NilEmpty.uint_of_string (str ds) with
        | Some u =>
            let n := Z.of_N (N.of_uint u) in
            Some (if negative then - n else n, rest)
        | None => None
        end
  end.

(** [CreateDataProperty] on the property list of an object under
    construction: a repeated key keeps its place and takes the new value. *)
Fixpoint define_property (k : string) (v : jsval) (props : list (string * jsval))
  : list (string * jsval) :=
  match props with
  | [] => [(k, v)]
  | (k', v') :: rest =>
      if String.eqb k k' then (k, v) :: rest
      else (k', v') :: define_property k v rest
  end.

Definition build_object (members : list (string * jsval)) : jsval :=
  VObj (fold_left (fun props kv => define_property kv.1 kv.2 props) members []).

Fixpoint parse_value (fuel : nat) (s : text) : option (jsval * text) :=
  match fuel with
  | O => None
  | S fuel' =>
      match skip_ws s with
      | [] => None
      | c :: r =>
          if (c =? "n")%char then
            match strip_prefix (lit "ull") r with
            | Some r' => Some (VNull, r')
            | None => None
            end
          else if (c =? "t")%char then
            match strip_prefix (lit "rue") r with
            | Some r' => Some (VBool true, r')
            | None => None
            end
          else if (c =? "f")%char then
            match strip_prefix (lit "alse") r with
            | Some r' => Some (VBool false, r')
            | None => None
            end
          else if (c =? dquote)%char then
            match parse_chars r with
            | Some (cs, r') => Some (VStr (str cs), r')
            | None => None
            end
          else if (c =? "[")%char then
            match skip_ws r with
            | [] => None
            | c1 :: r1 =>
                if (c1 =? "]")%char then Some (VArr [], r1)
                else
                  match parse_elements fuel' (c1 :: r1) with
                  | Some (vs, r') => Some (VArr vs, r')
                  | None => None
                  end
            end
          else if (c =? "{")%char then
            match skip_ws r with
            | [] => None
            | c1 :: r1 =>
                if (c1 =? "}")%char then Some (VObj [], r1)
                else
                  match parse_members fuel' (c1 :: r1) with
                  | Some (ms, r') => Some (build_object ms, r')
                  | None => None
                  end
            end
          else
            match parse_number (c :: r) with
            | Some (n, r') => Some (VNum n, r')
            | None => None
            end
      end
  end
with parse_elements (fuel : nat) (s : text) : option (list jsval * text) :=
  match fuel with
  | O => None
  | S fuel' =>
      match parse_value fuel' s with
      | None => None
      | Some (v, r) =>
          match skip_ws r with
          | [] => None
          | c :: r1 =>
              if (c =? ",")%char then
                match parse_elements fuel' r1 with
                | Some (vs, r') => Some (v :: vs, r')
                | None => None
                end
              else if (c =? "]")%char then Some ([v], r1)
              else None
          end
      end
  end
with parse_members (fuel : nat) (s : text)
  : option (list (string * jsval) * text) :=
  match fuel with
  | O => None
  | S fuel' =>
      match skip_ws s with
      | [] => None
      | c :: r =>
          if negb (c =? dquote)%char then None
          else
            match parse_chars r with
            | None => None
            | Some (k, r1) =>
                match skip_ws r1 with
                | [] => None
                | c1 :: r2 =>
                    if negb (c1 =? ":")%char then None
                    else
                      match parse_value fuel' r2 with
                      | None => None
                      | Some (v, r3) =>
                          match skip_ws r3 with
                          | [] => None
                          | c2 :: r4 =>
                              if (c2 =? ",")%char then
                                match parse_members fuel' r4 with
                                | Some (ms, r') => Some ((str k, v) :: ms, r')
                                | None => None
                                end
                              else if (c2 =? "}")%char then Some ([(str k, v)], r4)
                              else None
                          end
                      end
                end
            end
      end
  end.

(** [JSON.parse(text)].  The message of the [SyntaxError] depends on the
    engine; the model uses one fixed text for it. *)
Definition syntax_error : string := "Unexpected token in JSON".

Definition JSON_parse (s : string) : outcome jsval :=
  let t := lit s in
  match parse_value (2 * length t + 2) t with
  | Some (v, r) =>
      match skip_ws r with
      | [] => Returns v
      | _ :: _ => Throws syntax_error
      end
  | None => Throws syntax_error
  end.

(** ** The file system of the host

    A disk is a finite map from (normalised) paths to nodes.  The model
    keeps one entry per path: it does not derive the existence of a
    directory from the entries below it, and a recursive [mkdir] records
    the directory it is asked for.  Permissions, quotas and symbolic links
    are outside the model. *)

Inductive node : Type :=
| File (content : string)
| Dir.

Abbreviation disk := (gmap string node).

Abbreviation io := (eff disk).

(** [path.dirname] (POSIX): drop the trailing slashes and the last
    component; the first character is never dropped. *)
Definition is_slash (c : ascii) : bool := (c =? "/")%char.

Definition path_dirname (p : string) : string :=
  match lit p with
  | [] => "."
  | c0 :: tail =>
      let no_trailing := (span is_slash (rev tail)).2 in
      let above := (span (fun c => negb (is_slash c)) no_trailing).2 in
      match above with
      | [] => if is_slash c0 then "/" else "."
      | _ :: kept =>
          match kept with
          | [] => if is_slash c0 then "//" else str [c0]
          | _ => str (c0 :: rev kept)
          end
      end
  end.

(** [path.basename] (POSIX): the last component, without the slashes that
    end the path. *)
Definition path_basename (p : string) : string :=
  let no_trailing := (span is_slash (rev (lit p))).2 in
  str (rev (span (fun c => negb (is_slash c)) no_trailing).1).

Definition is_dot (component : text) : bool := String.eqb (str component) ".".
Definition is_dotdot (component : text) : bool := String.eqb (str component) "..".

(** [normalizeString] of the [path] module, on the components between
    the slashes: an empty component and [.] are dropped, [..] takes back
    the component kept last, and is kept itself only where the path may
    climb above its start.  [kept] holds the result so far, last first. *)
Fixpoint normalize_components (allowAboveRoot : bool) (components kept : list text)
  : list text :=
  match components with
  | [] => rev kept
  | component :: rest =>
      if Nat.eqb (length component) 0 || is_dot component
      then normalize_components allowAboveRoot rest kept
      else if is_dotdot component then
        match kept with
        | last :: before =>
            if is_dotdot last
            then normalize_components allowAboveRoot rest
                   (if allowAboveRoot then component :: kept else kept)
            else normalize_components allowAboveRoot rest before
        | [] =>
            normalize_components allowAboveRoot rest
              (if allowAboveRoot then [component] else [])
        end
      else normalize_components allowAboveRoot rest (component :: kept)
  end.

Definition normalizeString (path : text) (allowAboveRoot : bool) : text :=
  join (lit "/") (normalize_components allowAboveRoot (split_on "/"%char path) []).

Definition starts_with_slash (path : text) : bool :=
  match path with
  | c :: _ => is_slash c
  | [] => false
  end.

(** [path.normalize] (POSIX). *)
Definition path_normalize (p : string) : string :=
  match lit p with
  | [] => "."
  | path =>
      let isAbsolute := starts_with_slash path in
      let trailingSeparator := starts_with_slash (rev path) in
      match normalizeString path (negb isAbsolute) with
      | [] => if isAbsolute then "/" else if trailingSeparator then "./" else "."
      | normal =>
          let normal := if trailingSeparator then normal ++ lit "/" else normal in
          str (if isAbsolute then "/"%char :: normal else normal)
      end
  end.

(** [path.join(...args)]: the arguments that are not empty, with a slash
    between them, normalised. *)
Definition path_join (args : list string) : string :=
  match filter (fun arg => negb (Nat.eqb (length arg) 0)) (map lit args) with
  | [] => "."
  | parts => path_normalize (str (join (lit "/") parts))
  end.

(** The loop of [path.resolve]: from the last argument towards the first,
    then the working directory, until the path is absolute. *)
Fixpoint resolve_loop (paths : list string) (resolvedPath : text) : text * bool :=
  match paths with
  | [] => (resolvedPath, false)
  | path :: before =>
      match lit path with
      | [] => resolve_loop before resolvedPath
      | c :: _ =>
          let resolvedPath := lit path ++ "/"%char :: resolvedPath in
          if is_slash c then (resolvedPath, true)
          else resolve_loop before resolvedPath
      end
  end.

(** [path.resolve(...args)] in a process whose working directory is
    [cwd]. *)
Definition path_resolve (cwd : string) (args : list string) : string :=
  let '(resolvedPath, resolvedAbsolute) := resolve_loop (rev args ++ [cwd]) [] in
  let normal := normalizeString resolvedPath (negb resolvedAbsolute) in
  if resolvedAbsolute then str ("/"%char :: normal)
  else match normal with
       | [] => "."
       | _ => str normal
       end.

Definition quoted (p : string) : string := "'" +:+ p +:+ "'".

Definition ENOENT (syscall p : string) : string :=
  "ENOENT: no such file or directory, " +:+ syscall +:+ " " +:+ quoted p.
Definition EISDIR (syscall p : string) : string :=
  "EISDIR: illegal operation on a directory, " +:+ syscall +:+ " " +:+ quoted p.
Definition ENOTDIR (syscall p : string) : string :=
  "ENOTDIR: not a directory, " +:+ syscall +:+ " " +:+ quoted p.
Definition EEXIST (syscall p : string) : string :=
  "EEXIST: file already exists, " +:+ syscall +:+ " " +:+ quoted p.

(** [fs.existsSync]: never throws; the empty path names nothing. *)
Definition fs_existsSync (p : string) : io bool := fun d =>
  (Returns (negb (String.eqb p "") && bool_decide (is_Some (d !! p))), d).

(** [fs.mkdirSync(p, { recursive: true })]. *)
Definition fs_mkdirSync (p : string) : io unit := fun d =>
  if String.eqb p "" then (Throws (ENOENT "mkdir" p), d)
  else
    match d !! p with
    | Some Dir => (Returns tt, d)
    | Some (File _) => (Throws (EEXIST "mkdir" p), d)
    | None => (Returns tt, <[p := Dir]> d)
    end.

(** [fs.promises.readFile(p, "utf-8")]. *)
Definition fs_readFile (p : string) : io string := fun d =>
  if String.eqb p "" then (Throws (ENOENT "open" p), d)
  else
    match d !! p with
    | Some (File content) => (Returns content, d)
    | Some Dir => (Throws (EISDIR "read" p), d)
    | None => (Throws (ENOENT "open" p), d)
    end.

(** [fs.promises.writeFile(p, content)]: the file is created or replaced;
    its directory must exist. *)
Definition fs_writeFile (p content : string) : io unit := fun d =>
  if String.eqb p "" then (Throws (ENOENT "open" p), d)
  else
    match d !! p with
    | Some Dir => (Throws (EISDIR "open" p), d)
    | _ =>
        match d !! path_dirname p with
        | Some Dir => (Returns tt, <[p := File content]> d)
        | Some (File _) => (Throws (ENOTDIR "open" p), d)
        | None => (Throws (ENOENT "open" p), d)
        end
    end.


(** The paths that a recursive removal of [p] takes away: [p] itself and
    the paths that continue it after a slash. *)
Definition below (p k : string) : bool :=
  String.eqb k p
  || bool_decide (is_Some (strip_prefix
                             (if starts_with_slash (rev (lit p)) then lit p
                              else lit p ++ lit "/")
                             (lit k))).

(** [fs.rmSync(p, { recursive: true, force: true })]: with [force] a path
    that names nothing is no error. *)
Definition fs_rmSync (p : string) : io unit := fun d =>
  if String.eqb p "" then (Returns tt, d)
  else (Returns tt, filter (fun entry => below p entry.1 = false) d).

(** ** crypto: SHA-256 (FIPS 180-4) on 32-bit words held in [Z] *)

Module SHA256.

Definition w32 (x : Z) : Z := x mod 2 ^ 32.
Definition add32 (x y : Z) : Z := w32 (x + y).
Definition rotr (n x : Z) : Z :=
  Z.lor (Z.shiftr x n) (w32 (Z.shiftl x (32 - n))).
Definition not32 (x : Z) : Z := Z.lxor x 0xffffffff.

Definition Ch (x y z : Z) : Z := Z.lxor (Z.land x y) (Z.land (not32 x) z).
Definition Maj (x y z : Z) : Z :=
  Z.lxor (Z.lxor (Z.land x y) (Z.land x z)) (Z.land y z).
Definition Sigma0 (x : Z) : Z := Z.lxor (Z.lxor (rotr 2 x) (rotr 13 x)) (rotr 22 x).
Definition Sigma1 (x : Z) : Z := Z.lxor (Z.lxor (rotr 6 x) (rotr 11 x)) (rotr 25 x).
Definition sigma0 (x : Z) : Z := Z.lxor (Z.lxor (rotr 7 x) (rotr 18 x)) (Z.shiftr x 3).
Definition sigma1 (x : Z) : Z := Z.lxor (Z.lxor (rotr 17 x) (rotr 19 x)) (Z.shiftr x 10).

(** A word written in hexadecimal. *)
Definition word_of_hex (t : text) : Z :=
  fold_left (fun acc c => acc * 16 + Z.of_N (default 0%N (hex_value c))) t 0.

Definition hex_words (s : string) : list Z :=
  map word_of_hex
      (filter (fun t => t <> []) (split_on " "%char (lit s))).

(** The sixty-four round constants, as the standard prints them. *)
Definition K : list Z :=
  hex_words
    ("428a2f98 71374491 b5c0fbcf e9b5dba5 3956c25b 59f111f1 923f82a4 ab1c5ed5 "
     +:+ "d807aa98 12835b01 243185be 550c7dc3 72be5d74 80deb1fe 9bdc06a7 c19bf174 "
     +:+ "e49b69c1 efbe4786 0fc19dc6 240ca1cc 2de92c6f 4a7484aa 5cb0a9dc 76f988da "
     +:+ "983e5152 a831c66d b00327c8 bf597fc7 c6e00bf3 d5a79147 06ca6351 14292967 "
     +:+ "27b70a85 2e1b2138 4d2c6dfc 53380d13 650a7354 766a0abb 81c2c92e 92722c85 "
     +:+ "a2bfe8a1 a81a664b c24b8b70 c76c51a3 d192e819 d6990624 f40e3585 106aa070 "
     +:+ "19a4c116 1e376c08 2748774c 34b0bcb5 391c0cb3 4ed8aa4a 5b9cca4f 682e6ff3 "
     +:+ "748f82ee 78a5636f 84c87814 8cc70208 90befffa a4506ceb bef9a3f7 c67178f2").

Record state : Type := State {
  ha : Z; hb : Z; hc : Z; hd : Z; he : Z; hf : Z; hg : Z; hh : Z
}.

Definition initial : state :=
  match hex_words "6a09e667 bb67ae85 3c6ef372 a54ff53a 510e527f 9b05688c 1f83d9ab 5be0cd19" with
  | [a; b; c; d; e; f; g; h] => State a b c d e f g h
  | _ => State 0 0 0 0 0 0 0 0
  end.

(** Padding: the bit 1, zeros up to 56 modulo 64, the bit length on
    eight bytes. *)
Definition be_bytes (count : nat) (x : Z) : list Z :=
  map (fun i => Z.shiftr x (8 * Z.of_nat i) mod 256) (rev (seq 0 count)).

Definition pad (message : list Z) : list Z :=
  let len := Z.of_nat (length message) in
  let zeros := Z.to_nat ((55 - len) mod 64) in
  message ++ 0x80 :: repeat 0 zeros ++ be_bytes 8 (8 * len).

Fixpoint words (bytes : list Z) : list Z :=
  match bytes with
  | b0 :: b1 :: b2 :: b3 :: rest =>
      (((b0 * 256 + b1) * 256 + b2) * 256 + b3) :: words rest
  | _ => []
  end.

(** The message schedule, most recent word first. *)
Fixpoint schedule (count : nat) (recent : list Z) : list Z :=
  match count with
  | O => recent
  | S count' =>
      let w := add32 (add32 (sigma1 (nth 1 recent 0)) (nth 6 recent 0))
                     (add32 (sigma0 (nth 14 recent 0)) (nth 15 recent 0)) in
      schedule count' (w :: recent)
  end.

Definition round (s : state) (kw : Z * Z) : state :=
  let '(k, w) := kw in
  let t1 := add32 (add32 (add32 (hh s) (Sigma1 (he s)))
                         (add32 (Ch (he s) (hf s) (hg s)) k)) w in
  let t2 := add32 (Sigma0 (ha s)) (Maj (ha s) (hb s) (hc s)) in
  State (add32 t1 t2) (ha s) (hb s) (hc s) (add32 (hd s) t1) (he s) (hf s) (hg s).

Definition compress (s : state) (block : list Z) : state :=
  let w := rev (schedule 48 (rev (words block))) in
  let r := fold_left round (combine K w) s in
  State (add32 (ha s) (ha r)) (add32 (hb s) (hb r))
        (add32 (hc s) (hc r)) (add32 (hd s) (hd r))
        (add32 (he s) (he r)) (add32 (hf s) (hf r))
        (add32 (hg s) (hg r)) (add32 (hh s) (hh r)).

Fixpoint blocks (count : nat) (bytes : list Z) (s : state) : state :=
  match count with
  | O => s
  | S count' => blocks count' (drop 64 bytes) (compress s (take 64 bytes))
  end.

Definition digest (message : list Byte.byte) : state :=
  let padded := pad (map (fun b => Z.of_N (Byte.to_N b)) message) in
  blocks (length padded / 64) padded initial.

(** [digest("hex")]: eight lowercase hexadecimal digits per word. *)
Definition hex_word (x : Z) : text :=
  map (fun i => hex_digit (Z.to_N (Z.shiftr x (4 * Z.of_nat i) mod 16)))
      (rev (seq 0 8)).

Definition hex (s : state) : string :=
  str (flat_map hex_word
         [ha s; hb s; hc s; hd s; he s; hf s; hg s; hh s]).

End SHA256.

(** ** Buffers

    The content of a file is kept as a string of 8-bit code units; a
    [Buffer] holds the same units as bytes. *)

Definition bytes_of_string (s : string) : list Byte.byte :=
  map byte_of_ascii (lit s).

Definition string_of_bytes (bytes : list Byte.byte) : string :=
  str (map ascii_of_byte bytes).

(** [fs.promises.readFile(p)] without an encoding: a [Buffer]. *)
Definition fs_readFileBuffer (p : string) : io (list Byte.byte) :=
  run content <- fs_readFile p;
  eff_ret (bytes_of_string content).

(** [fs.promises.writeFile(p, buffer)] and [fs.writeFileSync(p, buffer)]. *)
Definition fs_writeFileBuffer (p : string) (buffer : list Byte.byte) : io unit :=
  fs_writeFile p (string_of_bytes buffer).

Definition base64_alphabet : text :=
  lit "ABCDEFGHIJKLMNOPQRSTUVWXYZabcdefghijklmnopqrstuvwxyz0123456789+/".

Definition base64_char (sextet : N) : ascii :=
  nth (N.to_nat sextet) base64_alphabet "="%char.

(** [buffer.toString("base64")]: three bytes give four characters; one or
    two bytes left at the end give two or three, and the group is filled
    with [=]. *)
Fixpoint base64 (bytes : list Byte.byte) : text :=
  match bytes with
  | [] => []
  | [a] =>
      let n := (Byte.to_N a * 65536)%N in
      [base64_char (n / 262144); base64_char ((n / 4096) mod 64);
       "="%char; "="%char]
  | [a; b] =>
      let n := (Byte.to_N a * 65536 + Byte.to_N b * 256)%N in
      [base64_char (n / 262144); base64_char ((n / 4096) mod 64);
       base64_char ((n / 64) mod 64); "="%char]
  | a :: b :: c :: rest =>
      let n := (Byte.to_N a * 65536 + Byte.to_N b * 256 + Byte.to_N c)%N in
      base64_char (n / 262144) :: base64_char ((n / 4096) mod 64)
        :: base64_char ((n / 64) mod 64) :: base64_char (n mod 64)
        :: base64 rest
  end.

(** [String(error)], as a template literal renders an error of the class
    [name]. *)
Definition Error_toString (name message : string) : string :=
  if String.eqb name "" then message
  else if String.eqb message "" then name
  else name +:+ ": " +:+ message.

(** A block whose [catch] reads [String(error)]: the errors of [fs] and
    of the package are of the class [Error]. *)
Definition stringified {S A : Type} (m : eff S A) : eff S A :=
  eff_catch m (fun message => eff_throw (Error_toString "Error" message)).

(** What [await fetch(url)] followed by [await response.arrayBuffer()]
    gives: the bytes of the body, or the rejection of one of the two. *)
Inductive fetched : Type :=
| Body (bytes : list Byte.byte)
| Rejected (name message : string).

(** The argument of the digest and of the size: a [Buffer] or any other
    value. *)
Inductive argument : Type :=
| ABuffer (bytes : list Byte.byte)
| AValue (v : jsval).

(** ** src/files/mimeType.ts *)

(** [fileName.split(".").pop()]. *)
Definition extension (fileName : string) : string :=
  str (List.last (split_on "."%char (lit fileName)) []).

(** The [case] labels of the [switch], in source order, each with the
    value its group returns. *)
Definition mime_cases : list (string * string) :=
  [ ("mp4", "video/mp4");
    ("mpeg", "video/mpeg"); ("mpg", "video/mpeg"); ("mpe", "video/mpeg");
    ("mpv", "video/mpeg"); ("mp2", "video/mpeg"); ("m2v", "video/mpeg");
    ("m2ts", "video/mpeg"); ("mts", "video/mpeg"); ("tts", "video/mpeg");
    ("m2t", "video/mpeg"); ("tsv", "video/mpeg"); ("tsa", "video/mpeg");
    ("webm", "video/webm");
    ("3gp", "video/3gpp");
    ("mkv", "video/x-matroska");
    ("avi", "video/x-msvideo");
    ("mov", "video/quicktime");
    ("wmv", "video/x-ms-wmv");
    ("flv", "video/x-flv");
    ("m4v", "video/x-m4v");
    ("mp3", "audio/mpeg");
    ("m4a", "audio/mp4");
    ("m4b", "audio/mp4"); ("m4p", "audio/mp4"); ("m4r", "audio/mp4");
    ("wav", "audio/wav");
    ("ogg", "audio/ogg");
    ("aac", "audio/aac");
    ("flac", "audio/flac");
    ("alac", "audio/alac");
    ("jpg", "image/jpeg"); ("jpeg", "image/jpeg");
    ("png", "image/png");
    ("gif", "image/gif");
    ("bmp", "image/bmp");
    ("webp", "image/webp");
    ("svg", "image/svg+xml");
    ("ico", "image/x-icon");
    ("tiff", "image/tiff");
    ("psd", "image/vnd.adobe.photoshop");
    ("ai", "application/postscript");
    ("eps", "application/postscript");
    ("indd", "application/x-indesign");
    ("raw", "image/x-raw");
    ("cr2", "image/x-canon-cr2");
    ("nef", "image/x-nikon-nef");
    ("orf", "image/x-olympus-orf");
    ("rw2", "image/x-panasonic-rw2");
    ("pef", "image/x-pentax-pef");
    ("arw", "image/x-sony-arw");
    ("dng", "image/x-adobe-dng");
    ("x3f", "image/x-sigma-x3f");
    ("cr3", "image/x-canon-cr3");
    ("heic", "image/heic");
    ("heif", "image/heif");
    ("avif", "image/avif");
    ("pdf", "application/pdf");
    ("txt", "text/plain");
    ("html", "text/html");
    ("css", "text/css");
    ("js", "application/javascript");
    ("json", "application/json");
    ("xml", "application/xml");
    ("zip", "application/zip");
    ("rar", "application/x-rar-compressed");
    ("7z", "application/x-7z-compressed") ].

(** [switch (ext)]: the first label strictly equal to [ext] decides. *)
Fixpoint switch (ext : string) (cases : list (string * string)) (dflt : string)
  : string :=
  match cases with
  | [] => dflt
  | (label, value) :: rest =>
      if String.eqb ext label then value else switch ext rest dflt
  end.

Definition mimeType (fileName : string) : string :=
  let ext := extension fileName in
  switch ext mime_cases "application/octet-stream".

(** ** src/files/IOFiles.ts *)

(** The interfaces of the namespace [FileType], each in a module of its
    name. *)
Module FileType.

Module FileData.
Record t : Type := {
  filedata : list Byte.byte;
  filename : string;
  filepath : string
}.
End FileData.

Module FileMetadata.
Record t : Type := {
  filename : string;
  fileuri : string;
  filehash : string;
  filesize : nat;
  mimeType : string;
  inlineData : string
}.
End FileMetadata.

Module FileDownloadRequest.
Record t : Type := {
  fileuri : string;
  saveTo : string
}.
End FileDownloadRequest.

End FileType.

(** The object [{ inlineData: { data, mimeType } }] that
    [fileToGenerativePath] returns. *)
Module GenerativePath.

Module InlineData.
Record t : Type := {
  data : string;
  mimeType : string
}.
End InlineData.

Record t : Type := {
  inlineData : InlineData.t
}.

End GenerativePath.

Module IOF.

Definition existsFileSync (filePath : string) : io bool :=
  eff_catch (fs_existsSync filePath)
    (fun message =>
       eff_throw ("Failed to check existence of " +:+ filePath +:+ ": " +:+ message)).


Definition mkdir (dirPath : string) : io unit :=
  eff_catch
    (run found <- existsFileSync dirPath;
     if negb found then fs_mkdirSync dirPath else eff_ret tt)
    (fun message =>
       eff_throw ("Failed to create directory at " +:+ dirPath +:+ ":  " +:+ message)).

Definition rm (dirPath : string) : io unit :=
  eff_catch
    (run found <- existsFileSync dirPath;
     if (found : bool) then fs_rmSync dirPath else eff_ret tt)
    (fun message =>
       eff_throw ("Failed to remove at " +:+ dirPath +:+ ": " +:+ message)).

(** [Array.isArray(data) ? data : [data]]. *)
Definition as_array (data : jsval) : list jsval :=
  match data with
  | VArr items => items
  | _ => [data]
  end.

Definition writeJSONFile (filePath : string) (data : jsval) (overwrite : bool)
  : io unit :=
  eff_catch
    (run dirExists <- existsFileSync (path_dirname filePath);
     run _ <- (if negb dirExists then mkdir (path_dirname filePath)
               else eff_ret tt);
     (* overwrite || !this.existsFileSync(filePath) *)
     run replace <- (if overwrite then eff_ret true
                     else run found <- existsFileSync filePath;
                          eff_ret (negb found));
     run finalData <-
       (if (replace : bool)
        then eff_ret (as_array data)
        else
          run jsonData <- fs_readFile filePath;
          run parsed <- eff_lift (JSON_parse jsonData);
          let arrayData := match parsed with VArr items => items | _ => [] end in
          match data with
          | VArr items => eff_ret (arrayData ++ items)
          | _ => eff_ret (arrayData ++ [data])
          end);
     run newJsonData <- eff_lift (JSON_stringify (VArr finalData) 2);
     match newJsonData with
     | Some content => fs_writeFile filePath content
     | None =>
         (* [JSON.stringify] gave [undefined]: never so for an array *)
         eff_throw "The data argument must be of type string"
     end)
    (fun message =>
       eff_throw ("Failed to write JSON to " +:+ filePath +:+ ": " +:+ message)).

Definition readJSONFile (filePath : string) : io (list jsval) :=
  eff_catch
    (run found <- fs_existsSync filePath;
     run _ <- (if negb found then eff_throw ("File not found: " +:+ filePath)
               else eff_ret tt);
     run jsonData <- fs_readFile filePath;
     run arr <- eff_lift (JSON_parse jsonData);
     match arr with
     | VArr items => eff_ret items
     | _ => eff_throw ("File content is not an array: " +:+ filePath)
     end)
    (fun message =>
       eff_throw ("Failed to read JSON from " +:+ filePath +:+ ": " +:+ message)).

(** [crypto.createHash("sha256").update(buffer).digest("hex")]. *)
Definition calculateHashByBuffer (buffer : argument) : outcome string :=
  match buffer with
  | AValue _ => Throws "Input must be a Buffer"
  | ABuffer bytes =>
      if Nat.eqb (length bytes) 0 then Throws "Buffer cannot be empty"
      else Returns (SHA256.hex (SHA256.digest bytes))
  end.

(** [Buffer.byteLength(buffer)]. *)
Definition calculateSizeByBuffer (buffer : argument) : outcome nat :=
  match buffer with
  | AValue _ => Throws "Input must be a Buffer"
  | ABuffer bytes =>
      if Nat.eqb (length bytes) 0 then Throws "Buffer cannot be empty"
      else Returns (length bytes)
  end.

(** [cwd] is [process.cwd()].  The digest and the size are taken before
    the [try] is entered. *)
Definition saveBufferToFile (cwd : string) (data : FileType.FileData.t)
  : io FileType.FileMetadata.t :=
  run hash <- eff_lift (calculateHashByBuffer
                          (ABuffer (FileType.FileData.filedata data)));
  run size <- eff_lift (calculateSizeByBuffer
                          (ABuffer (FileType.FileData.filedata data)));
  let type := mimeType (FileType.FileData.filename data) in
  eff_catch
    (let fullPath := path_resolve cwd [FileType.FileData.filepath data;
                                       FileType.FileData.filename data] in
     let dir := path_dirname fullPath in
     run _ <- mkdir dir;
     run _ <- fs_writeFileBuffer fullPath (FileType.FileData.filedata data);
     eff_ret {| FileType.FileMetadata.filename := FileType.FileData.filename data;
                FileType.FileMetadata.fileuri := fullPath;
                FileType.FileMetadata.filehash := hash;
                FileType.FileMetadata.filesize := size;
                FileType.FileMetadata.mimeType := type;
                FileType.FileMetadata.inlineData :=
                  str (base64 (FileType.FileData.filedata data)) |})
    (fun message => eff_throw ("Failed to set file location: " +:+ message)).

(** [response] is what the host gives for [fetch(data.fileuri)].  The
    fields of the returned object are evaluated in their order. *)
Definition downloadFile (response : fetched) (data : FileType.FileDownloadRequest.t)
  : io FileType.FileMetadata.t :=
  eff_catch
    (run buffer <- (match response with
                    | Body bytes => eff_ret bytes
                    | Rejected name message =>
                        eff_throw (Error_toString name message)
                    end);
     let fileName := path_basename (FileType.FileDownloadRequest.fileuri data) in
     let filePath := path_join [FileType.FileDownloadRequest.saveTo data; fileName] in
     run _ <- stringified (fs_writeFileBuffer filePath buffer);
     run filehash <- stringified (eff_lift (calculateHashByBuffer (ABuffer buffer)));
     run filesize <- stringified (eff_lift (calculateSizeByBuffer (ABuffer buffer)));
     eff_ret {| FileType.FileMetadata.filename := fileName;
                FileType.FileMetadata.fileuri := filePath;
                FileType.FileMetadata.filehash := filehash;
                FileType.FileMetadata.filesize := filesize;
                FileType.FileMetadata.mimeType := mimeType fileName;
                FileType.FileMetadata.inlineData := str (base64 buffer) |})
    (fun error => eff_throw ("Failed to download file: " +:+ error)).

(** The [catch] does not read the error. *)
Definition readTextFile (filePath : string) : io string :=
  eff_catch
    (run data <- fs_readFile filePath;
     eff_ret data)
    (fun _ => eff_throw ("Failed to read file at " +:+ filePath)).

Definition fileToGenerativePath (fileName : string) : io GenerativePath.t :=
  eff_catch
    (let mime := mimeType fileName in
     run file <- stringified (fs_readFileBuffer fileName);
     eff_ret {| GenerativePath.inlineData :=
                  {| GenerativePath.InlineData.data := str (base64 file);
                     GenerativePath.InlineData.mimeType := mime |} |})
    (fun error =>
       eff_throw ("Failed to convert file to generative path: " +:+ error)).

End IOF.

(** ** src/terminal/terminalColors.ts *)

Definition esc (code : string) : string :=
  String "027"%char ("[" +:+ code +:+ "m").

(** The string-valued entries of [TerminalColors]. *)
Definition TerminalColors : list (string * string) :=
  [ ("_reset", esc "0"); ("_bright", esc "1"); ("_dim", esc "2");
    ("_italic", esc "3"); ("_underline", esc "4"); ("_blink", esc "5");
    ("_reverse", esc "7"); ("_hidden", esc "8"); ("_strikethrough", esc "9");
    ("BLACK", esc "30"); ("RED", esc "31"); ("GREEN", esc "32");
    ("YELLOW", esc "33"); ("BLUE", esc "34"); ("MAGENTA", esc "35");
    ("CYAN", esc "36"); ("WHITE", esc "37");
    ("BRIGHT_BLACK", esc "90"); ("BRIGHT_RED", esc "91");
    ("BRIGHT_GREEN", esc "92"); ("BRIGHT_YELLOW", esc "93");
    ("BRIGHT_BLUE", esc "94"); ("BRIGHT_MAGENTA", esc "95");
    ("BRIGHT_CYAN", esc "96"); ("BRIGHT_WHITE", esc "97");
    ("BBLACK", esc "40"); ("BRED", esc "41"); ("BGREEN", esc "42");
    ("BYELLOW", esc "43"); ("BBLUE", esc "44"); ("BMAGENTA", esc "45");
    ("BCYAN", esc "46"); ("BWHITE", esc "47");
    ("BBRIGHT_BLACK", esc "100"); ("BBRIGHT_RED", esc "101");
    ("BBRIGHT_GREEN", esc "102"); ("BBRIGHT_YELLOW", esc "103");
    ("BBRIGHT_BLUE", esc "104"); ("BBRIGHT_MAGENTA", esc "105");
    ("BBRIGHT_CYAN", esc "106"); ("BBRIGHT_WHITE", esc "107") ].

(** The four function-valued entries, by the text a template literal
    gives them (their source text in the bundle). *)
Definition TerminalColors_functions : list (string * string) :=
  [ ("fg256", "(n) => `\x1B[38;5;${n}m`");
    ("bg256", "(n) => `\x1B[48;5;${n}m`");
    ("fgRGB", "(r, g, b) => `\x1B[38;2;${r};${g};${b}m`");
    ("bgRGB", "(r, g, b) => `\x1B[48;2;${r};${g};${b}m`") ].

Fixpoint assoc (k : string) (table : list (string * string)) : option string :=
  match table with
  | [] => None
  | (k', v) :: rest => if String.eqb k k' then Some v else assoc k rest
  end.

(** [TerminalColors[name]], [None] for [undefined]; the properties
    inherited from [Object.prototype] are not modelled. *)
Definition TerminalColors_get (name : string) : option string :=
  match assoc name TerminalColors with
  | Some e => Some e
  | None => assoc name TerminalColors_functions
  end.

(** [`${x}`] of a string or [undefined]. *)
Definition interpolate (x : option string) : string := default "undefined" x.

Definition reset_ : string := esc "0".
Definition dim_ : string := esc "2".

(** ** src/utils/time.ts *)

(** A [Date]: its time value, in milliseconds since the epoch, or [None]
    when the time value is [NaN] (an invalid date). *)
Record Date : Type := {
  getTime : option Z
}.

(** [TimeClip]: a time value is at most 8.64e15 milliseconds away from
    the epoch. *)
Definition TimeClip (t : Z) : option Z :=
  if Z.abs t <=? 8640000000000000 then Some t else None.

(** The argument of [parseDate]: a [Date] or any other value. *)
Inductive date_input : Type :=
| IDate (date : Date)
| IValue (v : jsval).

Module Time.

(** [dateParts[type] = value] for every part, in order. *)
Definition collect (parts : list (string * string)) : gmap string string :=
  fold_left (fun m tv => <[tv.1 := tv.2]> m) parts ∅.

(** [!dateParts[part]]: missing or empty. *)
Definition falsy (x : option string) : bool :=
  match x with
  | Some s => String.eqb s ""
  | None => true
  end.

Definition requiredParts : list string :=
  ["year"; "month"; "day"; "hour"; "minute"; "second"].

Fixpoint check_required (required : list string) (dateParts : gmap string string)
  : outcome unit :=
  match required with
  | [] => Returns tt
  | part :: rest =>
      if falsy (dateParts !! part)
      then Throws ("Missing date part: " +:+ part)
      else check_required rest dateParts
  end.

(** [formatDateToParts(new Date(), undefined, undefined)].  [formatted]
    is what [new Intl.DateTimeFormat(..).formatToParts(date)] gives for
    the current instant in the locale and time zone of the system, or
    the error it throws. *)
Definition formatDateToParts (formatted : outcome (list (string * string)))
  : outcome (gmap string string) :=
  match (do formattedParts <- formatted;
         let dateParts := collect formattedParts in
         do _ <- check_required requiredParts dateParts;
         Returns dateParts) with
  | Returns dateParts => Returns dateParts
  | Throws message => Throws ("Failed to format date: " +:+ message)
  end.

Definition part (dateParts : gmap string string) (name : string) : string :=
  interpolate (dateParts !! name).

Definition formatDateToSaveString (dateParts : gmap string string) : string :=
  part dateParts "year" +:+ "-" +:+ part dateParts "month" +:+ "-"
    +:+ part dateParts "day" +:+ "T" +:+ part dateParts "hour" +:+ "-"
    +:+ part dateParts "minute" +:+ "-" +:+ part dateParts "second".

Definition logFormat (dateParts : gmap string string) : string :=
  part dateParts "day" +:+ "/" +:+ part dateParts "month" +:+ "/"
    +:+ part dateParts "year" +:+ ":" +:+ part dateParts "hour" +:+ ":"
    +:+ part dateParts "minute" +:+ ":" +:+ part dateParts "second".

Definition getCurrentTimeToSaveString (formatted : outcome (list (string * string)))
  : outcome string :=
  do dateParts <- formatDateToParts formatted;
  Returns (formatDateToSaveString dateParts).

(** [Date_parse] is the host's parsing of a date string, [None] for
    [NaN]; [new Date(value)] clips the time value it is given. *)
Definition parseDate (Date_parse : string -> option Z) (input : date_input)
  : outcome Date :=
  match input with
  | IDate date =>
      match getTime date with
      | None => Throws "Invalid Date object provided"
      | Some _ => Returns date
      end
  | IValue (VNum n) =>
      let date := {| getTime := TimeClip n |} in
      match getTime date with
      | None => Throws "Invalid timestamp provided"
      | Some _ => Returns date
      end
  | IValue (VStr s) =>
      let date := {| getTime := Date_parse s ≫= TimeClip |} in
      match getTime date with
      | None => Throws ("Unable to parse date string: " +:+ dq +:+ s +:+ dq)
      | Some _ => Returns date
      end
  | IValue _ =>
      Throws "Input must be a Date object, timestamp number, or valid date string"
  end.

Definition getTimeToLogFormat (formatted : outcome (list (string * string)))
  : outcome string :=
  do dateParts <- formatDateToParts formatted;
  Returns (logFormat dateParts).

End Time.

Definition sample_parts : list (string * string) :=
  [ ("month", "11"); ("literal", "/"); ("day", "02"); ("literal", "/");
    ("year", "2026"); ("literal", ", "); ("hour", "09"); ("literal", ":");
    ("minute", "05"); ("literal", ":"); ("second", "59") ].

(** ** String searching used by the caller detection *)

(** [s.includes(needle)]. *)
Fixpoint includes_text (needle s : text) : bool :=
  match strip_prefix needle s with
  | Some _ => true
  | None =>
      match s with
      | [] => false
      | _ :: s' => includes_text needle s'
      end
  end.

Definition includes (needle s : string) : bool := includes_text (lit needle) (lit s).

(** The class [\s] of a regular expression, on 8-bit code units. *)
Definition is_space (c : ascii) : bool :=
  let n := N_of_ascii c in
  (((9 <=? n) && (n <=? 13)) || (n =? 32) || (n =? 160))%N.

(** The class [\w]. *)
Definition is_word (c : ascii) : bool :=
  let n := N_of_ascii c in
  (((48 <=? n) && (n <=? 57)) || ((65 <=? n) && (n <=? 90))
   || ((97 <=? n) && (n <=? 122)) || (n =? 95))%N.

(** The leftmost match of a pattern that is tried at every position. *)
Fixpoint search {A : Type} (here : text -> option A) (s : text) : option A :=
  match here s with
  | Some r => Some r
  | None =>
      match s with
      | [] => None
      | _ :: s' => search here s'
      end
  end.

Definition nonempty (t : text) : bool := negb (Nat.eqb (length t) 0).

(** [/at\s+(\w+)\s+\(/] at one position: the greedy runs cannot give
    back characters, since [\s] and [\w] are disjoint and [(] is in
    neither class. *)
Definition at_word_here (s : text) : option text :=
  match strip_prefix (lit "at") s with
  | None => None
  | Some s1 =>
      let '(sp1, s2) := span is_space s1 in
      let '(name, s3) := span is_word s2 in
      let '(sp2, s4) := span is_space s3 in
      match s4 with
      | c :: _ =>
          if nonempty sp1 && nonempty name && nonempty sp2 && (c =? "(")%char
          then Some name else None
      | [] => None
      end
  end.

(** [line.match(/at\s+(\w+)\s+\(/)]: the first group of the match. *)
Definition match_at_word (line : string) : option string :=
  str <$> search at_word_here (lit line).

(** [/at\s+<anonymous>\s+\(/] at one position. *)
Definition at_anonymous_here (s : text) : option unit :=
  match strip_prefix (lit "at") s with
  | None => None
  | Some s1 =>
      let '(sp1, s2) := span is_space s1 in
      match strip_prefix (lit "<anonymous>") s2 with
      | None => None
      | Some s3 =>
          let '(sp2, s4) := span is_space s3 in
          match s4 with
          | c :: _ =>
              if nonempty sp1 && nonempty sp2 && (c =? "(")%char
              then Some tt else None
          | [] => None
          end
      end
  end.

Definition match_at_anonymous (line : string) : bool :=
  bool_decide (is_Some (search at_anonymous_here (lit line))).

(** [line.trim() !== ""]. *)
Definition not_blank (line : string) : bool :=
  negb (forallb is_space (lit line)).

(** [s.replace(pattern, replacement)] for a string pattern: the first
    occurrence only. *)
Fixpoint replace_text (pattern replacement s : text) : text :=
  match strip_prefix pattern s with
  | Some after => replacement ++ after
  | None =>
      match s with
      | [] => []
      | c :: s' => c :: replace_text pattern replacement s'
      end
  end.

Definition replace (pattern replacement s : string) : string :=
  str (replace_text (lit pattern) (lit replacement) (lit s)).

(** [s.split("\n")]. *)
Definition lines (s : string) : list string :=
  map str (split_on newline (lit s)).

(** ** src/terminal/logger.ts *)

(** What the host gives a log call: the parts of the current instant as
    [Intl.DateTimeFormat] formats them, and the [stack] property of the
    [Error] created inside [getCallerNameForced] and inside
    [getCallerName] ([None] when the engine provides none). *)
Record host : Type := Host {
  formatted : outcome (list (string * string));
  stackForced : option string;
  stackPlain : option string
}.

Inductive console_method : Type := console_log | console_info.

(** The console: the calls made so far, each with its text. *)
Abbreviation console := (list (console_method * string)).

Record LogReturn : Type := {
  pfn : string;
  timestamp : string;
  message : jsval;
  level : string
}.

(** The [opt] argument of [custom]: [color] is optional. *)
Record custom_options : Type := {
  type : string;
  color : option string
}.

(** The static flag [Logger.showFunctionName] is written by the hosting
    application only; every function below takes its value at the time of
    the call as the argument [showFunctionName]. *)
Module Logger.

(** [console.log(line)] or [console.info(line)]: both write to the
    standard output stream. *)
Definition write (method : console_method) (line : string) : eff console unit :=
  fun out => (Returns tt, out ++ [(method, line)]).

(** The substrings that make the scan pass over a stack line. *)
Definition skipped_markers : list string :=
  [ "Logger.log"; "Logger.success"; "Logger.error"; "Logger.warn";
    "Logger.info"; "Logger.debug"; "Logger.custom";
    "Function.getCallerName"; "Function.logWithReturn";
    "Function.customWithReturn"; "at Object.<anonymous>";
    "Module._compile"; "at Module.load"; "transformer" ].

Definition skipped (line : string) : bool :=
  existsb (fun marker => includes marker line) skipped_markers.

(** One turn of the [for] loop of both caller detections: [Some tag]
    when the body returns, [None] when it goes on to the next line. *)
Definition frame_tag (line : string) : option string :=
  if skipped line then None
  else if includes "at <anonymous>" line && negb (match_at_anonymous line)
  then None
  else if not_blank line then
    match match_at_word line with
    | Some name =>
        if negb (String.eqb name "") && negb (String.eqb name "Object")
           && negb (String.eqb name "Function")
        then Some ("fn: " +:+ name)
        else if includes "at <anonymous>" line then Some "fn: <anonymous>"
        else None
    | None =>
        if includes "at <anonymous>" line then Some "fn: <anonymous>"
        else None
    end
  else None.

(** The loop, from the line at hand to the end of the stack. *)
Fixpoint scan (stackLines : list string) : string :=
  match stackLines with
  | [] => ""
  | line :: rest =>
      match frame_tag line with
      | Some tag => tag
      | None => scan rest
      end
  end.

(** [if (err.stack) { .. for (let i = 2; ..) .. } return ""]. *)
Definition detect (stack : option string) : string :=
  match stack with
  | None => ""
  | Some s => if String.eqb s "" then "" else scan (drop 2 (lines s))
  end.

Definition getCallerName (h : host) (showFunctionName : bool) : string :=
  if negb showFunctionName then "" else detect (stackPlain h).

Definition getCallerNameForced (h : host) : string := detect (stackForced h).

Definition colorMap : list (string * string) :=
  [ ("DEBUG", esc "35"); ("WARN", esc "43"); ("ERROR", esc "31");
    ("INFO", esc "34"); ("SUCCESS", esc "32") ].

(** [a.stack || a.message]. *)
Definition stack_or_message (stack : option string) (message : string) : string :=
  match stack with
  | Some s => if String.eqb s "" then message else s
  | None => message
  end.

(** The callback of [args.map]: [None] is [undefined]. *)
Definition render (a : jsval) : outcome (option string) :=
  match a with
  | VError stack message => Returns (Some (stack_or_message stack message))
  | _ =>
      if typeof_object a then JSON_stringify a 0
      else Returns (Some (String_ a))
  end.

Fixpoint render_all (args : list jsval) : outcome (list (option string)) :=
  match args with
  | [] => Returns []
  | a :: rest =>
      do r <- render a;
      do rs <- render_all rest;
      Returns (r :: rs)
  end.

(** [pieces.join(" ")]: an [undefined] piece gives the empty string. *)
Definition join_pieces (pieces : list (option string)) : string :=
  str (join (lit " ") (map (fun piece => lit (default "" piece)) pieces)).

Definition processedMessage (args : list jsval) : jsval :=
  match args with
  | [a] => a
  | _ :: _ :: _ => VArr args
  | [] => VStr ""
  end.

Definition logMethod (type : string) : console_method :=
  if String.eqb type "ERROR" || String.eqb type "WARN" then console_log
  else if String.eqb type "INFO" then console_info
  else console_log.

Definition line (currentTime color type displayFunctionName consoleMessage : string)
  : string :=
  dim_ +:+ "[" +:+ currentTime +:+ "]" +:+ reset_ +:+ " " +:+ color +:+ "["
    +:+ type +:+ "]" +:+ reset_ +:+ " " +:+ displayFunctionName +:+ ": "
    +:+ consoleMessage.

Definition log (h : host) (showFunctionName : bool) (type : string)
    (args : list jsval) : eff console unit :=
  let color := default reset_ (assoc type colorMap) in
  run currentTime <- eff_lift (Time.getTimeToLogFormat (formatted h));
  let functionName := getCallerName h showFunctionName in
  run pieces <- eff_lift (render_all args);
  let message := join_pieces pieces in
  write (logMethod type) (line currentTime color type functionName message).

Definition logWithReturn (h : host) (showFunctionName : bool)
    (type : string) (withFunctionName : bool) (args : list jsval)
  : eff console LogReturn :=
  let color := default reset_ (assoc type colorMap) in
  run currentTime <- eff_lift (Time.getTimeToLogFormat (formatted h));
  let detectedFunctionName := getCallerNameForced h in
  let displayFunctionName :=
    if withFunctionName then detectedFunctionName
    else if showFunctionName then getCallerName h showFunctionName
    else "" in
  run pieces <- eff_lift (render_all args);
  let consoleMessage := join_pieces pieces in
  run _ <- write (logMethod type)
             (line currentTime color type displayFunctionName consoleMessage);
  eff_ret {| pfn := replace "fn: " "" detectedFunctionName;
            timestamp := currentTime;
            message := processedMessage args;
            level := type |}.

Definition customWithReturn (h : host) (showFunctionName : bool)
    (opt : custom_options) (withFunctionName : bool) (args : list jsval)
  : eff console LogReturn :=
  let logColor :=
    match color opt with
    | Some c => if String.eqb c "" then "CYAN" else c
    | None => "CYAN"
    end in
  run currentTime <- eff_lift (Time.getTimeToLogFormat (formatted h));
  let detectedFunctionName := getCallerNameForced h in
  let displayFunctionName :=
    if withFunctionName then detectedFunctionName
    else if showFunctionName then getCallerName h showFunctionName
    else "" in
  run pieces <- eff_lift (render_all args);
  let consoleMessage := join_pieces pieces in
  run _ <- write console_log
             (line currentTime (interpolate (TerminalColors_get logColor)) (type opt)
                   displayFunctionName consoleMessage);
  eff_ret {| pfn := replace "fn: " "" detectedFunctionName;
            timestamp := currentTime;
            message := processedMessage args;
            level := type opt |}.

(** The plain methods pass the flag as [withFunctionName]. *)
Definition success h (showFunctionName : bool) args :=
  logWithReturn h showFunctionName "SUCCESS" showFunctionName args.
Definition error h (showFunctionName : bool) args :=
  logWithReturn h showFunctionName "ERROR" showFunctionName args.
Definition warn h (showFunctionName : bool) args :=
  logWithReturn h showFunctionName "WARN" showFunctionName args.
Definition info h (showFunctionName : bool) args :=
  logWithReturn h showFunctionName "INFO" showFunctionName args.
Definition debug h (showFunctionName : bool) args :=
  logWithReturn h showFunctionName "DEBUG" showFunctionName args.
Definition custom h (showFunctionName : bool) opt args :=
  customWithReturn h showFunctionName opt showFunctionName args.

(** The forced methods pass [true]. *)
Module pfn.
Definition success h (showFunctionName : bool) args :=
  logWithReturn h showFunctionName "SUCCESS" true args.
Definition error h (showFunctionName : bool) args :=
  logWithReturn h showFunctionName "ERROR" true args.
Definition warn h (showFunctionName : bool) args :=
  logWithReturn h showFunctionName "WARN" true args.
Definition info h (showFunctionName : bool) args :=
  logWithReturn h showFunctionName "INFO" true args.
Definition debug h (showFunctionName : bool) args :=
  logWithReturn h showFunctionName "DEBUG" true args.
Definition custom h (showFunctionName : bool) opt args :=
  customWithReturn h showFunctionName opt true args.
End pfn.

End Logger.

(** A stack as V8 prints it for [helper() -> Logger.pfn.info(..)] in an
    ES module. *)
Definition stack_of (caller : string) : string :=
  "Error" +:+ nl
  +:+ "    at Logger.getCallerNameForced (file:///app/node_modules/halo-utils/dist/index.mjs:717:17)" +:+ nl
  +:+ "    at Logger.logWithReturn (file:///app/node_modules/halo-utils/dist/index.mjs:774:39)" +:+ nl
  +:+ "    at Object.info (file:///app/node_modules/halo-utils/dist/index.mjs:684:32)" +:+ nl
  +:+ "    at " +:+ caller +:+ " (file:///app/main.mjs:4:21)" +:+ nl
  +:+ "    at file:///app/main.mjs:7:1" +:+ nl
  +:+ "    at ModuleJob.run (node:internal/modules/esm/module_job:195:25)".

Definition sample_host (caller : string) : host :=
  Host (Returns sample_parts) (Some (stack_of caller)) (Some (stack_of caller)).

(** ** src/terminal/terminalinteractive.ts *)

(** [s.startsWith(prefix)]. *)
Definition startsWith (prefix s : string) : bool :=
  bool_decide (is_Some (strip_prefix (lit prefix) (lit s))).

Module Terminal.

Definition completions : list string := ["help"; "exit"; "clear"].

(** The [completer] handed to [createInterface]. *)
Definition completer (line : string) : list string * string :=
  let hits := filter (fun c => startsWith line c) completions in
  (if Nat.eqb (length hits) 0 then completions else hits, line).

Record EnvParsed : Type := {
  keys : list string;
  values : list string
}.

(** [env] is [process.env] once [dotenv.config] has run: the variables
    in the order of [Object.keys]; a variable that is not there, or is
    empty, is falsy. *)
Definition envParser (env : list (string * string)) (prefix : string) : EnvParsed :=
  let envKeys := filter (fun key => startsWith prefix key) (map fst env) in
  fold_left
    (fun found key =>
       match assoc key env with
       | Some value =>
           if String.eqb value "" then found
           else {| keys := keys found ++ [key]; values := values found ++ [value] |}
       | None => found
       end)
    envKeys {| keys := []; values := [] |}.

End Terminal.

(** * Notions used by the statements and by their proofs *)

(** What may follow an integer literal: anything but a digit. *)
Definition follow_ok (rest : text) : Prop :=
  match rest with [] => True | c :: _ => is_digit c = false end.

(** The escapes of [quote_char], read back by [parse_chars]: checked on
    every code unit. *)
Definition quote_char_ok (c : ascii) : bool :=
  match quote_char c with
  | [c'] =>
      (c' =? c)%char && negb (c =? dquote)%char && negb (c =? bslash)%char
        && negb (N_of_ascii c <? 32)%N
  | [b; e] =>
      (b =? bslash)%char && negb (e =? "u")%char
        && match simple_escape e with
           | Some c' => (c' =? c)%char
           | None => false
           end
  | [b; u; z1; z2; h1; h2] =>
      (b =? bslash)%char && (u =? "u")%char
        && match unicode_escape z1 z2 h1 h2 with
           | Some c' => (c' =? c)%char
           | None => false
           end
  | _ => false
  end.

(** What [JSON.parse] gives back for the text of a value: [undefined]
    inside an array has become [null], a property whose value is
    [undefined] has been left out, an [Error] has no enumerable property. *)
Definition revive_members (revive : jsval -> jsval) :=
  fix members (l : list (string * jsval)) : list (string * jsval) :=
    match l with
    | [] => []
    | (k, x) :: l' =>
        match x with
        | VUndefined => members l'
        | _ => (k, revive x) :: members l'
        end
    end.

Fixpoint revive (v : jsval) : jsval :=
  match v with
  | VUndefined => VNull
  | VError _ _ => VObj []
  | VArr items => VArr (map revive items)
  | VObj props => build_object (revive_members revive props)
  | _ => v
  end.

(** The two inner loops of [serialize], as functions of their own. *)
Fixpoint serialize_elements (gap indent : text) (l : list jsval)
  : outcome (list text) :=
  match l with
  | [] => Returns []
  | x :: l' =>
      do sx <- serialize gap indent x;
      do rest <- serialize_elements gap indent l';
      Returns (default (lit "null") sx :: rest)
  end.

Fixpoint serialize_members (gap indent : text) (l : list (string * jsval))
  : outcome (list text) :=
  match l with
  | [] => Returns []
  | (k, x) :: l' =>
      do sx <- serialize gap indent x;
      do rest <- serialize_members gap indent l';
      Returns (match sx with
               | Some t => member gap k t :: rest
               | None => rest
               end)
  end.

(** Induction on a value, with the hypothesis on every element of an
    array and on every property value of an object. *)
Section jsval_induction.
Variable P : jsval -> Prop.
Hypothesis Hundefined : P VUndefined.
Hypothesis Hnull : P VNull.
Hypothesis Hbool : forall b, P (VBool b).
Hypothesis Hnum : forall n, P (VNum n).
Hypothesis Hbigint : forall n, P (VBigInt n).
Hypothesis Hstr : forall s, P (VStr s).
Hypothesis Harr : forall items, Forall P items -> P (VArr items).
Hypothesis Hobj : forall props, Forall (fun kv => P kv.2) props -> P (VObj props).
Hypothesis Herror : forall stack message, P (VError stack message).

Fixpoint jsval_ind (v : jsval) : P v :=
  match v with
  | VUndefined => Hundefined
  | VNull => Hnull
  | VBool b => Hbool b
  | VNum n => Hnum n
  | VBigInt n => Hbigint n
  | VStr s => Hstr s
  | VArr items =>
      Harr items
        ((fix all (l : list jsval) : Forall P l :=
            match l with
            | [] => @List.Forall_nil _ P
            | x :: l' => @List.Forall_cons _ P x l' (jsval_ind x) (all l')
            end) items)
  | VObj props =>
      Hobj props
        ((fix all (l : list (string * jsval)) : Forall (fun kv => P kv.2) l :=
            match l with
            | [] => @List.Forall_nil _ _
            | kv :: l' => @List.Forall_cons _ _ kv l' (jsval_ind kv.2) (all l')
            end) props)
  | VError stack message => Herror stack message
  end.
End jsval_induction.

(** The first character of an integer literal. *)
Definition number_head (c : ascii) : bool := is_digit c || (c =? "-")%char.

(** Such a character is no white space and opens no other kind of value:
    checked on every code unit. *)
Definition number_head_ok (c : ascii) : bool :=
  implb (number_head c)
    (negb (is_ws c) && negb (c =? "]")%char && negb (c =? "n")%char
     && negb (c =? "t")%char && negb (c =? "f")%char && negb (c =? dquote)%char
     && negb (c =? "[")%char && negb (c =? "{")%char).

(** A run of JSON white space. *)
Definition ws (t : text) : Prop := Forall (fun c => is_ws c = true) t.

(** The fuel a sequence of texts asks for: one unit per text and per
    character. *)
Fixpoint weight (ts : list text) : nat :=
  match ts with
  | [] => 0
  | t :: ts' => S (length t + weight ts')
  end.

(** The text of [x], at any indentation and before anything that is not
    a digit, is read back as [revive x] by a fuel of at least its length. *)
Definition reads_back (x : jsval) : Prop :=
  forall gap indent sx, serialize gap indent x = Returns sx ->
    Forall (fun c => c = " "%char) gap -> Forall (fun c => c = " "%char) indent ->
    forall fuel rest,
      (length (default (lit "null") sx) <= fuel)%nat -> follow_ok rest ->
      parse_value fuel (default (lit "null") sx ++ rest) = Some (revive x, rest).

(** The disk once the directory of a file has been made sure of. *)
Definition ensure_dir (dir : string) (d : disk) : disk :=
  match d !! dir with
  | None => <[dir := Dir]> d
  | Some _ => d
  end.

(** The entries of a parsed document that an append keeps. *)
Definition kept (parsed : jsval) : list jsval :=
  match parsed with
  | VArr items => items
  | _ => []
  end.


(** What [writeJSONFile] does once the directory is there. *)
Definition write_body (filePath : string) (data : jsval) (overwrite : bool)
  : io unit :=
  run replace <- (if overwrite then eff_ret true
                  else run found <- IOF.existsFileSync filePath;
                       eff_ret (negb found));
  run finalData <-
    (if (replace : bool)
     then eff_ret (IOF.as_array data)
     else
       run jsonData <- fs_readFile filePath;
       run parsed <- eff_lift (JSON_parse jsonData);
       eff_ret (kept parsed ++ IOF.as_array data));
  run newJsonData <- eff_lift (JSON_stringify (VArr finalData) 2);
  match newJsonData with
  | Some content => fs_writeFile filePath content
  | None => eff_throw "The data argument must be of type string"
  end.

(** The text of [[{"y":2}]] with an indentation of two. *)
Definition y2_text : string :=
  "[" +:+ nl +:+ "  {" +:+ nl +:+ "    " +:+ dq +:+ "y" +:+ dq +:+ ": 2" +:+ nl
      +:+ "  }" +:+ nl +:+ "]".

(** A disk with a directory, a file whose root is an object and a file
    whose root is an array. *)
Definition sample_disk : disk :=
  {[ "/srv" := Dir;
     "/srv/object.json" := File ("{" +:+ dq +:+ "x" +:+ dq +:+ ":1}");
     "/srv/list.json" := File "[1, 2]" ]}.

(** A digit or a letter from [a] to [f]. *)
Definition is_lower_hex (c : ascii) : bool :=
  let n := N_of_ascii c in
  (((48 <=? n) && (n <=? 57)) || ((97 <=? n) && (n <=? 102)))%N.

(** The twelve public methods: six levels, plain or forced. *)
Inductive method : Type :=
| Msuccess | Merror | Mwarn | Minfo | Mdebug
| Mcustom (opt : custom_options).

(** The level a method logs with. *)
Definition tag (m : method) : string :=
  match m with
  | Msuccess => "SUCCESS"
  | Merror => "ERROR"
  | Mwarn => "WARN"
  | Minfo => "INFO"
  | Mdebug => "DEBUG"
  | Mcustom opt => type opt
  end.

(** [Logger.m(...args)] when [forced] is false, [Logger.pfn.m(...args)]
    when it is true. *)
Definition call (forced : bool) (m : method) (h : host) (showFunctionName : bool)
    (args : list jsval) : eff console LogReturn :=
  match forced, m with
  | false, Msuccess => Logger.success h showFunctionName args
  | false, Merror => Logger.error h showFunctionName args
  | false, Mwarn => Logger.warn h showFunctionName args
  | false, Minfo => Logger.info h showFunctionName args
  | false, Mdebug => Logger.debug h showFunctionName args
  | false, Mcustom opt => Logger.custom h showFunctionName opt args
  | true, Msuccess => Logger.pfn.success h showFunctionName args
  | true, Merror => Logger.pfn.error h showFunctionName args
  | true, Mwarn => Logger.pfn.warn h showFunctionName args
  | true, Minfo => Logger.pfn.info h showFunctionName args
  | true, Mdebug => Logger.pfn.debug h showFunctionName args
  | true, Mcustom opt => Logger.pfn.custom h showFunctionName opt args
  end.

(** The color a method prints its level with. *)
Definition color_of (m : method) : string :=
  match m with
  | Mcustom opt =>
      interpolate (TerminalColors_get (match color opt with
                          | Some c => if String.eqb c "" then "CYAN" else c
                          | None => "CYAN"
                          end))
  | _ => default reset_ (assoc (tag m) Logger.colorMap)
  end.

(** The console function a method writes with. *)
Definition method_of (m : method) : console_method :=
  match m with
  | Mcustom _ => console_log
  | _ => Logger.logMethod (tag m)
  end.

(** The caller tag of the console line. *)
Definition shown_tag (forced showFunctionName : bool) (h : host) : string :=
  if forced || showFunctionName then Logger.getCallerNameForced h else "".

(** A caller tag without its prefix. *)
Definition strip_fn (callerTag : string) : string :=
  match strip_prefix (lit "fn: ") (lit callerTag) with
  | Some name => str name
  | None => callerTag
  end.

(** Values that [JSON.stringify] accepts: no [BigInt] inside. *)
Fixpoint serializable (v : jsval) : bool :=
  match v with
  | VBigInt _ => false
  | VArr items => forallb serializable items
  | VObj props => forallb (fun kv => serializable kv.2) props
  | _ => true
  end.

(** Arguments that the callback of [args.map] accepts: every object is
    serializable; errors and values that are not objects always are. *)
Definition renderable (a : jsval) : bool :=
  instanceofError a || negb (typeof_object a) || serializable a.

(** The host formats the current instant with its six parts. *)
Definition has_date_parts (h : host) : Prop :=
  exists parts,
    formatted h = Returns parts
    /\ forallb (fun part => negb (Time.falsy (Time.collect parts !! part)))
         Time.requiredParts = true.

(** The line V8 prints for a call made inside the function [name]. *)
Definition named_frame (indent : nat) (name location : string) : string :=
  str (repeat " "%char indent) +:+ "at " +:+ name +:+ " (" +:+ location.

(** A host whose forced inspection is made from the function [name]: past
    the two first lines of the stack and the frames that the scan passes
    over comes the frame of [name], a word other than [Object] and
    [Function], on a line that neither filter of the scan sets aside. *)
Definition called_from (h : host) (name : string) : Prop :=
  exists stack first second passed indent location rest,
    stackForced h = Some stack /\ stack <> ""
    /\ lines stack
       = first :: second :: passed ++ named_frame indent name location :: rest
    /\ Forall (fun l => Logger.frame_tag l = None) passed
    /\ forallb is_word (lit name) = true
    /\ name <> "" /\ name <> "Object" /\ name <> "Function"
    /\ Logger.skipped (named_frame indent name location) = false
    /\ includes "at <anonymous>" (named_frame indent name location)
       && negb (match_at_anonymous (named_frame indent name location)) = false.

(** The values that a JSON text denotes: no [undefined], no [BigInt], no
    [Error], and no key twice in an object. *)
Fixpoint is_json (v : jsval) : bool :=
  match v with
  | VUndefined | VBigInt _ | VError _ _ => false
  | VArr items => forallb is_json items
  | VObj props =>
      forallb (fun kv => is_json kv.2) props && bool_decide (NoDup (map fst props))
  | _ => true
  end.


(** The sextet a character of the base64 alphabet stands for. *)
Definition base64_value (c : ascii) : option N :=
  let n := N_of_ascii c in
  if ((65 <=? n) && (n <=? 90))%N then Some (n - 65)%N
  else if ((97 <=? n) && (n <=? 122))%N then Some (n - 71)%N
  else if ((48 <=? n) && (n <=? 57))%N then Some (n + 4)%N
  else if (n =? 43)%N then Some 62%N
  else if (n =? 47)%N then Some 63%N
  else None.

(** The byte of a number below 256. *)
Definition byte_of_N (n : N) : Byte.byte := default Byte.x00 (Byte.of_N n).

(** The decoding of base64 (RFC 4648), as [Buffer.from(text, "base64")]
    does it for a text with its padding: groups of four characters, the
    last one with one or two [=] at its end. *)
Fixpoint base64_decode (s : text) : option (list Byte.byte) :=
  match s with
  | [] => Some []
  | c1 :: c2 :: c3 :: c4 :: rest =>
      match base64_value c1, base64_value c2 with
      | Some v1, Some v2 =>
          let b1 := byte_of_N (v1 * 4 + v2 / 16) in
          if (c4 =? "=")%char then
            match rest with
            | [] =>
                if (c3 =? "=")%char then Some [b1]
                else
                  match base64_value c3 with
                  | Some v3 => Some [b1; byte_of_N ((v2 mod 16) * 16 + v3 / 4)]
                  | None => None
                  end
            | _ :: _ => None
            end
          else
            match base64_value c3, base64_value c4, base64_decode rest with
            | Some v3, Some v4, Some bytes =>
                Some (b1 :: byte_of_N ((v2 mod 16) * 16 + v3 / 4)
                         :: byte_of_N ((v3 mod 4) * 64 + v4) :: bytes)
            | _, _, _ => None
            end
      | _, _ => None
      end
  | _ => None
  end.

(** Every sextet is read back from its character, which is not the
    padding. *)
Definition sextet_ok (n : nat) : bool :=
  match base64_value (base64_char (N.of_nat n)) with
  | Some v => (v =? N.of_nat n)%N && negb (base64_char (N.of_nat n) =? "=")%char
  | None => false
  end.

(** The path at which [saveBufferToFile] writes. *)
Definition save_target (cwd : string) (data : FileType.FileData.t) : string :=
  path_resolve cwd [FileType.FileData.filepath data; FileType.FileData.filename data].

(** The path at which [downloadFile] writes. *)
Definition download_target (data : FileType.FileDownloadRequest.t) : string :=
  path_join [FileType.FileDownloadRequest.saveTo data;
             path_basename (FileType.FileDownloadRequest.fileuri data)].

(** The object [saveBufferToFile] returns for a buffer that is not empty. *)
Definition saved_metadata (cwd : string) (data : FileType.FileData.t)
  : FileType.FileMetadata.t :=
  {| FileType.FileMetadata.filename := FileType.FileData.filename data;
     FileType.FileMetadata.fileuri := save_target cwd data;
     FileType.FileMetadata.filehash :=
       SHA256.hex (SHA256.digest (FileType.FileData.filedata data));
     FileType.FileMetadata.filesize := length (FileType.FileData.filedata data);
     FileType.FileMetadata.mimeType := mimeType (FileType.FileData.filename data);
     FileType.FileMetadata.inlineData :=
       str (base64 (FileType.FileData.filedata data)) |}.

(** A buffer to save below the working directory [/srv]. *)
Definition sample_upload : FileType.FileData.t :=
  {| FileType.FileData.filedata := bytes_of_string "abc";
     FileType.FileData.filename := "a.png";
     FileType.FileData.filepath := "uploads" |}.

(** A buffer whose target is the directory [/srv] itself. *)
Definition misplaced_upload : FileType.FileData.t :=
  {| FileType.FileData.filedata := bytes_of_string "abc";
     FileType.FileData.filename := "";
     FileType.FileData.filepath := "" |}.

(** A request that saves into the directory [/srv]. *)
Definition sample_request : FileType.FileDownloadRequest.t :=
  {| FileType.FileDownloadRequest.fileuri := "https://example.org/media/clip.mp4";
     FileType.FileDownloadRequest.saveTo := "/srv" |}.

(** A lowercase letter. *)
Definition is_lower (c : ascii) : bool :=
  let n := N_of_ascii c in ((97 <=? n) && (n <=? 122))%N.

(** An extension as the table writes them: one to four lowercase letters
    or digits. *)
Definition plain_extension (ext : string) : bool :=
  negb (String.eqb ext "") && (String.length ext <=? 4)%nat
  && forallb (fun c => is_lower c || is_digit c) (lit ext).

(** The value of the last part of the type [name] that the formatter
    gave. *)
Fixpoint last_value (name : string) (parts : list (string * string)) : option string :=
  match parts with
  | [] => None
  | (type, value) :: rest =>
      match last_value name rest with
      | Some later => Some later
      | None => if String.eqb type name then Some value else None
      end
  end.

(** The variables that [envParser] keeps among the [candidates], each
    with its value. *)
Definition kept_variables (env : list (string * string)) (candidates : list string)
  : list (string * string) :=
  omap (fun key =>
          match assoc key env with
          | Some value => if String.eqb value "" then None else Some (key, value)
          | None => None
          end) candidates.

(** A function name as the caller detection reports it: a run of word
    characters that is neither [Object] nor [Function]. *)
Definition reported_name (name : string) : Prop :=
  name <> "" /\ forallb is_word (lit name) = true
  /\ name <> "Object" /\ name <> "Function".

(** * Properties *)

(** ** The models on sample inputs *)

Example stringify_pretty :
  JSON_stringify (VArr [VObj [("a", VNum 1)]; VNull; VArr []]) 2
  = Returns (Some ("[" +:+ nl +:+ "  {" +:+ nl +:+ "    " +:+ dq +:+ "a" +:+ dq
                   +:+ ": 1" +:+ nl +:+ "  }," +:+ nl +:+ "  null," +:+ nl
                   +:+ "  []" +:+ nl +:+ "]")).
Proof. reflexivity. Qed.

Example stringify_compact :
  JSON_stringify (VObj [("a", VNum (-12)); ("u", VUndefined); ("s", VStr "x")]) 0
  = Returns (Some ("{" +:+ dq +:+ "a" +:+ dq +:+ ":-12," +:+ dq +:+ "s" +:+ dq
                   +:+ ":" +:+ dq +:+ "x" +:+ dq +:+ "}")).
Proof. reflexivity. Qed.

Example parse_nested :
  JSON_parse (" [ {" +:+ dq +:+ "a" +:+ dq +:+ " : -10, " +:+ dq +:+ "b\n\u0041"
              +:+ dq +:+ ":[true,null]} , " +:+ dq +:+ dq +:+ "]" +:+ nl)
  = Returns (VArr [VObj [("a", VNum (-10));
                         ("b" +:+ nl +:+ "A", VArr [VBool true; VNull])];
                   VStr ""]).
Proof. vm_compute. reflexivity. Qed.

Example parse_rejects :
  JSON_parse "[1,]" = Throws syntax_error
  /\ JSON_parse "01" = Throws syntax_error
  /\ JSON_parse "{} x" = Throws syntax_error
  /\ JSON_parse "" = Throws syntax_error.
Proof. vm_compute. repeat split. Qed.

Example parse_repeated_key :
  JSON_parse ("{" +:+ dq +:+ "a" +:+ dq +:+ ":1," +:+ dq +:+ "b" +:+ dq +:+ ":2,"
              +:+ dq +:+ "a" +:+ dq +:+ ":3}")
  = Returns (VObj [("a", VNum 3); ("b", VNum 2)]).
Proof. vm_compute. reflexivity. Qed.

Example dirname_examples :
  path_dirname "/tmp/store/data.json" = "/tmp/store"
  /\ path_dirname "data.json" = "."
  /\ path_dirname "/data.json" = "/"
  /\ path_dirname "logs/app/" = "logs"
  /\ path_dirname "a//b" = "a/"
  /\ path_dirname "/" = "/"
  /\ path_dirname "" = ".".
Proof. repeat split. Qed.

Example basename_examples :
  path_basename "/foo/bar/baz/asdf/quux.html" = "quux.html"
  /\ path_basename "https://example.org/media/clip.mp4" = "clip.mp4"
  /\ path_basename "/a/b/" = "b"
  /\ path_basename "name" = "name"
  /\ path_basename "/" = ""
  /\ path_basename "" = "".
Proof. repeat split. Qed.

Example normalize_examples :
  path_normalize "/foo/bar//baz/asdf/quux/.." = "/foo/bar/baz/asdf"
  /\ path_normalize "" = "."
  /\ path_normalize "./" = "./"
  /\ path_normalize "a/.." = "."
  /\ path_normalize "../a/./b/" = "../a/b/"
  /\ path_normalize "a/../.." = ".."
  /\ path_normalize "/.." = "/"
  /\ path_normalize "/a/.../b" = "/a/.../b".
Proof. repeat split. Qed.

Example join_examples :
  path_join ["/foo"; "bar"; "baz/asdf"; "quux"; ".."] = "/foo/bar/baz/asdf"
  /\ path_join ["downloads"; "clip.mp4"] = "downloads/clip.mp4"
  /\ path_join [""; "clip.mp4"] = "clip.mp4"
  /\ path_join ["/srv/"; "/x"] = "/srv/x"
  /\ path_join [""; ""] = ".".
Proof. repeat split. Qed.

Example resolve_examples :
  path_resolve "/home/me" ["/foo/bar"; "./baz"] = "/foo/bar/baz"
  /\ path_resolve "/home/me" ["/foo/bar"; "/tmp/file/"] = "/tmp/file"
  /\ path_resolve "/home/me/node" ["wwwroot"; "static_files/png/"; "../gif/image.gif"]
     = "/home/me/node/wwwroot/static_files/gif/image.gif"
  /\ path_resolve "/home/me" [""; ""] = "/home/me"
  /\ path_resolve "/" ["uploads"; "a.png"] = "/uploads/a.png".
Proof. repeat split. Qed.

Example sha256_abc :
  SHA256.hex (SHA256.digest (bytes_of_string "abc"))
  = "ba7816bf8f01cfea414140de5dae2223b00361a396177a9cb410ff61f20015ad".
Proof. vm_compute. reflexivity. Qed.

Example sha256_empty :
  SHA256.hex (SHA256.digest [])
  = "e3b0c44298fc1c149afbf4c8996fb92427ae41e4649b934ca495991b7852b855".
Proof. vm_compute. reflexivity. Qed.

Example sha256_two_blocks :
  SHA256.hex (SHA256.digest (bytes_of_string
    "abcdbcdecdefdefgefghfghighijhijkijkljklmklmnlmnomnopnopq"))
  = "248d6a61d20638b8e5c026930c3e6039a33ce45964ff2167f6ecedd419db06c1".
Proof. vm_compute. reflexivity. Qed.

Example base64_examples :
  str (base64 (bytes_of_string "")) = ""
  /\ str (base64 (bytes_of_string "f")) = "Zg=="
  /\ str (base64 (bytes_of_string "fo")) = "Zm8="
  /\ str (base64 (bytes_of_string "foo")) = "Zm9v"
  /\ str (base64 (bytes_of_string "foob")) = "Zm9vYg=="
  /\ str (base64 (bytes_of_string "foobar")) = "Zm9vYmFy"
  /\ str (base64 [Byte.xff; Byte.xfe; Byte.xfd]) = "//79".
Proof. vm_compute. repeat split. Qed.

Example mimeType_examples :
  mimeType "photo.jpg" = "image/jpeg"
  /\ mimeType "archive.tar.7z" = "application/x-7z-compressed"
  /\ mimeType "clip.m4r" = "audio/mp4"
  /\ mimeType "notes" = "application/octet-stream"
  /\ mimeType "notes." = "application/octet-stream"
  /\ mimeType "" = "application/octet-stream".
Proof. repeat split. Qed.

Example store_session :
  let d0 : disk := {[ "/tmp" := Dir ]} in
  let d1 := (IOF.writeJSONFile "/tmp/s/a.json" (VArr [VObj [("a", VNum 1)]]) true d0).2 in
  let d2 := (IOF.writeJSONFile "/tmp/s/a.json" (VObj [("a", VNum 2)]) false d1).2 in
  (IOF.readJSONFile "/tmp/s/a.json" d2).1
  = Returns [VObj [("a", VNum 1)]; VObj [("a", VNum 2)]].
Proof. vm_compute. reflexivity. Qed.

Example logFormat_sample :
  Time.getTimeToLogFormat (Returns sample_parts) = Returns "02/11/2026:09:05:59".
Proof. vm_compute. reflexivity. Qed.

Example pfn_info_sample :
  Logger.pfn.info (sample_host "loadConfig") false [VStr "hello"] []
  = (Returns {| pfn := "loadConfig"; timestamp := "02/11/2026:09:05:59";
                message := VStr "hello"; level := "INFO" |},
     [(console_info,
       dim_ +:+ "[02/11/2026:09:05:59]" +:+ reset_ +:+ " " +:+ esc "34"
         +:+ "[INFO]" +:+ reset_ +:+ " fn: loadConfig: hello")]).
Proof. vm_compute. reflexivity. Qed.

Example info_sample :
  Logger.info (sample_host "loadConfig") false
    [VStr "a"; VObj [("k", VArr [VNum 1; VNull])]; VError None "boom"] []
  = (Returns {| pfn := "loadConfig"; timestamp := "02/11/2026:09:05:59";
                message := VArr [VStr "a"; VObj [("k", VArr [VNum 1; VNull])];
                                 VError None "boom"];
                level := "INFO" |},
     [(console_info,
       dim_ +:+ "[02/11/2026:09:05:59]" +:+ reset_ +:+ " " +:+ esc "34"
         +:+ "[INFO]" +:+ reset_ +:+ " : a {" +:+ dq +:+ "k" +:+ dq
         +:+ ":[1,null]} boom")]).
Proof. vm_compute. reflexivity. Qed.

Example completer_examples :
  Terminal.completer "e" = (["exit"], "e")
  /\ Terminal.completer "" = (["help"; "exit"; "clear"], "")
  /\ Terminal.completer "x" = (["help"; "exit"; "clear"], "x").
Proof. vm_compute. repeat split. Qed.

Example envParser_example :
  Terminal.envParser
    [("PATH", "/bin"); ("APP_KEY", "k1"); ("APP_EMPTY", ""); ("APP_URL", "u")] "APP_"
  = {| Terminal.keys := ["APP_KEY"; "APP_URL"]; Terminal.values := ["k1"; "u"] |}.
Proof. vm_compute. reflexivity. Qed.

(** ** Facts about text *)

Lemma str_lit (s : string) : str (lit s) = s.
Proof. apply String.string_of_list_ascii_of_string. Qed.

Lemma lit_str (t : text) : lit (str t) = t.
Proof. apply String.list_ascii_of_string_of_list_ascii. Qed.

Lemma lit_app (a b : string) : lit (a +:+ b) = lit a ++ lit b.
Proof. induction a as [|c a IH]; simpl; [done | by rewrite IH]. Qed.

Lemma length_lit (s : string) : length (lit s) = String.length s.
Proof. induction s; simpl; congruence. Qed.

Lemma span_app (p : ascii -> bool) (a rest : text) :
  Forall (fun c => p c = true) a ->
  match rest with [] => True | c :: _ => p c = false end ->
  span p (a ++ rest) = (a, rest).
Proof.
  intros Ha Hrest. induction Ha as [|c a Hc _ IH]; simpl.
  - destruct rest as [|c rest]; simpl; [done|]. by rewrite Hrest.
  - by rewrite Hc, IH.
Qed.

Lemma skip_ws_app (w s : text) :
  Forall (fun c => is_ws c = true) w -> skip_ws (w ++ s) = skip_ws s.
Proof. induction 1 as [|c w Hc _ IH]; simpl; [done | by rewrite Hc]. Qed.

Lemma strip_prefix_app (p s : text) : strip_prefix p (p ++ s) = Some s.
Proof.
  induction p as [|c p IH]; simpl; [done|]. by rewrite Ascii.eqb_refl.
Qed.

(** ** JSON: integer literals *)

Lemma string_of_uint_digits (u : Decimal.uint) :
  Forall (fun c => is_digit c = true) (lit (NilEmpty.string_of_uint u)).
Proof. induction u; simpl; constructor; done. Qed.

Lemma digits_of_N_digits (n : N) :
  Forall (fun c => is_digit c = true) (digits_of_N n).
Proof. apply string_of_uint_digits. Qed.

Lemma to_uint_normal (n : N) :
  N.to_uint n = Decimal.D0 Decimal.Nil
  \/ (N.to_uint n <> Decimal.Nil /\ forall u, N.to_uint n <> Decimal.D0 u).
Proof.
  pose proof (DecimalN.Unsigned.to_of (N.to_uint n)) as H.
  rewrite DecimalN.Unsigned.of_to in H.
  unfold Decimal.unorm in H.
  pose proof (nzhead_nonzero (N.to_uint n)) as Hnz.
  destruct (Decimal.nzhead (N.to_uint n)) eqn:E;
    try (by left);
    try (by destruct (Hnz u));
    right; rewrite H; (split; [done | intros u'; done]).
Qed.

Lemma digits_of_N_cons (n : N) :
  exists d ds, digits_of_N n = d :: ds /\ is_digit d = true
    /\ ((d =? "0")%char && negb (length ds =? 0)%nat = false).
Proof.
  pose proof (digits_of_N_digits n) as Hd. unfold digits_of_N in *.
  destruct (to_uint_normal n) as [H0|[Hnil Hnz]].
  - rewrite H0. by exists "0"%char, [].
  - destruct (N.to_uint n) as [|u|u|u|u|u|u|u|u|u|u] eqn:E; try done;
      try (by specialize (Hnz u));
      simpl in *; eexists _, _; (split; [reflexivity | split; done]).
Qed.

Lemma is_digit_not_minus (c : ascii) : is_digit c = true -> (c =? "-")%char = false.
Proof. intros H. destruct (Ascii.eqb_spec c "-"); [by subst | done]. Qed.

Lemma parse_number_digits (n : N) (rest : text) :
  follow_ok rest ->
  parse_number (digits_of_N n ++ rest) = Some (Z.of_N n, rest).
Proof.
  intros Hrest. unfold parse_number.
  destruct (digits_of_N_cons n) as (d & ds & E & Hd & Hz).
  pose proof (digits_of_N_digits n) as Hall.
  rewrite E in Hall |- *. cbn [app]. cbv beta iota.
  rewrite (is_digit_not_minus d Hd).
  change (d :: ds ++ rest) with ((d :: ds) ++ rest).
  rewrite span_app by done. rewrite Hz.
  rewrite <- E. unfold digits_of_N. rewrite str_lit, NilEmpty.usu.
  by rewrite DecimalN.Unsigned.of_to.
Qed.

Lemma parse_number_decimal (z : Z) (rest : text) :
  follow_ok rest -> parse_number (decimal z ++ rest) = Some (z, rest).
Proof.
  intros Hrest. destruct z as [|p|p]; unfold decimal.
  - apply (parse_number_digits 0 rest Hrest).
  - apply (parse_number_digits (Npos p) rest Hrest).
  - pose proof (parse_number_digits (Npos p) rest Hrest) as H.
    unfold parse_number in *.
    destruct (digits_of_N_cons (N.pos p)) as (d & ds & E & Hd & Hz).
    rewrite E in H |- *. cbn [app] in *. cbv beta iota in H.
    rewrite (is_digit_not_minus d Hd) in H.
    change ("-" =? "-")%char with true. cbv beta iota.
    destruct (span is_digit (d :: ds ++ rest)) as [ds1 r].
    destruct ds1 as [|d1 ds1']; [done|].
    destruct ((d1 =? "0")%char && negb (length ds1' =? 0)%nat); [done|].
    destruct (NilEmpty.uint_of_string (str (d1 :: ds1'))); [|done].
    inversion H as [[H1 H2]]. by rewrite H1.
Qed.

(** ** JSON: string literals *)

Lemma quote_char_ok_all (c : ascii) : quote_char_ok c = true.
Proof. destruct c as [[] [] [] [] [] [] [] []]; vm_compute; reflexivity. Qed.

Lemma parse_chars_quote_char (c : ascii) (tail cs r : text) :
  parse_chars tail = Some (cs, r) ->
  parse_chars (quote_char c ++ tail) = Some (c :: cs, r).
Proof.
  intros H. pose proof (quote_char_ok_all c) as Hok. unfold quote_char_ok in Hok.
  destruct (quote_char c) as [|a [|b [|x1 [|x2 [|x3 [|x4 [|x5 l]]]]]]]; try done.
  - repeat (apply andb_prop in Hok as [Hok ?]).
    apply Ascii.eqb_eq in Hok as ->.
    simpl. repeat match goal with
           | H : negb _ = true |- _ => apply negb_true_iff in H; rewrite H
           end.
    by rewrite H.
  - repeat (apply andb_prop in Hok as [Hok ?]).
    apply Ascii.eqb_eq in Hok as ->.
    destruct (simple_escape b) as [c'|] eqn:E; [|done].
    match goal with H : (c' =? c)%char = true |- _ => apply Ascii.eqb_eq in H as -> end.
    match goal with H : negb _ = true |- _ => apply negb_true_iff in H end.
    simpl. change (bslash =? dquote)%char with false.
    change (bslash =? bslash)%char with true. cbv iota.
    match goal with H : (b =? "u")%char = false |- _ => rewrite H end.
    by rewrite E, H.
  - repeat (apply andb_prop in Hok as [Hok ?]).
    apply Ascii.eqb_eq in Hok as ->.
    match goal with H : (b =? "u")%char = true |- _ => apply Ascii.eqb_eq in H as -> end.
    destruct (unicode_escape x1 x2 x3 x4) as [c'|] eqn:E; [|done].
    match goal with H : (c' =? c)%char = true |- _ => apply Ascii.eqb_eq in H as -> end.
    simpl. change (bslash =? dquote)%char with false.
    change (bslash =? bslash)%char with true. cbv iota.
    by rewrite E, H.
Qed.

Lemma parse_chars_quote (cs rest : text) :
  parse_chars (flat_map quote_char cs ++ dquote :: rest) = Some (cs, rest).
Proof.
  induction cs as [|c cs IH]; [done|].
  cbn [flat_map]. rewrite <- app_assoc. by apply parse_chars_quote_char.
Qed.

(** ** JSON: the two inner loops of [serialize] *)

Lemma serialize_VArr gap indent items :
  serialize gap indent (VArr items)
  = do partial <- serialize_elements gap (indent ++ gap) items;
    Returns (Some (wrap "[" "]" gap indent partial)).
Proof.
  simpl. f_equal. induction items as [|x l IH]; simpl; [done|]. by rewrite IH.
Qed.

Lemma serialize_VObj gap indent props :
  serialize gap indent (VObj props)
  = do partial <- serialize_members gap (indent ++ gap) props;
    Returns (Some (wrap "{" "}" gap indent partial)).
Proof.
  simpl. f_equal. induction props as [|[k x] l IH]; simpl; [done|]. by rewrite IH.
Qed.

(** ** JSON: reading back the text of a value *)

Lemma number_head_ok_all (c : ascii) : number_head_ok c = true.
Proof. destruct c as [[] [] [] [] [] [] [] []]; vm_compute; reflexivity. Qed.

Lemma is_ws_not_digit (c : ascii) : is_ws c = true -> is_digit c = false.
Proof. destruct c as [[] [] [] [] [] [] [] []]; vm_compute; congruence. Qed.

Lemma decimal_head (z : Z) :
  exists c t, decimal z = c :: t /\ number_head c = true.
Proof.
  destruct z as [|p|p]; unfold decimal.
  - by exists "0"%char, [].
  - destruct (digits_of_N_cons (N.pos p)) as (d & ds & E & Hd & _).
    exists d, ds. split; [done|]. unfold number_head. by rewrite Hd.
  - by eexists _, _.
Qed.

Lemma parse_value_skip (fuel : nat) (w s : text) :
  ws w -> parse_value fuel (w ++ s) = parse_value fuel s.
Proof.
  intros Hw. destruct fuel as [|fuel]; [done|].
  simpl. by rewrite (skip_ws_app w s Hw).
Qed.

Lemma parse_value_number (fuel : nat) (z : Z) (rest : text) :
  follow_ok rest ->
  parse_value (S fuel) (decimal z ++ rest) = Some (VNum z, rest).
Proof.
  intros Hrest. pose proof (parse_number_decimal z rest Hrest) as Hn.
  destruct (decimal_head z) as (c & t & E & Hc). rewrite E in Hn |- *.
  pose proof (number_head_ok_all c) as Hok. unfold number_head_ok in Hok.
  rewrite Hc in Hok. simpl in Hok.
  repeat (apply andb_prop in Hok as [Hok ?]).
  repeat match goal with
         | H : negb _ = true |- _ => apply negb_true_iff in H
         end.
  cbn [app] in *. cbn [parse_value skip_ws].
  repeat match goal with
         | H : _ = false |- _ => rewrite H
         end.
  by rewrite Hn.
Qed.

Lemma parse_value_string (fuel : nat) (s : string) (rest : text) :
  parse_value (S fuel) (quote s ++ rest) = Some (VStr s, rest).
Proof.
  unfold quote. cbn [app]. rewrite <- app_assoc. cbn [app].
  cbn [parse_value skip_ws]. change (is_ws dquote) with false. cbv iota.
  change (dquote =? "n")%char with false. change (dquote =? "t")%char with false.
  change (dquote =? "f")%char with false. change (dquote =? dquote)%char with true.
  cbv iota. by rewrite parse_chars_quote, str_lit.
Qed.

Lemma follow_ok_ws_then (w : text) (c : ascii) (rest : text) :
  ws w -> is_digit c = false -> follow_ok (w ++ c :: rest).
Proof.
  intros Hw Hc. destruct Hw as [|d w Hd _]; simpl; [done|].
  by apply is_ws_not_digit.
Qed.

Lemma weight_join (sep : text) (ts : list text) :
  sep <> [] -> (weight ts <= S (length (join sep ts)))%nat.
Proof.
  intros Hsep. induction ts as [|t [|t' ts] IH]; simpl in *; [lia | lia |].
  rewrite !length_app in *. destruct sep; [done|]. simpl in *. lia.
Qed.

Lemma spaces_ws (t : text) : Forall (fun c => c = " "%char) t -> ws t.
Proof. intros H. eapply Forall_impl; [exact H|]. by intros c ->. Qed.

Lemma join_cons (sep t t' : text) (ts : list text) :
  join sep (t :: t' :: ts) = t ++ sep ++ join sep (t' :: ts).
Proof. reflexivity. Qed.

Lemma Returns_inj {A : Type} (a b : A) : Returns a = Returns b -> a = b.
Proof. congruence. Qed.

Lemma parse_elements_join (items : list jsval) :
  Forall reads_back items ->
  forall gap indent partial,
    serialize_elements gap indent items = Returns partial ->
    Forall (fun c => c = " "%char) gap -> Forall (fun c => c = " "%char) indent ->
    items <> [] ->
    forall wsep post w fuel rest,
      ws wsep -> ws post -> ws w -> (weight partial <= fuel)%nat ->
      parse_elements fuel
        (w ++ join (","%char :: wsep) partial ++ post ++ "]"%char :: rest)
      = Some (map revive items, rest).
Proof.
  induction 1 as [|x l Hx _ IH]; [done|].
  intros gap indent partial Hser Hgap Hind _ wsep post w fuel rest Hwsep Hpost Hw Hfuel.
  cbn [serialize_elements] in Hser.
  destruct (serialize gap indent x) as [sx|] eqn:Ex; [|done].
  cbn [bind] in Hser.
  destruct (serialize_elements gap indent l) as [more|] eqn:El; [|done].
  cbn [bind] in Hser. apply Returns_inj in Hser. subst partial.
  destruct fuel as [|fuel]; [cbn [weight] in Hfuel; lia|].
  cbn [weight] in Hfuel. cbn [parse_elements]. rewrite parse_value_skip by done.
  destruct l as [|y l'].
  - cbn [serialize_elements] in El. apply Returns_inj in El. subst more. cbn [join].
    rewrite (Hx gap indent sx Ex Hgap Hind fuel (post ++ "]"%char :: rest));
      [|lia|by apply follow_ok_ws_then].
    rewrite skip_ws_app by done. done.
  - destruct more as [|t' more'].
    { cbn [serialize_elements] in El.
      destruct (serialize gap indent y); [|done]. cbn [bind] in El.
      destruct (serialize_elements gap indent l'); done. }
    rewrite join_cons. rewrite <- !app_assoc. cbn [app].
    rewrite (Hx gap indent sx Ex Hgap Hind fuel); [|lia|done].
    cbn [skip_ws]. change (is_ws ",") with false. cbv iota.
    change ("," =? ",")%char with true. cbv iota.
    specialize (IH gap indent (t' :: more') El Hgap Hind ltac:(done)
                  wsep post wsep fuel rest Hwsep Hpost Hwsep).
    rewrite IH; [done|]. cbn [weight] in *. lia.
Qed.

Lemma serialize_None (gap indent : text) (x : jsval) :
  serialize gap indent x = Returns None -> x = VUndefined.
Proof.
  destruct x as [| |[]| | | |items|props| ]; try done.
  - rewrite serialize_VArr.
    by destruct (serialize_elements gap (indent ++ gap) items).
  - rewrite serialize_VObj.
    by destruct (serialize_members gap (indent ++ gap) props).
Qed.

Lemma revive_members_cons (k : string) (x : jsval) (l : list (string * jsval)) :
  x <> VUndefined ->
  revive_members revive ((k, x) :: l) = (k, revive x) :: revive_members revive l.
Proof. by destruct x. Qed.

Lemma serialize_members_nil (gap indent : text) (l : list (string * jsval)) :
  serialize_members gap indent l = Returns [] -> revive_members revive l = [].
Proof.
  induction l as [|[k x] l IH]; [done|]. cbn [serialize_members].
  destruct (serialize gap indent x) as [[t|]|] eqn:Ex; cbn [bind]; [| |done].
  - by destruct (serialize_members gap indent l).
  - apply serialize_None in Ex as ->.
    destruct (serialize_members gap indent l) as [more|]; [|done].
    cbn [bind]. intros H. apply Returns_inj in H. subst more. by apply IH.
Qed.

Ltac chars :=
  cbn [app skip_ws is_ws dquote bslash negb Ascii.eqb Bool.eqb andb].

Lemma parse_members_join (props : list (string * jsval)) :
  Forall (fun kv => reads_back kv.2) props ->
  forall gap indent partial,
    serialize_members gap indent props = Returns partial ->
    Forall (fun c => c = " "%char) gap -> Forall (fun c => c = " "%char) indent ->
    partial <> [] ->
    forall wsep post w fuel rest,
      ws wsep -> ws post -> ws w -> (weight partial <= fuel)%nat ->
      parse_members fuel
        (w ++ join (","%char :: wsep) partial ++ post ++ "}"%char :: rest)
      = Some (revive_members revive props, rest).
Proof.
  induction 1 as [|[k x] l Hx _ IH]; [by intros ??? [= <-]|].
  intros gap indent partial Hser Hgap Hind Hne wsep post w fuel rest
    Hwsep Hpost Hw Hfuel.
  cbn [serialize_members] in Hser. cbn [snd] in Hx.
  destruct (serialize gap indent x) as [sx|] eqn:Ex; [|done].
  cbn [bind] in Hser.
  destruct (serialize_members gap indent l) as [more|] eqn:El; [|done].
  cbn [bind] in Hser. apply Returns_inj in Hser.
  destruct sx as [t|].
  2:{ apply serialize_None in Ex as ->. subst partial.
      by apply (IH gap indent more). }
  assert (x <> VUndefined) as Hdef by (intros ->; done).
  rewrite (revive_members_cons k x l Hdef). subst partial.
  destruct fuel as [|fuel]; [cbn [weight] in Hfuel; lia|].
  cbn [weight] in Hfuel.
  assert (length t + 3 <= length (member gap k t))%nat as Hlen.
  { unfold member, quote. cbn [app length]. rewrite !length_app. cbn [length].
    destruct gap; cbn [length]; lia. }
  cbn [parse_members]. rewrite skip_ws_app by done.
  assert (Hvalue : forall tail, follow_ok tail ->
            parse_value fuel (match gap with [] => t | _ => " "%char :: t end ++ tail)
            = Some (revive x, tail)).
  { intros tail Htail.
    pose proof (Hx gap indent (Some t) Ex Hgap Hind fuel tail ltac:(cbn; lia) Htail)
      as Hv. cbn in Hv.
    destruct gap; [done|].
    change (" "%char :: t) with ([" "%char] ++ t). rewrite <- app_assoc.
    rewrite parse_value_skip; [done|]. by repeat constructor. }
  destruct more as [|t' more'].
  - cbn [join]. unfold member at 1, quote. cbn [app]. rewrite <- !app_assoc.
    chars. rewrite parse_chars_quote. chars.
    rewrite Hvalue by (by apply follow_ok_ws_then).
    rewrite skip_ws_app by done. chars.
    by rewrite str_lit, (serialize_members_nil gap indent l El).
  - rewrite join_cons. unfold member at 1, quote. cbn [app]. rewrite <- !app_assoc.
    chars. rewrite parse_chars_quote. chars.
    rewrite Hvalue by done. chars. rewrite <- ?app_assoc.
    rewrite (IH gap indent (t' :: more') El Hgap Hind ltac:(done)
               wsep post wsep fuel rest Hwsep Hpost Hwsep);
      [by rewrite str_lit|]. cbn [weight] in *. lia.
Qed.

Lemma serialize_head (v : jsval) (gap indent : text) (sx : option text) :
  serialize gap indent v = Returns sx ->
  exists c t, default (lit "null") sx = c :: t
              /\ is_ws c = false /\ (c =? "]")%char = false.
Proof.
  destruct v as [| |[]|n| |s|items|props| ]; try done;
    try (intros H; apply Returns_inj in H; subst sx; by eexists _, _).
  - intros H; apply Returns_inj in H; subst sx. cbn [default from_option id].
    destruct (decimal_head n) as (c & t & E & Hc). exists c, t.
    pose proof (number_head_ok_all c) as Hok. unfold number_head_ok in Hok.
    rewrite Hc in Hok. cbn [implb] in Hok.
    repeat (apply andb_prop in Hok as [Hok ?]).
    repeat match goal with
           | H : negb _ = true |- _ => apply negb_true_iff in H
           end.
    done.
  - rewrite serialize_VArr.
    destruct (serialize_elements gap (indent ++ gap) items) as [partial|]; [|done].
    intros H; apply Returns_inj in H; subst sx.
    destruct partial, gap; by eexists _, _.
  - rewrite serialize_VObj.
    destruct (serialize_members gap (indent ++ gap) props) as [partial|]; [|done].
    intros H; apply Returns_inj in H; subst sx.
    destruct partial, gap; by eexists _, _.
Qed.

Lemma parse_value_array (fuel : nat) (pre : text) (c : ascii) (tail : text) :
  ws pre -> is_ws c = false -> (c =? "]")%char = false ->
  parse_value (S fuel) ("["%char :: pre ++ c :: tail)
  = match parse_elements fuel (c :: tail) with
    | Some (vs, r') => Some (VArr vs, r')
    | None => None
    end.
Proof.
  intros Hpre Hc1 Hc2. cbn [parse_value]. chars.
  rewrite skip_ws_app by done. cbn [skip_ws]. by rewrite Hc1, Hc2.
Qed.

Lemma parse_value_object (fuel : nat) (pre tail : text) :
  ws pre ->
  parse_value (S fuel) ("{"%char :: pre ++ dquote :: tail)
  = match parse_members fuel (dquote :: tail) with
    | Some (ms, r') => Some (build_object ms, r')
    | None => None
    end.
Proof.
  intros Hpre. cbn [parse_value]. chars.
  rewrite skip_ws_app by done. by chars.
Qed.

Lemma serialize_elements_nil (gap indent : text) (items : list jsval) :
  serialize_elements gap indent items = Returns [] -> items = [].
Proof.
  destruct items as [|x l]; [done|]. cbn [serialize_elements].
  destruct (serialize gap indent x); [|done]. cbn [bind].
  by destruct (serialize_elements gap indent l).
Qed.

Lemma length_wrap_join (o c : ascii) (gap stepback : text) (t : text)
    (ts : list text) :
  (weight (t :: ts) < length (wrap o c gap stepback (t :: ts)))%nat.
Proof.
  unfold wrap. destruct gap as [|g gap].
  - pose proof (weight_join (lit ",") (t :: ts) ltac:(done)).
    cbn [length]. rewrite length_app. cbn [length]. lia.
  - pose proof (weight_join (","%char :: newline :: stepback ++ g :: gap)
                  (t :: ts) ltac:(done)).
    cbn [length]. rewrite !length_app. cbn [length]. rewrite !length_app. lia.
Qed.

Theorem reads_back_all (v : jsval) : reads_back v.
Proof.
  induction v as [| |b|n|n|s|items IH|props IH|stack message] using jsval_ind;
    intros gap indent sx Hser Hgap Hind fuel rest Hfuel Hrest.
  - apply Returns_inj in Hser. subst sx.
    destruct fuel; [cbn in Hfuel; lia | reflexivity].
  - apply Returns_inj in Hser. subst sx.
    destruct fuel; [cbn in Hfuel; lia | reflexivity].
  - destruct b; apply Returns_inj in Hser; subst sx;
      (destruct fuel; [cbn in Hfuel; lia | reflexivity]).
  - apply Returns_inj in Hser. subst sx. cbn [default from_option id] in *.
    destruct fuel; [|by apply parse_value_number].
    destruct (decimal_head n) as (c & t & E & _). rewrite E in Hfuel.
    cbn in Hfuel. lia.
  - done.
  - apply Returns_inj in Hser. subst sx. cbn [default from_option id] in *.
    destruct fuel; [|by apply parse_value_string].
    unfold quote in Hfuel. cbn in Hfuel. lia.
  - rewrite serialize_VArr in Hser.
    destruct (serialize_elements gap (indent ++ gap) items) as [partial|] eqn:E;
      [|done].
    cbn [bind] in Hser. apply Returns_inj in Hser. subst sx.
    cbn [default from_option id] in *.
    destruct partial as [|t ts].
    { apply serialize_elements_nil in E as ->.
      destruct fuel; [cbn in Hfuel; lia | reflexivity]. }
    pose proof (length_wrap_join "[" "]" gap indent t ts) as Hw.
    destruct fuel as [|fuel]; [lia|].
    assert (items <> []) as Hne by (intros ->; done).
    assert (Forall (fun c => c = " "%char) (indent ++ gap)) as Hind'
      by (by apply Forall_app).
    assert (exists c tail, forall sep X, join sep (t :: ts) ++ X = c :: tail sep X
              /\ is_ws c = false /\ (c =? "]")%char = false)
      as (c & tail & Hhead).
    { destruct items as [|x l]; [done|]. cbn [serialize_elements] in E.
      destruct (serialize gap (indent ++ gap) x) as [sx|] eqn:Ex; [|done].
      cbn [bind] in E.
      destruct (serialize_elements gap (indent ++ gap) l); [|done].
      cbn [bind] in E. apply Returns_inj in E.
      destruct (serialize_head x _ _ _ Ex) as (c & t0 & Et & H1 & H2).
      assert (t = default (lit "null") sx) as -> by congruence. rewrite Et.
      exists c, (fun sep X => (match ts with [] => t0
                              | _ => t0 ++ sep ++ join sep ts end) ++ X).
      intros sep X. split; [|done]. by destruct ts. }
    unfold wrap. destruct gap as [|g gap'].
    + cbn [app]. rewrite <- app_assoc. cbn [app].
      change (lit ",") with [","%char].
      destruct (Hhead [","%char] ("]"%char :: rest)) as (Hj & H1 & H2).
      pose proof (parse_value_array fuel [] c (tail [","%char] ("]"%char :: rest))
                    ltac:(constructor) H1 H2) as Hp.
      cbn [app] in Hp. rewrite <- Hj in Hp. rewrite Hp.
      pose proof (parse_elements_join items IH [] (indent ++ []) (t :: ts) E
                    Hgap Hind' Hne [] [] [] fuel rest
                    ltac:(constructor) ltac:(constructor) ltac:(constructor)
                    ltac:(lia)) as He.
      cbn [app] in He. by rewrite He.
    + set (indent' := indent ++ g :: gap') in *.
      cbn [app]. rewrite <- !app_assoc. cbn [app]. rewrite <- !app_assoc.
      cbn [app].
      set (sep := ","%char :: newline :: indent').
      destruct (Hhead sep (newline :: indent ++ "]"%char :: rest)) as (Hj & H1 & H2).
      assert (ws (newline :: indent')) as Hpre.
      { constructor; [done|]. by apply spaces_ws. }
      assert (ws (newline :: indent)) as Hpost.
      { constructor; [done|]. by apply spaces_ws. }
      pose proof (parse_value_array fuel (newline :: indent') c
                    (tail sep (newline :: indent ++ "]"%char :: rest))
                    Hpre H1 H2) as Hp.
      cbn [app] in Hp. rewrite <- Hj in Hp. rewrite Hp.
      pose proof (parse_elements_join items IH (g :: gap') indent' (t :: ts) E
                    Hgap Hind' Hne (newline :: indent') (newline :: indent) []
                    fuel rest Hpre Hpost ltac:(constructor) ltac:(lia)) as He.
      cbn [app] in He. fold sep in He. by rewrite He.
  - rewrite serialize_VObj in Hser.
    destruct (serialize_members gap (indent ++ gap) props) as [partial|] eqn:E;
      [|done].
    cbn [bind] in Hser. apply Returns_inj in Hser. subst sx.
    cbn [default from_option id] in *. cbn [revive].
    destruct partial as [|t ts].
    { rewrite (serialize_members_nil _ _ _ E).
      destruct fuel; [cbn in Hfuel; lia | reflexivity]. }
    pose proof (length_wrap_join "{" "}" gap indent t ts) as Hw.
    destruct fuel as [|fuel]; [lia|].
    assert (Forall (fun c => c = " "%char) (indent ++ gap)) as Hind'
      by (by apply Forall_app).
    assert (exists tail, forall sep X,
              join sep (t :: ts) ++ X = dquote :: tail sep X)
      as (tail & Hhead).
    { assert (exists t0, t = dquote :: t0) as (t0 & ->).
      { clear -E. revert t ts E. generalize (indent ++ gap) as ind.
        induction props as [|[k x] l IHl]; intros ind t ts E; [done|].
        cbn [serialize_members] in E.
        destruct (serialize gap ind x) as [[tx|]|]; [| |done]; cbn [bind] in E;
          (destruct (serialize_members gap ind l) as [more|] eqn:El; [|done]);
          cbn [bind] in E; apply Returns_inj in E.
        - injection E as <- <-. by eexists.
        - subst more. by eapply IHl. }
      exists (fun sep X => (match ts with [] => t0
                            | _ => t0 ++ sep ++ join sep ts end) ++ X).
      intros sep X. by destruct ts. }
    unfold wrap. destruct gap as [|g gap'].
    + cbn [app]. rewrite <- app_assoc. cbn [app].
      change (lit ",") with [","%char].
      pose proof (Hhead [","%char] ("}"%char :: rest)) as Hj.
      pose proof (parse_value_object fuel [] (tail [","%char] ("}"%char :: rest))
                    ltac:(constructor)) as Hp.
      cbn [app] in Hp. rewrite <- Hj in Hp. rewrite Hp.
      pose proof (parse_members_join props IH [] (indent ++ []) (t :: ts) E
                    Hgap Hind' ltac:(done) [] [] [] fuel rest
                    ltac:(constructor) ltac:(constructor) ltac:(constructor)
                    ltac:(lia)) as He.
      cbn [app] in He. by rewrite He.
    + set (indent' := indent ++ g :: gap') in *.
      cbn [app]. rewrite <- !app_assoc. cbn [app]. rewrite <- !app_assoc.
      cbn [app].
      set (sep := ","%char :: newline :: indent').
      pose proof (Hhead sep (newline :: indent ++ "}"%char :: rest)) as Hj.
      assert (ws (newline :: indent')) as Hpre.
      { constructor; [done|]. by apply spaces_ws. }
      assert (ws (newline :: indent)) as Hpost.
      { constructor; [done|]. by apply spaces_ws. }
      pose proof (parse_value_object fuel (newline :: indent')
                    (tail sep (newline :: indent ++ "}"%char :: rest)) Hpre) as Hp.
      cbn [app] in Hp. rewrite <- Hj in Hp. rewrite Hp.
      pose proof (parse_members_join props IH (g :: gap') indent' (t :: ts) E
                    Hgap Hind' ltac:(done) (newline :: indent') (newline :: indent) []
                    fuel rest Hpre Hpost ltac:(constructor) ltac:(lia)) as He.
      cbn [app] in He. fold sep in He. by rewrite He.
  - apply Returns_inj in Hser. subst sx.
    destruct fuel; [cbn in Hfuel; lia | reflexivity].
Qed.

Lemma spaces_repeat (n : nat) : Forall (fun c => c = " "%char) (repeat " "%char n).
Proof. induction n; cbn; by constructor. Qed.

(** [JSON.parse] reads back what [JSON.stringify] wrote. *)
Theorem JSON_parse_stringify (v : jsval) (space : nat) (s : string) :
  JSON_stringify v space = Returns (Some s) -> JSON_parse s = Returns (revive v).
Proof.
  unfold JSON_stringify, JSON_parse. intros H.
  destruct (serialize (repeat " "%char (space `min` 10)) [] v) as [[t|]|] eqn:E;
    try done.
  cbn [bind fmap option_fmap option_map] in H. apply Returns_inj in H.
  injection H as <-. rewrite lit_str.
  pose proof (reads_back_all v _ _ _ E) as Hv.
  specialize (Hv (spaces_repeat _) ltac:(constructor)
                 (2 * length t + 2)%nat [] ltac:(cbn; lia) I).
  cbn [default from_option id] in Hv. rewrite app_nil_r in Hv.
  by rewrite Hv.
Qed.

Corollary stringify_array_parses (items : list jsval) (space : nat) (s : string) :
  JSON_stringify (VArr items) space = Returns (Some s) ->
  JSON_parse s = Returns (VArr (map revive items)).
Proof. apply JSON_parse_stringify. Qed.

(** ** The JSON store *)

Lemma path_dirname_nonempty (p : string) : path_dirname p <> "".
Proof.
  unfold path_dirname. destruct (lit p) as [|c0 tail]; [done|].
  destruct (span _ _).2 as [|x kept']; [by destruct (is_slash c0)|].
  destruct kept'; [by destruct (is_slash c0)|done].
Qed.

Lemma eqb_nonempty (p : string) : p <> "" -> String.eqb p "" = false.
Proof. intros H. by apply String.eqb_neq. Qed.

Lemma existsFileSync_run (p : string) (d : disk) :
  IOF.existsFileSync p d
  = (Returns (negb (String.eqb p "") && bool_decide (is_Some (d !! p))), d).
Proof. reflexivity. Qed.

Lemma mkdir_absent (dir : string) (d : disk) :
  dir <> "" -> d !! dir = None -> IOF.mkdir dir d = (Returns tt, ensure_dir dir d).
Proof.
  intros Hne Habs. unfold IOF.mkdir, eff_catch, eff_bind, ensure_dir.
  rewrite existsFileSync_run, Habs, (eqb_nonempty dir Hne). cbn.
  unfold fs_mkdirSync. by rewrite (eqb_nonempty dir Hne), Habs.
Qed.

(** The two first steps of [writeJSONFile] leave the directory in place
    and never throw. *)
Lemma directory_step {A : Type} (p : string) (k : eff disk A) (d : disk) :
  (run dirExists <- IOF.existsFileSync (path_dirname p);
   run _ <- (if negb dirExists then IOF.mkdir (path_dirname p) else eff_ret tt);
   k) d
  = k (ensure_dir (path_dirname p) d).
Proof.
  pose proof (path_dirname_nonempty p) as Hne.
  unfold eff_bind at 1. rewrite existsFileSync_run, (eqb_nonempty _ Hne).
  cbn [negb andb]. unfold eff_bind.
  destruct (d !! path_dirname p) as [n|] eqn:E.
  - rewrite bool_decide_eq_true_2 by eauto. cbn. unfold ensure_dir. by rewrite E.
  - rewrite bool_decide_eq_false_2 by (by intros [? ?]). cbn [negb].
    by rewrite mkdir_absent.
Qed.

Lemma ensure_dir_lookup_dir (dir : string) (d : disk) :
  (forall c, d !! dir <> Some (File c)) -> ensure_dir dir d !! dir = Some Dir.
Proof.
  intros H. unfold ensure_dir. destruct (d !! dir) as [[c|]|] eqn:E.
  - by destruct (H c).
  - done.
  - by rewrite lookup_insert_eq.
Qed.

Lemma ensure_dir_lookup_ne (dir p : string) (d : disk) :
  dir <> p -> ensure_dir dir d !! p = d !! p.
Proof.
  intros H. unfold ensure_dir. destruct (d !! dir); [done|].
  by rewrite lookup_insert_ne.
Qed.

Lemma append_as_array (kept_items : list jsval) (data : jsval) :
  match data with
  | VArr items => @eff_ret disk _ (kept_items ++ items)
  | _ => eff_ret (kept_items ++ [data])
  end = eff_ret (kept_items ++ IOF.as_array data).
Proof. by destruct data. Qed.

Lemma writeJSONFile_unfold (p : string) (data : jsval) (ow : bool) (d : disk) :
  IOF.writeJSONFile p data ow d
  = eff_catch (write_body p data ow)
      (fun message => eff_throw ("Failed to write JSON to " +:+ p +:+ ": " +:+ message))
      (ensure_dir (path_dirname p) d).
Proof.
  unfold IOF.writeJSONFile, eff_catch at 1. rewrite directory_step.
  unfold eff_catch. set (d1 := ensure_dir (path_dirname p) d). clearbody d1.
  match goal with
  | |- match ?a with _ => _ end = match ?b with _ => _ end =>
      assert (a = b) as ->; [|done]
  end.
  unfold write_body, eff_bind.
  destruct (if ow then eff_ret true else _) as [[[|]|e] d2]; try done.
  destruct (fs_readFile p d2) as [[jsonData|e] d3]; [|done].
  unfold eff_lift. destruct (JSON_parse jsonData) as [parsed|e]; [|done].
  by rewrite append_as_array.
Qed.

Lemma fs_writeFile_ok (p content : string) (d : disk) :
  p <> "" -> d !! p <> Some Dir -> d !! path_dirname p = Some Dir ->
  fs_writeFile p content d = (Returns tt, <[p := File content]> d).
Proof.
  intros Hne Hp Hdir. unfold fs_writeFile. rewrite (eqb_nonempty p Hne), Hdir.
  by destruct (d !! p) as [[|]|].
Qed.

Lemma fs_writeFile_inv (p content : string) (d d' : disk) :
  fs_writeFile p content d = (Returns tt, d') -> d' = <[p := File content]> d.
Proof.
  unfold fs_writeFile. destruct (String.eqb p ""); [done|].
  destruct (d !! p) as [[|]|]; try done;
    destruct (d !! path_dirname p) as [[|]|]; congruence.
Qed.

Lemma write_body_replace (p : string) (data : jsval) (content : string) (d : disk) :
  JSON_stringify (VArr (IOF.as_array data)) 2 = Returns (Some content) ->
  write_body p data true d = fs_writeFile p content d.
Proof. intros H. unfold write_body, eff_bind, eff_ret, eff_lift. by rewrite H. Qed.


Lemma write_body_append (p : string) (data parsed : jsval) (c content : string)
    (d : disk) :
  p <> "" -> d !! p = Some (File c) -> JSON_parse c = Returns parsed ->
  JSON_stringify (VArr (kept parsed ++ IOF.as_array data)) 2
  = Returns (Some content) ->
  write_body p data false d = fs_writeFile p content d.
Proof.
  intros Hne Hp Hparse H. unfold write_body, eff_bind, eff_ret, eff_lift.
  rewrite existsFileSync_run, Hp, (eqb_nonempty p Hne).
  rewrite bool_decide_eq_true_2 by eauto. cbn [negb andb].
  unfold fs_readFile. rewrite (eqb_nonempty p Hne), Hp, Hparse. by rewrite H.
Qed.

(** Every normal completion of [write_body] wrote the text of an array. *)
Lemma write_body_inv (p : string) (data : jsval) (ow : bool) (d d' : disk) :
  write_body p data ow d = (Returns tt, d') ->
  exists final content,
    JSON_stringify (VArr final) 2 = Returns (Some content)
    /\ d' = <[p := File content]> d
    /\ match ow, d !! p with
       | true, _ | false, None => final = IOF.as_array data
       | false, Some (File c) =>
           exists parsed, JSON_parse c = Returns parsed
                          /\ final = kept parsed ++ IOF.as_array data
       | false, Some Dir => p = ""
       end.
Proof.
  unfold write_body, eff_bind, eff_ret, eff_lift. intros H.
  destruct ow.
  - destruct (JSON_stringify (VArr (IOF.as_array data)) 2) as [[content|]|] eqn:E;
      try done.
    apply fs_writeFile_inv in H. by exists (IOF.as_array data), content.
  - rewrite existsFileSync_run in H.
    destruct (String.eqb p "") eqn:Ep.
    { cbn [negb andb] in H.
      destruct (JSON_stringify (VArr (IOF.as_array data)) 2) as [[content|]|];
        try done.
      unfold fs_writeFile in H. by rewrite Ep in H. }
    cbn [negb andb] in H. destruct (d !! p) as [[c|]|] eqn:Hp.
    + rewrite bool_decide_eq_true_2 in H by eauto. cbn [negb] in H.
      unfold fs_readFile in H. rewrite Ep, Hp in H.
      destruct (JSON_parse c) as [parsed|] eqn:Hparse; [|done].
      destruct (JSON_stringify (VArr (kept parsed ++ IOF.as_array data)) 2)
        as [[content|]|] eqn:E; try done.
      apply fs_writeFile_inv in H.
      exists (kept parsed ++ IOF.as_array data), content. eauto.
    + rewrite bool_decide_eq_true_2 in H by eauto. cbn [negb] in H.
      unfold fs_readFile in H. by rewrite Ep, Hp in H.
    + rewrite bool_decide_eq_false_2 in H by (by intros [? ?]). cbn [negb] in H.
      destruct (JSON_stringify (VArr (IOF.as_array data)) 2) as [[content|]|] eqn:E;
        try done.
      apply fs_writeFile_inv in H. by exists (IOF.as_array data), content.
Qed.

Lemma writeJSONFile_inv (p : string) (data : jsval) (ow : bool) (d d' : disk) :
  IOF.writeJSONFile p data ow d = (Returns tt, d') ->
  write_body p data ow (ensure_dir (path_dirname p) d) = (Returns tt, d').
Proof.
  rewrite writeJSONFile_unfold. unfold eff_catch, eff_throw.
  by destruct (write_body p data ow _) as [[[]|e] d2].
Qed.

Lemma writeJSONFile_ok (p : string) (data : jsval) (ow : bool) (d d' : disk) :
  write_body p data ow (ensure_dir (path_dirname p) d) = (Returns tt, d') ->
  IOF.writeJSONFile p data ow d = (Returns tt, d').
Proof. rewrite writeJSONFile_unfold. unfold eff_catch. by intros ->. Qed.


(** Appending to a file that is there. *)
Lemma writeJSONFile_append (p : string) (data parsed : jsval)
    (c content : string) (d : disk) :
  p <> "" -> d !! p = Some (File c) ->
  (forall c', d !! path_dirname p <> Some (File c')) ->
  JSON_parse c = Returns parsed ->
  JSON_stringify (VArr (kept parsed ++ IOF.as_array data)) 2
  = Returns (Some content) ->
  IOF.writeJSONFile p data false d
  = (Returns tt, <[p := File content]> (ensure_dir (path_dirname p) d)).
Proof.
  intros Hne Hp Hdir Hparse Hser. apply writeJSONFile_ok.
  set (d1 := ensure_dir (path_dirname p) d).
  assert (d1 !! path_dirname p = Some Dir) as Hd1 by (by apply ensure_dir_lookup_dir).
  assert (path_dirname p <> p) as Hneq.
  { intros Heq. rewrite Heq in Hdir. by destruct (Hdir c). }
  assert (d1 !! p = Some (File c)) as Hp1.
  { unfold d1. by rewrite ensure_dir_lookup_ne. }
  rewrite (write_body_append p data parsed c content d1) by done.
  apply fs_writeFile_ok; [done| by rewrite Hp1 |done].
Qed.

Lemma readJSONFile_array (p c : string) (items : list jsval) (d : disk) :
  p <> "" -> d !! p = Some (File c) -> JSON_parse c = Returns (VArr items) ->
  IOF.readJSONFile p d = (Returns items, d).
Proof.
  intros Hne Hp Hparse.
  unfold IOF.readJSONFile, eff_catch, eff_bind, eff_ret, eff_lift, fs_existsSync,
    fs_readFile.
  rewrite (eqb_nonempty p Hne), Hp.
  rewrite bool_decide_eq_true_2 by eauto. cbn [negb andb]. by rewrite Hp, Hparse.
Qed.

Lemma readJSONFile_not_array (p c : string) (v : jsval) (d : disk) :
  p <> "" -> d !! p = Some (File c) -> JSON_parse c = Returns v ->
  isArray v = false ->
  IOF.readJSONFile p d
  = (Throws ("Failed to read JSON from " +:+ p +:+ ": "
             +:+ "File content is not an array: " +:+ p), d).
Proof.
  intros Hne Hp Hparse Hv.
  unfold IOF.readJSONFile, eff_catch, eff_bind, eff_ret, eff_lift, fs_existsSync,
    fs_readFile.
  rewrite (eqb_nonempty p Hne), Hp.
  rewrite bool_decide_eq_true_2 by eauto. cbn [negb andb]. rewrite Hp, Hparse.
  by destruct v.
Qed.

Lemma readJSONFile_missing (p : string) (d : disk) :
  d !! p = None ->
  IOF.readJSONFile p d
  = (Throws ("Failed to read JSON from " +:+ p +:+ ": "
             +:+ "File not found: " +:+ p), d).
Proof.
  intros Hp.
  unfold IOF.readJSONFile, eff_catch, eff_bind, eff_ret, eff_lift, fs_existsSync.
  rewrite Hp. rewrite bool_decide_eq_false_2 by (by intros [? ?]).
  by rewrite andb_false_r.
Qed.



(** An append onto a parsed root that is not an array starts from the
    empty array. *)
Lemma append_onto_non_array (d : disk) (p c content : string) (v data : jsval) :
  p <> "" -> d !! p = Some (File c) ->
  (forall c', d !! path_dirname p <> Some (File c')) ->
  JSON_parse c = Returns v -> isArray v = false ->
  JSON_stringify (VArr (IOF.as_array data)) 2 = Returns (Some content) ->
  IOF.writeJSONFile p data false d
  = (Returns tt, <[p := File content]> (ensure_dir (path_dirname p) d)).
Proof.
  intros Hne Hp Hdir Hparse Hv Hser.
  assert (kept v = []) as Hkept by (by destruct v).
  apply (writeJSONFile_append p data v c content); try done. by rewrite Hkept.
Qed.

(** C2. Appending one item [{"y":2}] to an existing file whose content
    parses as JSON with a root that is not an array completes normally and
    leaves exactly [[{"y":2}]] in the file: the content that was there is
    dropped without a failure. *)
Theorem append_discards_non_array (d : disk) (p c : string) (v : jsval) :
  p <> "" -> d !! p = Some (File c) ->
  (forall c', d !! path_dirname p <> Some (File c')) ->
  JSON_parse c = Returns v -> isArray v = false ->
  exists d',
    IOF.writeJSONFile p (VObj [("y", VNum 2)]) false d = (Returns tt, d')
    /\ d' !! p = Some (File y2_text)
    /\ IOF.readJSONFile p d' = (Returns [VObj [("y", VNum 2)]], d').
Proof.
  intros Hne Hp Hdir Hparse Hv.
  exists (<[p := File y2_text]> (ensure_dir (path_dirname p) d)).
  split; [|split].
  - by apply (append_onto_non_array d p c y2_text v).
  - by rewrite lookup_insert_eq.
  - apply (readJSONFile_array p y2_text); [done| by rewrite lookup_insert_eq |].
    vm_compute. reflexivity.
Qed.

Lemma append_discards_non_array_witness :
  exists d',
    IOF.writeJSONFile "/srv/object.json" (VObj [("y", VNum 2)]) false sample_disk
    = (Returns tt, d')
    /\ d' !! "/srv/object.json" = Some (File y2_text)
    /\ IOF.readJSONFile "/srv/object.json" d' = (Returns [VObj [("y", VNum 2)]], d').
Proof.
  apply (append_discards_non_array sample_disk "/srv/object.json"
           ("{" +:+ dq +:+ "x" +:+ dq +:+ ":1}") (VObj [("x", VNum 1)])).
  - discriminate.
  - vm_compute. reflexivity.
  - intros c' H. vm_compute in H. discriminate H.
  - vm_compute. reflexivity.
  - reflexivity.
Defined.

(** C3. [readJSONFile] fails with a not-found error when the path names
    nothing, fails with a malformed-content error when the file parses as
    JSON with a root that is not an array, and otherwise returns the parsed
    array as it is; on the very file on which the read is strict, the
    append of [writeJSONFile] completes normally. *)
Theorem readJSONFile_strict (d : disk) (p : string) :
  (d !! p = None ->
   IOF.readJSONFile p d
   = (Throws ("Failed to read JSON from " +:+ p +:+ ": "
              +:+ "File not found: " +:+ p), d))
  /\ (forall c v,
        p <> "" -> d !! p = Some (File c) -> JSON_parse c = Returns v ->
        isArray v = false ->
        IOF.readJSONFile p d
        = (Throws ("Failed to read JSON from " +:+ p +:+ ": "
                   +:+ "File content is not an array: " +:+ p), d)
        /\ ((forall c', d !! path_dirname p <> Some (File c')) ->
            (IOF.writeJSONFile p (VObj [("y", VNum 2)]) false d).1 = Returns tt))
  /\ (forall c items,
        p <> "" -> d !! p = Some (File c) -> JSON_parse c = Returns (VArr items) ->
        IOF.readJSONFile p d = (Returns items, d)).
Proof.
  split; [|split].
  - apply readJSONFile_missing.
  - intros c v Hne Hp Hparse Hv. split.
    + by apply (readJSONFile_not_array p c v).
    + intros Hdir.
      by rewrite (append_onto_non_array d p c y2_text v (VObj [("y", VNum 2)])).
  - intros c items. apply readJSONFile_array.
Qed.

Lemma readJSONFile_strict_witness :
  IOF.readJSONFile "/srv/none.json" sample_disk
  = (Throws "Failed to read JSON from /srv/none.json: File not found: /srv/none.json",
     sample_disk)
  /\ (IOF.readJSONFile "/srv/object.json" sample_disk
      = (Throws "Failed to read JSON from /srv/object.json: File content is not an array: /srv/object.json",
         sample_disk)
      /\ (IOF.writeJSONFile "/srv/object.json" (VObj [("y", VNum 2)]) false
            sample_disk).1 = Returns tt)
  /\ IOF.readJSONFile "/srv/list.json" sample_disk
     = (Returns [VNum 1; VNum 2], sample_disk).
Proof.
  split; [|split].
  - apply (proj1 (readJSONFile_strict sample_disk "/srv/none.json")).
    vm_compute. reflexivity.
  - destruct (proj1 (proj2 (readJSONFile_strict sample_disk "/srv/object.json"))
                ("{" +:+ dq +:+ "x" +:+ dq +:+ ":1}") (VObj [("x", VNum 1)])
                ltac:(discriminate) ltac:(vm_compute; reflexivity)
                ltac:(vm_compute; reflexivity) eq_refl) as [H1 H2].
    split; [exact H1|]. apply H2. intros c' H. vm_compute in H. discriminate H.
  - apply (proj2 (proj2 (readJSONFile_strict sample_disk "/srv/list.json")) "[1, 2]");
      [discriminate | vm_compute; reflexivity | vm_compute; reflexivity].
Defined.

(** C4. Root-array invariant: after every call of [writeJSONFile] that
    completes normally, whatever [overwrite] is and whether or not the
    file was there, the content of the file parses as JSON with an array
    at the root; when [overwrite] is true or the file was absent the
    content is the text of [data] itself if it is a sequence, and of the
    one-element array [[data]] otherwise. *)
Theorem root_array_invariant (d d' : disk) (p : string) (data : jsval) (ow : bool) :
  IOF.writeJSONFile p data ow d = (Returns tt, d') ->
  exists content items,
    d' !! p = Some (File content)
    /\ JSON_parse content = Returns (VArr items)
    /\ (ow = true \/ d !! p = None ->
        (forall sequence, data = VArr sequence ->
           JSON_stringify (VArr sequence) 2 = Returns (Some content))
        /\ (isArray data = false ->
            JSON_stringify (VArr [data]) 2 = Returns (Some content))).
Proof.
  intros H. apply writeJSONFile_inv in H.
  pose proof (write_body_inv _ _ _ _ _ H) as (final & content & Hser & -> & Hfinal).
  exists content, (map revive final).
  split; [by rewrite lookup_insert_eq|].
  split; [by apply (stringify_array_parses final 2)|].
  intros Hmode.
  assert (final = IOF.as_array data) as ->.
  { destruct ow; [done|]. destruct Hmode as [|Habs]; [done|].
    destruct (decide (path_dirname p = p)) as [Heq|Hneq].
    - unfold ensure_dir in Hfinal. rewrite Heq, Habs in Hfinal.
      rewrite lookup_insert_eq in Hfinal. subst p.
      unfold write_body, eff_bind, eff_ret, eff_lift in H.
      rewrite existsFileSync_run in H. cbn in H.
      destruct (JSON_stringify (VArr (IOF.as_array data)) 2) as [[?|]|]; done.
    - rewrite ensure_dir_lookup_ne, Habs in Hfinal; done. }
  split.
  - by intros sequence ->.
  - intros Hdata. by destruct data.
Qed.

Lemma root_array_invariant_witness :
  exists content items,
    (IOF.writeJSONFile "/srv/list.json" (VStr "three") false sample_disk).2
      !! "/srv/list.json" = Some (File content)
    /\ JSON_parse content = Returns (VArr items)
    /\ (false = true \/ sample_disk !! "/srv/list.json" = None ->
        (forall sequence, VStr "three" = VArr sequence ->
           JSON_stringify (VArr sequence) 2 = Returns (Some content))
        /\ (isArray (VStr "three") = false ->
            JSON_stringify (VArr [VStr "three"]) 2 = Returns (Some content))).
Proof.
  apply (root_array_invariant sample_disk _ "/srv/list.json" (VStr "three") false).
  vm_compute. reflexivity.
Defined.

(** ** The MIME resolver *)

Lemma split_on_nonempty (sep : ascii) (s : text) : split_on sep s <> [].
Proof.
  destruct s as [|c s]; [done|]. cbn [split_on].
  destruct (c =? sep)%char; [done|]. by destruct (split_on sep s).
Qed.

Lemma split_on_no_sep (sep : ascii) (s : text) :
  Forall (fun c => (c =? sep)%char = false) s -> split_on sep s = [s].
Proof.
  induction 1 as [|c s Hc _ IH]; [done|]. cbn [split_on]. by rewrite Hc, IH.
Qed.

Lemma split_on_app (sep : ascii) (a b : text) :
  split_on sep (a ++ sep :: b) = split_on sep a ++ split_on sep b.
Proof.
  induction a as [|c a IH]; cbn [app split_on].
  - by rewrite Ascii.eqb_refl.
  - destruct (c =? sep)%char; [by rewrite IH|]. rewrite IH.
    pose proof (split_on_nonempty sep a) as Hne.
    by destruct (split_on sep a).
Qed.

Lemma last_app_nonempty {A : Type} (l1 l2 : list A) (dflt : A) :
  l2 <> [] -> List.last (l1 ++ l2) dflt = List.last l2 dflt.
Proof.
  intros Hne. induction l1 as [|x l1 IH]; [done|]. cbn [app].
  destruct (l1 ++ l2) eqn:E; [|done]. by destruct l1, l2.
Qed.

Lemma last_split_on_app (sep : ascii) (a b : text) :
  List.last (split_on sep (a ++ sep :: b)) [] = List.last (split_on sep b) [].
Proof. rewrite split_on_app. apply last_app_nonempty, split_on_nonempty. Qed.

Lemma includes_text_cons_false (needle : ascii) (s : text) :
  includes_text [needle] s = false ->
  Forall (fun c => (c =? needle)%char = false) s.
Proof.
  induction s as [|c s IH]; [done|]. cbn [includes_text strip_prefix].
  destruct (needle =? c)%char eqn:E; [done|]. intros H.
  constructor; [by rewrite Ascii.eqb_sym | by apply IH].
Qed.

Lemma extension_of_name (stem ext : string) :
  includes "." ext = false ->
  extension (stem +:+ "." +:+ ext) = ext /\ extension ext = ext.
Proof.
  intros H. apply includes_text_cons_false in H. unfold extension. split.
  - rewrite !lit_app. change (lit ".") with ["."%char]. cbn [app].
    rewrite last_split_on_app, split_on_no_sep by done. apply str_lit.
  - rewrite split_on_no_sep by done. apply str_lit.
Qed.

Lemma switch_first (k v dflt : string) (cases : list (string * string)) :
  NoDup (map fst cases) -> In (k, v) cases -> switch k cases dflt = v.
Proof.
  induction cases as [|[k' v'] rest IH]; [done|].
  intros Hnd [Hin|Hin]; cbn [switch].
  - injection Hin as -> ->. by rewrite String.eqb_refl.
  - apply NoDup_cons in Hnd as [Hk' Hnd]. destruct (String.eqb_spec k k') as [->|Hne].
    + exfalso. apply Hk'. apply list_elem_of_In. apply (in_map fst) in Hin. done.
    + by apply IH.
Qed.

Lemma switch_default (k dflt : string) (cases : list (string * string)) :
  (forall v, ~ In (k, v) cases) -> switch k cases dflt = dflt.
Proof.
  induction cases as [|[k' v'] rest IH]; [done|]. intros H. cbn [switch].
  destruct (String.eqb_spec k k') as [->|Hne].
  - exfalso. apply (H v'). by left.
  - apply IH. intros v Hin. apply (H v). by right.
Qed.

Lemma mime_labels_distinct : NoDup (map fst mime_cases).
Proof. apply (bool_decide_unpack _). vm_compute. reflexivity. Qed.

(** C8, counterexample.  The claim has the lookup insensitive to the case
    of the extension; the code compares the extension as it is. *)
Lemma mimeType_case_counterexample :
  mimeType "photo.jpg" = "image/jpeg"
  /\ mimeType "Photo.JPG" = "application/octet-stream"
  /\ mimeType "Photo.JPG" <> mimeType "photo.jpg".
Proof. vm_compute. repeat split. discriminate. Qed.

(** C8, as amended.  For every file name, [mimeType] takes the text after
    the last dot of the name (the whole name when it has no dot), compares
    it as it is, case included, with the labels of the table, and returns
    the constant of the label it equals; when it equals no label the
    result is [application/octet-stream]. *)
Theorem mimeType_by_extension (stem ext : string) :
  includes "." ext = false ->
  (forall mime, In (ext, mime) mime_cases ->
     mimeType (stem +:+ "." +:+ ext) = mime /\ mimeType ext = mime)
  /\ ((forall mime, ~ In (ext, mime) mime_cases) ->
      mimeType (stem +:+ "." +:+ ext) = "application/octet-stream"
      /\ mimeType ext = "application/octet-stream").
Proof.
  intros H. destruct (extension_of_name stem ext H) as [E1 E2].
  unfold mimeType. rewrite E1, E2. split.
  - intros mime Hin. split; apply switch_first; auto using mime_labels_distinct.
  - intros Hout. split; by apply switch_default.
Qed.

Lemma mimeType_by_extension_witness :
  (forall mime, In ("webp", mime) mime_cases ->
     mimeType ("cover.final" +:+ "." +:+ "webp") = mime /\ mimeType "webp" = mime)
  /\ ((forall mime, ~ In ("webp", mime) mime_cases) ->
      mimeType ("cover.final" +:+ "." +:+ "webp") = "application/octet-stream"
      /\ mimeType "webp" = "application/octet-stream").
Proof. apply (mimeType_by_extension "cover.final" "webp"). reflexivity. Defined.

(** ** Digest and size of a buffer *)

Lemma hex_digit_lower (n : N) : (n < 16)%N -> is_lower_hex (hex_digit n) = true.
Proof.
  intros H. assert (N.to_nat n < 16)%nat as Hn by lia.
  unfold hex_digit. generalize dependent (N.to_nat n). intros m Hm.
  do 16 (destruct m as [|m]; [reflexivity|]). lia.
Qed.

Lemma hex_word_spec (x : Z) :
  length (SHA256.hex_word x) = 8%nat
  /\ Forall (fun c => is_lower_hex c = true) (SHA256.hex_word x).
Proof.
  unfold SHA256.hex_word. split; [by rewrite length_map|].
  apply Forall_map, Forall_forall. intros i _. apply hex_digit_lower.
  pose proof (Z.mod_pos_bound (Z.shiftr x (4 * Z.of_nat i)) 16 ltac:(lia)). lia.
Qed.

Lemma hex_spec (s : SHA256.state) :
  String.length (SHA256.hex s) = 64%nat
  /\ Forall (fun c => is_lower_hex c = true) (lit (SHA256.hex s)).
Proof.
  unfold SHA256.hex. rewrite <- length_lit, lit_str. cbn [flat_map].
  rewrite app_nil_r, !length_app, !Forall_app.
  repeat match goal with
         | |- context [SHA256.hex_word ?x] =>
             let Hl := fresh in let Hf := fresh in
             destruct (hex_word_spec x) as [Hl Hf]; rewrite Hl;
             generalize dependent (SHA256.hex_word x); intros
         end.
  split; [reflexivity | tauto].
Qed.

(** C9. [calculateHashByBuffer] and [calculateSizeByBuffer] both throw
    the input-validation error on an argument that is not a buffer and on
    an empty buffer; on every non-empty buffer the first returns a string
    of 64 lowercase hexadecimal characters, the same at every call on the
    same bytes, and the second returns the number of bytes. *)
Theorem buffer_hash_and_size :
  (forall v,
     IOF.calculateHashByBuffer (AValue v) = Throws "Input must be a Buffer"
     /\ IOF.calculateSizeByBuffer (AValue v) = Throws "Input must be a Buffer")
  /\ (IOF.calculateHashByBuffer (ABuffer []) = Throws "Buffer cannot be empty"
      /\ IOF.calculateSizeByBuffer (ABuffer []) = Throws "Buffer cannot be empty")
  /\ (forall bytes, bytes <> [] ->
        exists digest,
          IOF.calculateHashByBuffer (ABuffer bytes) = Returns digest
          /\ String.length digest = 64%nat
          /\ Forall (fun c => is_lower_hex c = true) (lit digest)
          /\ (forall again, again = bytes ->
                IOF.calculateHashByBuffer (ABuffer again) = Returns digest)
          /\ IOF.calculateSizeByBuffer (ABuffer bytes) = Returns (length bytes)).
Proof.
  split; [done|]. split; [done|]. intros bytes Hne.
  exists (SHA256.hex (SHA256.digest bytes)).
  unfold IOF.calculateHashByBuffer, IOF.calculateSizeByBuffer.
  destruct bytes as [|b bytes]; [done|]. cbn [length Nat.eqb].
  destruct (hex_spec (SHA256.digest (b :: bytes))) as [Hl Hf].
  repeat split; try done. by intros again ->.
Qed.

Lemma buffer_hash_and_size_witness :
  exists digest,
    IOF.calculateHashByBuffer (ABuffer (bytes_of_string "abc")) = Returns digest
    /\ String.length digest = 64%nat
    /\ Forall (fun c => is_lower_hex c = true) (lit digest)
    /\ (forall again, again = bytes_of_string "abc" ->
          IOF.calculateHashByBuffer (ABuffer again) = Returns digest)
    /\ IOF.calculateSizeByBuffer (ABuffer (bytes_of_string "abc"))
       = Returns (length (bytes_of_string "abc")).
Proof.
  apply (proj2 (proj2 buffer_hash_and_size) (bytes_of_string "abc")).
  vm_compute. discriminate.
Defined.

(** ** The logger *)

(** What a call does, in one equation. *)
Lemma call_run (forced : bool) (m : method) (h : host) (show : bool)
    (args : list jsval) (out : console) :
  call forced m h show args out
  = match Time.getTimeToLogFormat (formatted h) with
    | Throws e => (Throws e, out)
    | Returns currentTime =>
        match Logger.render_all args with
        | Throws e => (Throws e, out)
        | Returns pieces =>
            (Returns {| pfn := replace "fn: " "" (Logger.getCallerNameForced h);
                        timestamp := currentTime;
                        message := Logger.processedMessage args;
                        level := tag m |},
             out ++ [(method_of m,
                      Logger.line currentTime (color_of m) (tag m)
                        (shown_tag forced show h) (Logger.join_pieces pieces))])
        end
    end.
Proof.
  unfold shown_tag.
  destruct forced, m, show; cbn [call orb];
    unfold Logger.success, Logger.error, Logger.warn, Logger.info, Logger.debug,
      Logger.custom, Logger.pfn.success, Logger.pfn.error, Logger.pfn.warn,
      Logger.pfn.info, Logger.pfn.debug, Logger.pfn.custom,
      Logger.logWithReturn, Logger.customWithReturn, eff_bind, eff_lift, eff_ret,
      Logger.write, Logger.getCallerName;
    destruct (Time.getTimeToLogFormat (formatted h)); try reflexivity;
    destruct (Logger.render_all args); reflexivity.
Qed.

Lemma call_inv (forced : bool) (m : method) (h : host) (show : bool)
    (args : list jsval) (out out' : console) (r : LogReturn) :
  call forced m h show args out = (Returns r, out') ->
  exists currentTime pieces,
    Time.getTimeToLogFormat (formatted h) = Returns currentTime
    /\ Logger.render_all args = Returns pieces
    /\ r = {| pfn := replace "fn: " "" (Logger.getCallerNameForced h);
              timestamp := currentTime;
              message := Logger.processedMessage args;
              level := tag m |}
    /\ out' = out ++ [(method_of m,
                       Logger.line currentTime (color_of m) (tag m)
                         (shown_tag forced show h) (Logger.join_pieces pieces))].
Proof.
  rewrite call_run.
  destruct (Time.getTimeToLogFormat (formatted h)) as [t|]; [|done].
  destruct (Logger.render_all args) as [pieces|]; [|done].
  intros [= <- <-]. by exists t, pieces.
Qed.

(** C5. For every level method, plain or forced, the [message] of the
    record it returns keeps the shape of the arguments: the argument
    itself when there is exactly one, the sequence of the arguments in
    order when there are several, the empty string when there is none;
    its [level] is the tag of the method, the [type] given by the caller
    for [custom]. *)
Theorem message_keeps_shape (forced : bool) (m : method) (h : host) (show : bool)
    (args : list jsval) (out out' : console) (r : LogReturn) :
  call forced m h show args out = (Returns r, out') ->
  level r = tag m
  /\ (forall a, args = [a] -> message r = a)
  /\ ((1 < length args)%nat -> message r = VArr args)
  /\ (args = [] -> message r = VStr "").
Proof.
  intros H. apply call_inv in H as (t & pieces & _ & _ & -> & _).
  cbn [level message]. split; [done|]. split; [|split].
  - by intros a ->.
  - intros Hlen. destruct args as [|a [|b rest]]; cbn in Hlen; try lia. done.
  - by intros ->.
Qed.

Lemma message_keeps_shape_witness :
  let r := {| pfn := "loadConfig"; timestamp := "02/11/2026:09:05:59";
              message := VArr [VStr "a"; VStr "b"]; level := "INFO" |} in
  level r = "INFO"
  /\ (forall a, [VStr "a"; VStr "b"] = [a] -> message r = a)
  /\ ((1 < length [VStr "a"; VStr "b"])%nat -> message r = VArr [VStr "a"; VStr "b"])
  /\ ([VStr "a"; VStr "b"] = [] -> message r = VStr "").
Proof.
  intros r.
  eapply (message_keeps_shape false Minfo (sample_host "loadConfig") false
            [VStr "a"; VStr "b"] [] _ r).
  vm_compute. reflexivity.
Defined.

(** *** The [pfn] field *)

Lemma frame_tag_shape (line tag : string) :
  Logger.frame_tag line = Some tag ->
  exists name, name <> "" /\ tag = "fn: " +:+ name.
Proof.
  unfold Logger.frame_tag.
  destruct (Logger.skipped line); [done|].
  destruct (includes "at <anonymous>" line && negb (match_at_anonymous line));
    [done|].
  destruct (not_blank line); [|done].
  destruct (match_at_word line) as [name|].
  - destruct (String.eqb_spec name ""); cbn [negb andb].
    + destruct (includes "at <anonymous>" line); [|done].
      intros [= <-]. by exists "<anonymous>".
    + destruct (negb (String.eqb name "Object") && negb (String.eqb name "Function")).
      * intros [= <-]. by exists name.
      * destruct (includes "at <anonymous>" line); [|done].
        intros [= <-]. by exists "<anonymous>".
  - destruct (includes "at <anonymous>" line); [|done].
    intros [= <-]. by exists "<anonymous>".
Qed.

Lemma scan_shape (stackLines : list string) :
  Logger.scan stackLines = ""
  \/ exists name, name <> "" /\ Logger.scan stackLines = "fn: " +:+ name.
Proof.
  induction stackLines as [|line rest IH]; [by left|]. cbn [Logger.scan].
  destruct (Logger.frame_tag line) as [tag|] eqn:E; [|done].
  right. by apply (frame_tag_shape line).
Qed.

Lemma detect_shape (stack : option string) :
  Logger.detect stack = ""
  \/ exists name, name <> "" /\ Logger.detect stack = "fn: " +:+ name.
Proof.
  unfold Logger.detect. destruct stack as [s|]; [|by left].
  destruct (String.eqb s ""); [by left | apply scan_shape].
Qed.

Lemma replace_text_unfold (pattern replacement s : text) :
  replace_text pattern replacement s
  = match strip_prefix pattern s with
    | Some after => replacement ++ after
    | None =>
        match s with
        | [] => []
        | c :: s' => c :: replace_text pattern replacement s'
        end
    end.
Proof. by destruct s. Qed.

Lemma replace_prefix (pattern rest : string) :
  replace pattern "" (pattern +:+ rest) = rest.
Proof.
  unfold replace. rewrite lit_app, replace_text_unfold, strip_prefix_app.
  apply str_lit.
Qed.

Lemma replace_detect (stack : option string) :
  replace "fn: " "" (Logger.detect stack) = strip_fn (Logger.detect stack)
  /\ (Logger.detect stack <> "" -> strip_fn (Logger.detect stack) <> "").
Proof.
  destruct (detect_shape stack) as [->|(name & Hname & ->)]; [done|].
  rewrite replace_prefix. unfold strip_fn. rewrite lit_app, strip_prefix_app, str_lit.
  done.
Qed.

(** C10. For every call, plain or forced and whatever the flag, the [pfn]
    field of the record is the caller tag found by the forced stack
    inspection without its prefix [fn: ], hence not empty whenever that
    inspection finds a frame; the flag and the variant decide only the
    tag of the console line. *)
Theorem pfn_always_detected (forced : bool) (m : method) (h : host) (show : bool)
    (args : list jsval) (out out' : console) (r : LogReturn) :
  call forced m h show args out = (Returns r, out') ->
  pfn r = strip_fn (Logger.getCallerNameForced h)
  /\ (Logger.getCallerNameForced h <> "" -> pfn r <> "")
  /\ exists currentTime consoleMessage,
       out' = out ++ [(method_of m,
                       Logger.line currentTime (color_of m) (tag m)
                         (if forced || show then Logger.getCallerNameForced h
                          else "")
                         consoleMessage)].
Proof.
  intros H. apply call_inv in H as (t & pieces & _ & _ & -> & ->).
  cbn [pfn]. unfold Logger.getCallerNameForced.
  destruct (replace_detect (stackForced h)) as [-> Hne].
  split; [done|]. split; [done|]. by exists t, (Logger.join_pieces pieces).
Qed.

Lemma pfn_always_detected_witness :
  let r := {| pfn := "loadConfig"; timestamp := "02/11/2026:09:05:59";
              message := VStr "hello"; level := "WARN" |} in
  let h := sample_host "loadConfig" in
  pfn r = strip_fn (Logger.getCallerNameForced h)
  /\ (Logger.getCallerNameForced h <> "" -> pfn r <> "")
  /\ exists currentTime consoleMessage,
       [(console_log,
         Logger.line "02/11/2026:09:05:59" (esc "43") "WARN" "" "hello")]
       = [] ++ [(method_of Mwarn,
                 Logger.line currentTime (color_of Mwarn) (tag Mwarn)
                   (if false || false then Logger.getCallerNameForced h else "")
                   consoleMessage)].
Proof.
  intros r h.
  apply (pfn_always_detected false Mwarn h false [VStr "hello"] [] _ r).
  vm_compute. reflexivity.
Defined.

(** *** Completion of a call *)

Lemma serializable_serialize (v : jsval) :
  serializable v = true ->
  forall gap indent, exists r, serialize gap indent v = Returns r.
Proof.
  induction v as [| |b|n|n|s|items IH|props IH|stack message] using jsval_ind;
    intros Hv gap indent; try done; try (eexists; reflexivity).
  - destruct b; eexists; reflexivity.
  - rewrite serialize_VArr.
    assert (exists partial, serialize_elements gap (indent ++ gap) items
                            = Returns partial) as [partial ->]; [|by eexists].
    cbn [serializable] in Hv. generalize (indent ++ gap) as ind. intros ind.
    induction IH as [|x l Hx _ IHl]; [by eexists|].
    cbn [forallb] in Hv. apply andb_prop in Hv as [Hx' Hl].
    cbn [serialize_elements]. destruct (Hx Hx' gap ind) as [sx ->].
    destruct (IHl Hl) as [rest ->]. by eexists.
  - rewrite serialize_VObj.
    assert (exists partial, serialize_members gap (indent ++ gap) props
                            = Returns partial) as [partial ->]; [|by eexists].
    cbn [serializable] in Hv. generalize (indent ++ gap) as ind. intros ind.
    induction IH as [|[k x] l Hx _ IHl]; [by eexists|].
    cbn [forallb snd] in Hv, Hx. apply andb_prop in Hv as [Hx' Hl].
    cbn [serialize_members]. destruct (Hx Hx' gap ind) as [sx ->].
    destruct (IHl Hl) as [rest ->]. by eexists.
Qed.

Lemma renderable_render (a : jsval) :
  renderable a = true -> exists piece, Logger.render a = Returns piece.
Proof.
  unfold renderable, Logger.render, JSON_stringify. intros H.
  destruct a as [| |b|n|n|s|items|props|stack message];
    try (eexists; reflexivity).
  - cbn in H. destruct (serializable_serialize (VArr items) H [] []) as [r Hr].
    cbn [typeof_object Nat.min repeat]. rewrite Hr. by eexists.
  - cbn in H. destruct (serializable_serialize (VObj props) H [] []) as [r Hr].
    cbn [typeof_object Nat.min repeat]. rewrite Hr. by eexists.
Qed.

Lemma renderable_render_all (args : list jsval) :
  forallb renderable args = true ->
  exists pieces, Logger.render_all args = Returns pieces.
Proof.
  induction args as [|a rest IH]; [by eexists|]. cbn [forallb].
  intros [Ha Hrest]%andb_prop. cbn [Logger.render_all].
  destruct (renderable_render a Ha) as [piece ->].
  destruct (IH Hrest) as [pieces ->]. by eexists.
Qed.

Lemma check_required_ok (required : list string) (dateParts : gmap string string) :
  forallb (fun part => negb (Time.falsy (dateParts !! part))) required = true ->
  Time.check_required required dateParts = Returns tt.
Proof.
  induction required as [|part rest IH]; [done|]. cbn [forallb Time.check_required].
  intros [Hpart Hrest]%andb_prop. apply negb_true_iff in Hpart. rewrite Hpart.
  by apply IH.
Qed.

Lemma has_date_parts_time (h : host) :
  has_date_parts h ->
  exists currentTime, Time.getTimeToLogFormat (formatted h) = Returns currentTime.
Proof.
  intros (parts & Hf & Hparts).
  unfold Time.getTimeToLogFormat, Time.formatDateToParts. rewrite Hf. cbn [bind].
  rewrite (check_required_ok _ _ Hparts). by eexists.
Qed.

(** C7, counterexample.  The claim has no call ever raise; a plain object
    that holds a [BigInt] makes [JSON.stringify] throw inside the call of
    [info], before anything is written. *)
Lemma logger_raises_counterexample :
  Logger.info (sample_host "main") false [VObj [("n", VBigInt 1)]] []
  = (Throws "Do not know how to serialize a BigInt", []).
Proof. vm_compute. reflexivity. Qed.

(** C7, as amended.  Every method, plain or forced, whatever the flag and
    the color name of a [custom] call, completes normally, makes exactly
    one console call and returns a record, provided the host formats the
    date with its six parts and every argument that is an object (other
    than an [Error]) is accepted by [JSON.stringify]. *)
Theorem logger_completes (forced : bool) (m : method) (h : host) (show : bool)
    (args : list jsval) (out : console) :
  has_date_parts h -> forallb renderable args = true ->
  exists r entry, call forced m h show args out = (Returns r, out ++ [entry]).
Proof.
  intros Hh Hargs. rewrite call_run.
  destruct (has_date_parts_time h Hh) as [t ->].
  destruct (renderable_render_all args Hargs) as [pieces ->].
  by eexists _, _.
Qed.

Lemma logger_completes_witness :
  exists r entry,
    call true (Mcustom {| type := "AUDIT"; color := Some "PURPLE" |})
      (sample_host "loadConfig") true
      [VError (Some "Error: boom") "boom"; VObj [("k", VNull)]; VBigInt 7]
      [(console_log, "earlier")]
    = (Returns r, [(console_log, "earlier")] ++ [entry]).
Proof.
  apply logger_completes.
  - exists sample_parts. split; [reflexivity | vm_compute; reflexivity].
  - reflexivity.
Defined.

(** *** The caller tag *)

Lemma is_word_not_space (c : ascii) : is_word c = true -> is_space c = false.
Proof. destruct c as [[] [] [] [] [] [] [] []]; vm_compute; congruence. Qed.

Lemma lit_named_frame (indent : nat) (name location : string) :
  lit (named_frame indent name location)
  = repeat " "%char indent
      ++ "a"%char :: "t"%char :: " "%char
      :: lit name ++ " "%char :: "("%char :: lit location.
Proof. unfold named_frame. by rewrite !lit_app, lit_str. Qed.

Lemma forallb_Forall_true {A : Type} (p : A -> bool) (l : list A) :
  forallb p l = true -> Forall (fun x => p x = true) l.
Proof.
  induction l as [|x l IH]; [done|]. cbn [forallb].
  intros [Hx Hl]%andb_prop. constructor; auto.
Qed.

Lemma at_word_here_frame (name : string) (tail : text) :
  forallb is_word (lit name) = true -> name <> "" ->
  at_word_here ("a"%char :: "t"%char :: " "%char
                :: lit name ++ " "%char :: "("%char :: tail)
  = Some (lit name).
Proof.
  intros Hword Hne. unfold at_word_here.
  apply forallb_Forall_true in Hword.
  destruct (lit name) as [|c cs] eqn:E.
  { destruct name; done. }
  assert (is_space c = false) as Hc.
  { apply is_word_not_space. by inversion Hword. }
  pose proof (span_app is_space [" "%char]
                ((c :: cs) ++ " "%char :: "("%char :: tail)
                ltac:(by repeat constructor) Hc) as S1.
  pose proof (span_app is_word (c :: cs) (" "%char :: "("%char :: tail)
                Hword eq_refl) as S2.
  pose proof (span_app is_space [" "%char] ("("%char :: tail)
                ltac:(by repeat constructor) eq_refl) as S3.
  cbn [app] in *.
  match goal with
  | |- context [strip_prefix ?p ("a"%char :: "t"%char :: ?x)] =>
      change (strip_prefix p ("a"%char :: "t"%char :: x)) with (Some x)
  end.
  cbv beta iota. rewrite S1, S2, S3. reflexivity.
Qed.

Lemma match_at_word_frame (indent : nat) (name location : string) :
  forallb is_word (lit name) = true -> name <> "" ->
  match_at_word (named_frame indent name location) = Some name.
Proof.
  intros Hword Hne. unfold match_at_word. rewrite lit_named_frame.
  induction indent as [|k IH]; cbn [repeat app search].
  - rewrite at_word_here_frame by done. cbn. by rewrite str_lit.
  - by change (at_word_here (" "%char :: ?s)) with (@None text).
Qed.

Lemma not_blank_frame (indent : nat) (name location : string) :
  not_blank (named_frame indent name location) = true.
Proof.
  unfold not_blank. rewrite lit_named_frame, forallb_app. cbn [forallb].
  change (is_space "a") with false. by rewrite andb_false_r.
Qed.

Lemma frame_tag_named (indent : nat) (name location : string) :
  forallb is_word (lit name) = true ->
  name <> "" -> name <> "Object" -> name <> "Function" ->
  Logger.skipped (named_frame indent name location) = false ->
  includes "at <anonymous>" (named_frame indent name location)
  && negb (match_at_anonymous (named_frame indent name location)) = false ->
  Logger.frame_tag (named_frame indent name location) = Some ("fn: " +:+ name).
Proof.
  intros Hword H1 H2 H3 Hskip Hanon. unfold Logger.frame_tag.
  rewrite Hskip, Hanon, not_blank_frame, match_at_word_frame by done.
  by rewrite !(proj2 (String.eqb_neq _ _)).
Qed.

Lemma scan_passed (passed : list string) (line : string) (rest : list string)
    (callerTag : string) :
  Forall (fun l => Logger.frame_tag l = None) passed ->
  Logger.frame_tag line = Some callerTag ->
  Logger.scan (passed ++ line :: rest) = callerTag.
Proof.
  intros Hpassed Hline. induction Hpassed as [|l passed Hl _ IH]; cbn [app Logger.scan].
  - by rewrite Hline.
  - by rewrite Hl.
Qed.

Lemma called_from_detected (h : host) (name : string) :
  called_from h name -> Logger.getCallerNameForced h = "fn: " +:+ name.
Proof.
  intros (stack & l0 & l1 & passed & indent & location & rest & Hs & Hne & Hl
          & Hpassed & Hword & H1 & H2 & H3 & Hskip & Hanon).
  unfold Logger.getCallerNameForced, Logger.detect.
  rewrite Hs, (eqb_nonempty stack Hne), Hl. cbn [drop].
  apply scan_passed; [done|]. by apply frame_tag_named.
Qed.

(** C6, counterexample.  The claim has the forced variant show a caller
    tag whenever it is called from a named function; called from a
    function named [transformer], whose frame holds a skipped marker,
    [pfn.info] prints no tag and returns an empty [pfn]. *)
Lemma forced_tag_counterexample :
  Logger.pfn.info (sample_host "transformer") false [VStr "x"] []
  = (Returns {| pfn := ""; timestamp := "02/11/2026:09:05:59";
                message := VStr "x"; level := "INFO" |},
     [(console_info,
       Logger.line "02/11/2026:09:05:59" (esc "34") "INFO" "" "x")])
  /\ lines (stack_of "transformer") !! 4%nat
     = Some "    at transformer (file:///app/main.mjs:4:21)".
Proof. vm_compute. split; reflexivity. Qed.

(** C6, as amended.  The forced variant computes the caller tag by the
    stack inspection and puts it in the console line whatever the flag;
    the tag is [fn: name], hence not empty, whenever the call is made from
    a function [name] in the sense of [called_from]: a word other than
    [Object] and [Function] on a frame that the filters of the scan do not
    set aside.  The plain variant leaves the tag of the console line empty
    unless the flag is true, and then shows the same tag. *)
Theorem caller_tag_shown (forced : bool) (m : method) (h : host) (show : bool)
    (args : list jsval) (out out' : console) (r : LogReturn) :
  call forced m h show args out = (Returns r, out') ->
  (exists currentTime consoleMessage,
     out' = out ++ [(method_of m,
                     Logger.line currentTime (color_of m) (tag m)
                       (shown_tag forced show h) consoleMessage)])
  /\ (forced = true -> shown_tag forced show h = Logger.getCallerNameForced h)
  /\ (forced = false -> show = false -> shown_tag forced show h = "")
  /\ (forced = false -> show = true ->
      shown_tag forced show h = Logger.getCallerNameForced h)
  /\ (forall name, called_from h name ->
        Logger.getCallerNameForced h = "fn: " +:+ name
        /\ Logger.getCallerNameForced h <> "").
Proof.
  intros H. apply call_inv in H as (t & pieces & _ & _ & _ & ->).
  split; [by exists t, (Logger.join_pieces pieces)|].
  split; [by intros ->|]. split; [by intros -> ->|]. split; [by intros -> ->|].
  intros name Hname. by rewrite (called_from_detected h name Hname).
Qed.

Lemma called_from_sample : called_from (sample_host "loadConfig") "loadConfig".
Proof.
  exists (stack_of "loadConfig"), "Error",
    "    at Logger.getCallerNameForced (file:///app/node_modules/halo-utils/dist/index.mjs:717:17)",
    [ "    at Logger.logWithReturn (file:///app/node_modules/halo-utils/dist/index.mjs:774:39)";
      "    at Object.info (file:///app/node_modules/halo-utils/dist/index.mjs:684:32)" ],
    4%nat, "file:///app/main.mjs:4:21)",
    [ "    at file:///app/main.mjs:7:1";
      "    at ModuleJob.run (node:internal/modules/esm/module_job:195:25)" ].
  split; [reflexivity|]. split; [discriminate|].
  split; [vm_compute; reflexivity|].
  split; [repeat constructor; vm_compute; reflexivity|].
  split; [vm_compute; reflexivity|].
  split; [discriminate|]. split; [discriminate|]. split; [discriminate|].
  split; vm_compute; reflexivity.
Defined.

Lemma caller_tag_shown_witness :
  Logger.getCallerNameForced (sample_host "loadConfig") = "fn: loadConfig"
  /\ Logger.getCallerNameForced (sample_host "loadConfig") <> "".
Proof.
  assert (call true Minfo (sample_host "loadConfig") false [VStr "x"] []
          = (Returns {| pfn := "loadConfig"; timestamp := "02/11/2026:09:05:59";
                        message := VStr "x"; level := "INFO" |},
             [] ++ [(console_info,
                     Logger.line "02/11/2026:09:05:59" (esc "34") "INFO"
                       "fn: loadConfig" "x")])) as Hcall
    by (vm_compute; reflexivity).
  exact (proj2 (proj2 (proj2 (proj2 (caller_tag_shown _ _ _ _ _ _ _ _ Hcall))))
           "loadConfig" called_from_sample).
Defined.

(** * Further properties of the code *)

(** ** JSON documents *)

Lemma define_property_fresh (k : string) (v : jsval) (props : list (string * jsval)) :
  k ∉ map fst props -> define_property k v props = props ++ [(k, v)].
Proof.
  induction props as [|[k' v'] rest IH]; [done|]. cbn [map fst define_property].
  intros Hk. apply not_elem_of_cons in Hk as [Hne Hrest].
  destruct (String.eqb_spec k k'); [done|]. by rewrite IH.
Qed.

Lemma fold_define_fresh (l acc : list (string * jsval)) :
  NoDup (map fst (acc ++ l)) ->
  fold_left (fun props kv => define_property kv.1 kv.2 props) l acc = acc ++ l.
Proof.
  revert acc. induction l as [|[k v] l IH]; intros acc Hnd.
  - by rewrite app_nil_r.
  - cbn [fold_left fst snd]. rewrite define_property_fresh.
    + rewrite IH; rewrite <- app_assoc; done.
    + rewrite map_app in Hnd. cbn [map fst] in Hnd.
      apply NoDup_app in Hnd as (_ & Hdisj & _). intros Hin.
      apply (Hdisj k Hin). by left.
Qed.

Lemma build_object_distinct (props : list (string * jsval)) :
  NoDup (map fst props) -> build_object props = VObj props.
Proof. intros H. unfold build_object. by rewrite fold_define_fresh. Qed.

(** A JSON document is read back as it is. *)
Lemma is_json_revive (v : jsval) : is_json v = true -> revive v = v.
Proof.
  induction v as [| |b|n|n|s|items IH|props IH|stack message] using jsval_ind;
    try done.
  - cbn [is_json revive]. intros H. f_equal.
    induction IH as [|x l Hx _ IHl]; [done|].
    cbn [forallb] in H. apply andb_prop in H as [H1 H2].
    cbn [map]. by rewrite Hx, IHl.
  - cbn [is_json revive]. intros [Hvals Hkeys]%andb_prop.
    apply bool_decide_eq_true_1 in Hkeys.
    assert (revive_members revive props = props) as ->.
    { clear Hkeys. induction IH as [|[k x] l Hx _ IHl]; [done|].
      cbn [forallb snd] in Hvals, Hx. apply andb_prop in Hvals as [H1 H2].
      rewrite revive_members_cons by (by destruct x).
      by rewrite Hx, IHl. }
    by apply build_object_distinct.
Qed.

Lemma is_json_serializable (v : jsval) : is_json v = true -> serializable v = true.
Proof.
  induction v as [| |b|n|n|s|items IH|props IH|stack message] using jsval_ind;
    try done.
  - cbn [is_json serializable]. intros H.
    induction IH as [|x l Hx _ IHl]; [done|].
    cbn [forallb] in *. apply andb_prop in H as [H1 H2].
    by rewrite Hx, IHl.
  - cbn [is_json serializable]. intros [Hvals _]%andb_prop.
    induction IH as [|[k x] l Hx _ IHl]; [done|].
    cbn [forallb snd] in *. apply andb_prop in Hvals as [H1 H2].
    by rewrite Hx, IHl.
Qed.

(** The property list under construction keeps distinct keys and JSON
    values. *)
Lemma define_property_keeps (k : string) (v : jsval) (props : list (string * jsval)) :
  is_json v = true ->
  forallb (fun kv => is_json kv.2) props = true -> NoDup (map fst props) ->
  forallb (fun kv => is_json kv.2) (define_property k v props) = true
  /\ NoDup (map fst (define_property k v props))
  /\ (forall k', k' ∈ map fst (define_property k v props)
                 <-> k' = k \/ k' ∈ map fst props).
Proof.
  intros Hv. induction props as [|[k' v'] rest IH]; intros Hvals Hnd.
  - cbn. rewrite Hv. split; [done|]. split; [apply NoDup_singleton|].
    intros k'. rewrite elem_of_cons. tauto.
  - cbn [define_property]. cbn [forallb map fst snd] in Hvals, Hnd.
    apply andb_prop in Hvals as [Hv' Hrest]. apply NoDup_cons in Hnd as [Hk' Hnd].
    destruct (String.eqb_spec k k') as [->|Hne].
    + cbn [forallb map fst snd]. rewrite Hv, Hrest. split; [done|].
      split; [by apply NoDup_cons|]. intros k''. rewrite elem_of_cons. tauto.
    + destruct (IH Hrest Hnd) as (IH1 & IH2 & IH3).
      cbn [forallb map fst snd]. rewrite Hv', IH1. split; [done|]. split.
      * apply NoDup_cons. split; [|done]. rewrite IH3. intros [->|Hin]; done.
      * intros k''. rewrite !elem_of_cons, IH3. tauto.
Qed.

Lemma fold_define_keeps (l acc : list (string * jsval)) :
  forallb (fun kv => is_json kv.2) l = true ->
  forallb (fun kv => is_json kv.2) acc = true -> NoDup (map fst acc) ->
  is_json (VObj (fold_left (fun props kv => define_property kv.1 kv.2 props) l acc))
  = true.
Proof.
  revert acc. induction l as [|[k v] l IH]; intros acc Hl Hacc Hnd.
  - cbn [fold_left is_json]. rewrite Hacc. by apply bool_decide_eq_true_2.
  - cbn [forallb snd] in Hl. apply andb_prop in Hl as [Hv Hl].
    cbn [fold_left fst snd].
    destruct (define_property_keeps k v acc Hv Hacc Hnd) as (H1 & H2 & _).
    by apply IH.
Qed.

Lemma build_object_json (members : list (string * jsval)) :
  forallb (fun kv => is_json kv.2) members = true -> is_json (build_object members) = true.
Proof. intros H. unfold build_object. apply fold_define_keeps; [done|done|constructor]. Qed.

(** Whatever the parser returns is a JSON document. *)
Lemma parse_is_json (fuel : nat) :
  (forall s v r, parse_value fuel s = Some (v, r) -> is_json v = true)
  /\ (forall s vs r, parse_elements fuel s = Some (vs, r) -> forallb is_json vs = true)
  /\ (forall s ms r, parse_members fuel s = Some (ms, r) ->
        forallb (fun kv => is_json kv.2) ms = true).
Proof.
  induction fuel as [|fuel (IHv & IHe & IHm)]; [done|].
  split; [|split].
  - intros s v r. cbn [parse_value].
    destruct (skip_ws s) as [|c t]; [done|].
    repeat match goal with
           | |- context [if ?b then _ else _] => destruct b
           | |- context [match strip_prefix ?a ?b with _ => _ end] =>
               destruct (strip_prefix a b)
           | |- context [match parse_chars ?a with _ => _ end] =>
               destruct (parse_chars a) as [[? ?]|]
           | |- context [match skip_ws ?a with _ => _ end] =>
               destruct (skip_ws a)
           | |- context [match parse_number ?a with _ => _ end] =>
               destruct (parse_number a) as [[? ?]|]
           | |- context [match parse_elements fuel ?a with _ => _ end] =>
               let E := fresh "E" in destruct (parse_elements fuel a) as [[? ?]|] eqn:E
           | |- context [match parse_members fuel ?a with _ => _ end] =>
               let E := fresh "E" in destruct (parse_members fuel a) as [[? ?]|] eqn:E
           end;
      try done; intros [= <- <-]; try done.
    + cbn [is_json]. by eapply IHe.
    + apply build_object_json. by eapply IHm.
  - intros s vs r. cbn [parse_elements].
    destruct (parse_value fuel s) as [[v r1]|] eqn:Ev; [|done].
    destruct (skip_ws r1) as [|c t]; [done|].
    destruct (c =? ",")%char.
    + destruct (parse_elements fuel t) as [[vs' r']|] eqn:Ee; [|done].
      intros [= <- <-]. cbn [forallb]. by rewrite (IHv _ _ _ Ev), (IHe _ _ _ Ee).
    + destruct (c =? "]")%char; [|done]. intros [= <- <-]. cbn [forallb].
      by rewrite (IHv _ _ _ Ev).
  - intros s ms r. cbn [parse_members].
    destruct (skip_ws s) as [|c t]; [done|].
    destruct (negb (c =? dquote)%char); [done|].
    destruct (parse_chars t) as [[k r1]|]; [|done].
    destruct (skip_ws r1) as [|c1 r2]; [done|].
    destruct (negb (c1 =? ":")%char); [done|].
    destruct (parse_value fuel r2) as [[v r3]|] eqn:Ev; [|done].
    destruct (skip_ws r3) as [|c2 r4]; [done|].
    destruct (c2 =? ",")%char.
    + destruct (parse_members fuel r4) as [[ms' r']|] eqn:Em; [|done].
      intros [= <- <-]. cbn [forallb snd]. by rewrite (IHv _ _ _ Ev), (IHm _ _ _ Em).
    + destruct (c2 =? "}")%char; [|done]. intros [= <- <-]. cbn [forallb snd].
      by rewrite (IHv _ _ _ Ev).
Qed.

Lemma JSON_parse_is_json (s : string) (v : jsval) :
  JSON_parse s = Returns v -> is_json v = true.
Proof.
  unfold JSON_parse.
  destruct (parse_value _ _) as [[v' r]|] eqn:E; [|done].
  destruct (skip_ws r); [|done]. intros [= <-].
  by eapply (proj1 (parse_is_json _)).
Qed.

Lemma stringify_serializable_array (items : list jsval) (space : nat) :
  forallb serializable items = true ->
  exists content, JSON_stringify (VArr items) space = Returns (Some content).
Proof.
  intros H. unfold JSON_stringify.
  destruct (serializable_serialize (VArr items) H (repeat " "%char (Nat.min space 10)) [])
    as [r Hr].
  rewrite Hr. rewrite serialize_VArr in Hr.
  destruct (serialize_elements _ _ items); [|done].
  cbn [bind] in Hr. apply Returns_inj in Hr as <-. by eexists.
Qed.

(** ** The JSON store: failures, malformed content, any data *)

Lemma fs_writeFile_throws (p content cause : string) (d d' : disk) :
  fs_writeFile p content d = (Throws cause, d') -> d' = d.
Proof.
  unfold fs_writeFile. destruct (String.eqb p ""); [congruence|].
  destruct (d !! p) as [[|]|]; try congruence;
    destruct (d !! path_dirname p) as [[|]|]; congruence.
Qed.

Lemma write_body_throws (p : string) (data : jsval) (ow : bool) (d d' : disk)
    (cause : string) :
  write_body p data ow d = (Throws cause, d') -> d' = d.
Proof.
  unfold write_body, eff_bind, eff_ret, eff_lift, eff_throw. intros H.
  destruct ow.
  - destruct (JSON_stringify _ 2) as [[content|]|]; [| congruence | congruence].
    by apply fs_writeFile_throws in H.
  - rewrite existsFileSync_run in H.
    destruct (negb (negb (String.eqb p "") && bool_decide (is_Some (d !! p)))).
    + destruct (JSON_stringify _ 2) as [[content|]|]; [| congruence | congruence].
      by apply fs_writeFile_throws in H.
    + unfold fs_readFile in H. destruct (String.eqb p "") eqn:Ep; [congruence|].
      destruct (d !! p) as [[c|]|] eqn:Hp; [| congruence | congruence].
      destruct (JSON_parse c) as [parsed|]; [|congruence].
      destruct (JSON_stringify _ 2) as [[content|]|]; [| congruence | congruence].
      by apply fs_writeFile_throws in H.
Qed.

Lemma writeJSONFile_throws (p : string) (data : jsval) (ow : bool) (d d' : disk)
    (e : string) :
  IOF.writeJSONFile p data ow d = (Throws e, d') ->
  exists cause,
    e = "Failed to write JSON to " +:+ p +:+ ": " +:+ cause
    /\ write_body p data ow (ensure_dir (path_dirname p) d) = (Throws cause, d').
Proof.
  rewrite writeJSONFile_unfold. unfold eff_catch, eff_throw.
  destruct (write_body p data ow _) as [[[]|cause] d2]; [done|].
  intros [= <- <-]. by exists cause.
Qed.

Lemma ensure_dir_keeps (dir k : string) (n : node) (d : disk) :
  d !! k = Some n -> ensure_dir dir d !! k = Some n.
Proof.
  intros H. unfold ensure_dir. destruct (d !! dir) eqn:E; [done|].
  rewrite lookup_insert_ne; [done|]. intros ->. congruence.
Qed.

Lemma ensure_dir_there (dir : string) (d : disk) :
  d !! dir = Some Dir -> ensure_dir dir d = d.
Proof. intros H. unfold ensure_dir. by rewrite H. Qed.

Lemma ensure_dir_files (dir k content : string) (d : disk) :
  ensure_dir dir d !! k = Some (File content) -> d !! k = Some (File content).
Proof.
  unfold ensure_dir. destruct (d !! dir) eqn:E; [done|].
  destruct (decide (dir = k)) as [->|Hne].
  - by rewrite lookup_insert_eq.
  - by rewrite lookup_insert_ne.
Qed.

(** X1. A call of [writeJSONFile] that throws has created and changed
    no file: the message starts with [Failed to write JSON to <path>: ],
    every node of the disk is as it was, and every file on the disk
    afterwards was there before, with the same content. *)
Theorem failed_write_keeps_files (p : string) (data : jsval) (ow : bool)
    (d d' : disk) (e : string) :
  IOF.writeJSONFile p data ow d = (Throws e, d') ->
  (exists cause, e = "Failed to write JSON to " +:+ p +:+ ": " +:+ cause)
  /\ (forall k n, d !! k = Some n -> d' !! k = Some n)
  /\ (forall k content, d' !! k = Some (File content) -> d !! k = Some (File content)).
Proof.
  intros H. apply writeJSONFile_throws in H as (cause & -> & H).
  apply write_body_throws in H as ->.
  split; [by exists cause|]. split.
  - intros k n. apply ensure_dir_keeps.
  - intros k content. apply ensure_dir_files.
Qed.

Lemma failed_write_keeps_files_witness :
  (exists cause,
     "Failed to write JSON to /srv/new/a.json: Do not know how to serialize a BigInt"
     = "Failed to write JSON to " +:+ "/srv/new/a.json" +:+ ": " +:+ cause)
  /\ (forall k n, sample_disk !! k = Some n ->
        (<["/srv/new" := Dir]> sample_disk) !! k = Some n)
  /\ (forall k content,
        (<["/srv/new" := Dir]> sample_disk) !! k = Some (File content) ->
        sample_disk !! k = Some (File content)).
Proof.
  apply (failed_write_keeps_files "/srv/new/a.json" (VBigInt 7) true sample_disk).
  vm_compute. reflexivity.
Defined.



Lemma revive_json_items (items : list jsval) :
  forallb is_json items = true -> map revive items = items.
Proof.
  induction items as [|x l IH]; [done|]. cbn [forallb map].
  intros [Hx Hl]%andb_prop. by rewrite (is_json_revive x Hx), IH.
Qed.

Lemma serializable_json_items (items : list jsval) :
  forallb is_json items = true -> forallb serializable items = true.
Proof.
  induction items as [|x l IH]; [done|]. cbn [forallb].
  intros [Hx Hl]%andb_prop. by rewrite (is_json_serializable x Hx), IH.
Qed.

Lemma as_array_serializable (data : jsval) :
  serializable data = true -> forallb serializable (IOF.as_array data) = true.
Proof. destruct data; cbn [IOF.as_array forallb]; rewrite ?andb_true_r; done. Qed.

Lemma as_array_json (data : jsval) :
  is_json data = true -> map revive (IOF.as_array data) = IOF.as_array data.
Proof.
  intros H. destruct data; try done; cbn [IOF.as_array map].
  - by apply revive_json_items.
  - by rewrite (is_json_revive _ H).
Qed.

(** X3. An append keeps what the file holds: when the file holds a JSON
    array and [data] has no [BigInt] inside, [writeJSONFile] without
    [overwrite] completes and the file then reads as the items it held,
    unchanged and in their order, followed by the items of [data] as JSON
    renders them (by the items of [data] themselves when they are JSON
    documents). *)
Theorem append_keeps_earlier_items (d : disk) (p c : string) (items : list jsval)
    (data : jsval) :
  p <> "" -> d !! p = Some (File c) ->
  (forall c', d !! path_dirname p <> Some (File c')) ->
  JSON_parse c = Returns (VArr items) -> serializable data = true ->
  exists d',
    IOF.writeJSONFile p data false d = (Returns tt, d')
    /\ IOF.readJSONFile p d' = (Returns (items ++ map revive (IOF.as_array data)), d')
    /\ (is_json data = true ->
        IOF.readJSONFile p d' = (Returns (items ++ IOF.as_array data), d')).
Proof.
  intros Hne Hp Hdir Hparse Hser.
  pose proof (JSON_parse_is_json _ _ Hparse) as Hjson. cbn [is_json] in Hjson.
  assert (forallb serializable (items ++ IOF.as_array data) = true) as Hall.
  { rewrite forallb_app, (serializable_json_items _ Hjson).
    by rewrite (as_array_serializable _ Hser). }
  destruct (stringify_serializable_array _ 2 Hall) as [content Hcontent].
  exists (<[p := File content]> (ensure_dir (path_dirname p) d)).
  assert (IOF.readJSONFile p (<[p := File content]> (ensure_dir (path_dirname p) d))
          = (Returns (items ++ map revive (IOF.as_array data)),
             <[p := File content]> (ensure_dir (path_dirname p) d))) as Hread.
  { apply (readJSONFile_array p content); [done| by rewrite lookup_insert_eq |].
    rewrite (stringify_array_parses _ 2 _ Hcontent), map_app.
    by rewrite (revive_json_items _ Hjson). }
  split; [|split].
  - by apply (writeJSONFile_append p data (VArr items) c content).
  - done.
  - intros Hdata. by rewrite <- (as_array_json _ Hdata) at 1.
Qed.

Lemma append_keeps_earlier_items_witness :
  exists d',
    IOF.writeJSONFile "/srv/list.json" (VArr [VStr "x"; VNull]) false sample_disk
    = (Returns tt, d')
    /\ IOF.readJSONFile "/srv/list.json" d'
       = (Returns ([VNum 1; VNum 2] ++ map revive [VStr "x"; VNull]), d')
    /\ IOF.readJSONFile "/srv/list.json" d'
       = (Returns ([VNum 1; VNum 2] ++ [VStr "x"; VNull]), d').
Proof.
  destruct (append_keeps_earlier_items sample_disk "/srv/list.json" "[1, 2]"
              [VNum 1; VNum 2] (VArr [VStr "x"; VNull]))
    as (d' & H1 & H2 & H3).
  - discriminate.
  - vm_compute. reflexivity.
  - intros c' H. vm_compute in H. discriminate H.
  - vm_compute. reflexivity.
  - reflexivity.
  - exists d'. split; [exact H1|]. split; [exact H2|]. apply H3. reflexivity.
Defined.



(** ** Reading a file as text *)

Lemma readTextFile_run (p : string) (d : disk) :
  IOF.readTextFile p d
  = match (if String.eqb p "" then None else d !! p) with
    | Some (File content) => (Returns content, d)
    | _ => (Throws ("Failed to read file at " +:+ p), d)
    end.
Proof.
  unfold IOF.readTextFile, eff_catch, eff_bind, eff_ret, eff_throw, fs_readFile.
  destruct (String.eqb p ""); [done|]. by destruct (d !! p) as [[|]|].
Qed.

(** X5. [readJSONFile] returns exactly the arrays that [JSON.parse] finds
    in the text that [readTextFile] returns for the same path; and
    [readTextFile] never changes the disk: it returns the content of a
    file, and for anything else (a path that names nothing, a directory)
    it throws [Failed to read file at <path>], whatever the cause. *)
Theorem readJSONFile_reads_text (d : disk) (p : string) :
  (forall items,
     IOF.readJSONFile p d = (Returns items, d)
     <-> exists content, IOF.readTextFile p d = (Returns content, d)
                         /\ JSON_parse content = Returns (VArr items))
  /\ (IOF.readTextFile p d = (Throws ("Failed to read file at " +:+ p), d)
      \/ exists content, p <> "" /\ d !! p = Some (File content)
                         /\ IOF.readTextFile p d = (Returns content, d)).
Proof.
  split.
  - intros items. rewrite readTextFile_run.
    unfold IOF.readJSONFile, eff_catch, eff_bind, eff_ret, eff_lift, fs_existsSync,
      fs_readFile, eff_throw.
    destruct (String.eqb p "") eqn:Ep.
    { cbn [negb andb]. split; [done|]. by intros (content & H & _). }
    cbn [negb andb]. destruct (d !! p) as [[c|]|] eqn:Hp.
    + rewrite bool_decide_eq_true_2 by eauto. cbn [negb]. rewrite Hp.
      split.
      * intros H. exists c. split; [done|].
        destruct (JSON_parse c) as [[]|]; try done. congruence.
      * intros (content & [= <-] & ->). done.
    + rewrite bool_decide_eq_true_2 by eauto. cbn [negb]. rewrite Hp.
      split; [done|]. by intros (content & H & _).
    + rewrite bool_decide_eq_false_2 by (by intros [? ?]). cbn [negb].
      split; [done|]. by intros (content & H & _).
  - rewrite readTextFile_run. destruct (String.eqb_spec p "") as [->|Hne]; [by left|].
    destruct (d !! p) as [[c|]|] eqn:Hp; [right; by exists c | by left | by left].
Qed.

(** ** Existence, directories, removal *)


Lemma mkdir_run (dirPath : string) (d : disk) :
  dirPath <> "" -> IOF.mkdir dirPath d = (Returns tt, ensure_dir dirPath d).
Proof.
  intros Hne. destruct (d !! dirPath) as [n|] eqn:E; [|by apply mkdir_absent].
  unfold IOF.mkdir, eff_catch, eff_bind, ensure_dir.
  rewrite existsFileSync_run, E, (eqb_nonempty dirPath Hne).
  by rewrite bool_decide_eq_true_2 by eauto.
Qed.

(** X7. [mkdir] on the empty path throws, with the prefix
    [Failed to create directory at ] and the error of the host behind it.
    On a path that names something it completes and changes nothing, also
    when the path names a regular file.  Whenever it completes, the path
    exists afterwards, every node that was on the disk is unchanged, no
    file has been created, and a second call changes nothing. *)
Theorem mkdir_ensures_path (dirPath : string) (d : disk) :
  IOF.mkdir "" d
  = (Throws ("Failed to create directory at " +:+ "" +:+ ":  " +:+ ENOENT "mkdir" ""), d)
  /\ (dirPath <> "" -> is_Some (d !! dirPath) -> IOF.mkdir dirPath d = (Returns tt, d))
  /\ (forall d',
        IOF.mkdir dirPath d = (Returns tt, d') ->
        IOF.existsFileSync dirPath d' = (Returns true, d')
        /\ (forall k n, d !! k = Some n -> d' !! k = Some n)
        /\ (forall k content,
              d' !! k = Some (File content) -> d !! k = Some (File content))
        /\ IOF.mkdir dirPath d' = (Returns tt, d')).
Proof.
  split; [done|]. split.
  - intros Hne [n Hn]. rewrite mkdir_run by done. unfold ensure_dir. by rewrite Hn.
  - intros d'. destruct (String.eqb_spec dirPath "") as [->|Hne]; [done|].
    rewrite mkdir_run by done. intros [= <-].
    assert (is_Some (ensure_dir dirPath d !! dirPath)) as Hthere.
    { unfold ensure_dir. destruct (d !! dirPath) eqn:E; [by rewrite E|].
      by rewrite lookup_insert_eq. }
    split; [|split; [|split]].
    + rewrite existsFileSync_run, (eqb_nonempty dirPath Hne).
      by rewrite bool_decide_eq_true_2.
    + intros k n. apply ensure_dir_keeps.
    + intros k content. apply ensure_dir_files.
    + rewrite mkdir_run by done. f_equal. unfold ensure_dir at 1.
      by destruct Hthere as [n ->].
Qed.

Lemma mkdir_ensures_path_witness :
  IOF.mkdir "/srv/list.json" sample_disk = (Returns tt, sample_disk)
  /\ IOF.existsFileSync "/srv/new" (<["/srv/new" := Dir]> sample_disk)
     = (Returns true, <["/srv/new" := Dir]> sample_disk)
  /\ IOF.mkdir "/srv/new" (<["/srv/new" := Dir]> sample_disk)
     = (Returns tt, <["/srv/new" := Dir]> sample_disk).
Proof.
  destruct (mkdir_ensures_path "/srv/list.json" sample_disk) as (_ & H2 & _).
  destruct (mkdir_ensures_path "/srv/new" sample_disk) as (_ & _ & H3).
  assert (IOF.mkdir "/srv/new" sample_disk
          = (Returns tt, <["/srv/new" := Dir]> sample_disk)) as Hrun
    by (vm_compute; reflexivity).
  destruct (H3 _ Hrun) as (H4 & _ & _ & H5).
  split; [|split; [exact H4 | exact H5]].
  apply H2; [discriminate|]. vm_compute. eauto.
Defined.

Lemma rm_run (dirPath : string) (d : disk) :
  IOF.rm dirPath d
  = (Returns tt,
     if negb (String.eqb dirPath "") && bool_decide (is_Some (d !! dirPath))
     then filter (fun entry => below dirPath entry.1 = false) d
     else d).
Proof.
  unfold IOF.rm, eff_catch, eff_bind, eff_ret. rewrite existsFileSync_run.
  destruct (String.eqb dirPath "") eqn:E; [done|]. cbn [negb andb].
  destruct (bool_decide (is_Some (d !! dirPath))); [|done].
  unfold fs_rmSync. by rewrite E.
Qed.

Lemma below_self (p : string) : below p p = true.
Proof. unfold below. by rewrite String.eqb_refl. Qed.

(** X8. [rm] never throws.  When the path names something, the path and
    every path below it name nothing afterwards, and every other path is
    as it was; when the path names nothing, the disk is unchanged.  In
    both cases the path does not exist afterwards and a second call
    changes nothing. *)
Theorem rm_removes_subtree (dirPath : string) (d : disk) :
  exists d',
    IOF.rm dirPath d = (Returns tt, d')
    /\ IOF.existsFileSync dirPath d' = (Returns false, d')
    /\ (forall k, below dirPath k = false -> d' !! k = d !! k)
    /\ (dirPath <> "" -> is_Some (d !! dirPath) ->
        forall k, below dirPath k = true -> d' !! k = None)
    /\ (dirPath = "" \/ d !! dirPath = None -> d' = d)
    /\ IOF.rm dirPath d' = (Returns tt, d').
Proof.
  eexists. split; [apply rm_run|].
  destruct (String.eqb_spec dirPath "") as [->|Hne].
  { cbn [negb andb]. repeat split; done. }
  cbn [negb andb]. destruct (d !! dirPath) as [n|] eqn:Hp.
  - rewrite bool_decide_eq_true_2 by eauto.
    set (d' := filter _ d).
    assert (d' !! dirPath = None) as Hgone.
    { apply map_lookup_filter_None. right. intros x _. cbn [fst].
      by rewrite below_self. }
    split; [|split; [|split; [|split]]].
    + rewrite existsFileSync_run, Hgone.
      rewrite bool_decide_eq_false_2 by (by intros [? ?]). by rewrite andb_false_r.
    + intros k Hk. destruct (d !! k) as [x|] eqn:Hx.
      * by apply map_lookup_filter_Some.
      * apply map_lookup_filter_None. by left.
    + intros _ _ k Hk. apply map_lookup_filter_None. right. intros x _. cbn [fst].
      by rewrite Hk.
    + intros [?|?]; done.
    + rewrite rm_run, Hgone.
      rewrite bool_decide_eq_false_2 by (by intros [? ?]). by rewrite andb_false_r.
  - rewrite bool_decide_eq_false_2 by (by intros [? ?]).
    split; [|split; [|split; [|split]]].
    + rewrite existsFileSync_run, Hp.
      rewrite bool_decide_eq_false_2 by (by intros [? ?]). by rewrite andb_false_r.
    + done.
    + by intros _ [? ?].
    + done.
    + rewrite rm_run, Hp.
      rewrite bool_decide_eq_false_2 by (by intros [? ?]). by rewrite andb_false_r.
Qed.

Lemma rm_removes_subtree_witness :
  exists d',
    IOF.rm "/srv" sample_disk = (Returns tt, d')
    /\ IOF.existsFileSync "/srv" d' = (Returns false, d')
    /\ (forall k, below "/srv" k = false -> d' !! k = sample_disk !! k)
    /\ (forall k, below "/srv" k = true -> d' !! k = None)
    /\ IOF.rm "/srv" d' = (Returns tt, d').
Proof.
  destruct (rm_removes_subtree "/srv" sample_disk) as (d' & H1 & H2 & H3 & H4 & _ & H6).
  exists d'. split; [exact H1|]. split; [exact H2|]. split; [exact H3|].
  split; [|exact H6]. apply H4; [discriminate|]. vm_compute. eauto.
Defined.

(** ** Overwriting *)

Lemma fs_writeFile_returns (p content : string) (d d' : disk) :
  fs_writeFile p content d = (Returns tt, d') ->
  p <> "" /\ d !! p <> Some Dir /\ d !! path_dirname p = Some Dir
  /\ d' = <[p := File content]> d.
Proof.
  unfold fs_writeFile. destruct (String.eqb_spec p "") as [|Hne]; [done|].
  destruct (d !! p) as [[c|]|] eqn:Hp; [| done |];
    (destruct (d !! path_dirname p) as [[|]|] eqn:Hdir; [done| |done]);
    intros [= <-]; done.
Qed.

(** A call of [write_body] that completes ends with a write that
    completes, on the disk it started from. *)
Lemma write_body_writes (p : string) (data : jsval) (ow : bool) (d d' : disk) :
  write_body p data ow d = (Returns tt, d') ->
  exists content, fs_writeFile p content d = (Returns tt, d').
Proof.
  unfold write_body, eff_bind, eff_ret, eff_lift. intros H.
  destruct ow.
  - destruct (JSON_stringify _ 2) as [[content|]|]; try done. by exists content.
  - rewrite existsFileSync_run in H.
    destruct (negb (negb (String.eqb p "") && bool_decide (is_Some (d !! p)))).
    + destruct (JSON_stringify _ 2) as [[content|]|]; try done. by exists content.
    + unfold fs_readFile in H. destruct (String.eqb p ""); [done|].
      destruct (d !! p) as [[c|]|]; try done.
      destruct (JSON_parse c) as [parsed|]; [|done].
      destruct (JSON_stringify _ 2) as [[content|]|]; try done. by exists content.
Qed.

(** After a write that completed, the path can be written again. *)
Lemma written_path_writable (p : string) (data : jsval) (ow : bool) (d d1 : disk) :
  IOF.writeJSONFile p data ow d = (Returns tt, d1) ->
  p <> "" /\ ensure_dir (path_dirname p) d !! p <> Some Dir
  /\ ensure_dir (path_dirname p) d !! path_dirname p = Some Dir
  /\ exists content, d1 = <[p := File content]> (ensure_dir (path_dirname p) d).
Proof.
  intros H. apply writeJSONFile_inv, write_body_writes in H as [content H].
  apply fs_writeFile_returns in H as (H1 & H2 & H3 & H4). eauto.
Qed.

(** X9. A write with [overwrite] forgets what the file held: after any
    call of [writeJSONFile] on the path that completed, writing [data]
    with [overwrite] completes (for data without a [BigInt] inside) and
    leaves the disk that the same write leaves when it is made first. *)
Theorem overwrite_forgets (d d1 : disk) (p : string) (earlier data : jsval) (ow : bool) :
  IOF.writeJSONFile p earlier ow d = (Returns tt, d1) ->
  serializable data = true ->
  exists d2,
    IOF.writeJSONFile p data true d1 = (Returns tt, d2)
    /\ IOF.writeJSONFile p data true d = (Returns tt, d2)
    /\ IOF.writeJSONFile p data true d2 = (Returns tt, d2).
Proof.
  intros H Hser. apply written_path_writable in H as (Hne & Hp & Hdir & c1 & ->).
  destruct (stringify_serializable_array _ 2 (as_array_serializable _ Hser))
    as [content Hcontent].
  set (d0 := ensure_dir (path_dirname p) d) in *.
  assert (forall e : disk,
            e !! path_dirname p = Some Dir -> e !! p <> Some Dir ->
            IOF.writeJSONFile p data true e = (Returns tt, <[p := File content]> e))
    as Hrun.
  { intros e He Hpe. apply writeJSONFile_ok. rewrite (ensure_dir_there _ _ He).
    rewrite (write_body_replace p data content) by done.
    by apply fs_writeFile_ok. }
  assert (path_dirname p <> p) as Hself.
  { intros Heq. rewrite Heq in Hdir. by rewrite Hdir in Hp. }
  exists (<[p := File content]> d0). split; [|split].
  - rewrite (Hrun (<[p := File c1]> d0)).
    + by rewrite insert_insert_eq.
    + by rewrite lookup_insert_ne.
    + by rewrite lookup_insert_eq.
  - apply writeJSONFile_ok. fold d0.
    rewrite (write_body_replace p data content) by done.
    by apply fs_writeFile_ok.
  - rewrite (Hrun (<[p := File content]> d0)).
    + by rewrite insert_insert_eq.
    + by rewrite lookup_insert_ne.
    + by rewrite lookup_insert_eq.
Qed.

Lemma overwrite_forgets_witness :
  exists d2,
    IOF.writeJSONFile "/srv/list.json" (VArr [VStr "new"]) true
      (IOF.writeJSONFile "/srv/list.json" (VNum 3) false sample_disk).2
    = (Returns tt, d2)
    /\ IOF.writeJSONFile "/srv/list.json" (VArr [VStr "new"]) true sample_disk
       = (Returns tt, d2)
    /\ IOF.writeJSONFile "/srv/list.json" (VArr [VStr "new"]) true d2 = (Returns tt, d2).
Proof.
  apply (overwrite_forgets sample_disk _ "/srv/list.json" (VNum 3) (VArr [VStr "new"])
           false).
  - vm_compute. reflexivity.
  - reflexivity.
Defined.

(** ** Removing the file of a store *)



(** ** Appending in two calls *)

Lemma is_json_as_array (data : jsval) :
  is_json data = true -> forallb is_json (IOF.as_array data) = true.
Proof. destruct data; cbn [IOF.as_array forallb]; rewrite ?andb_true_r; done. Qed.

(** X11. Two appends leave the file that one append of both leaves: when
    the file holds a JSON array and [first] and [second] are JSON
    documents, appending [first] and then [second] completes and gives the
    same disk as appending at once the array of the items of [first]
    followed by the items of [second]. *)
Theorem two_appends_as_one (d : disk) (p c : string) (items : list jsval)
    (first second : jsval) :
  p <> "" -> d !! p = Some (File c) ->
  (forall c', d !! path_dirname p <> Some (File c')) ->
  JSON_parse c = Returns (VArr items) ->
  is_json first = true -> is_json second = true ->
  exists d1 d2,
    IOF.writeJSONFile p first false d = (Returns tt, d1)
    /\ IOF.writeJSONFile p second false d1 = (Returns tt, d2)
    /\ IOF.writeJSONFile p (VArr (IOF.as_array first ++ IOF.as_array second)) false d
       = (Returns tt, d2)
    /\ IOF.readJSONFile p d2
       = (Returns (items ++ IOF.as_array first ++ IOF.as_array second), d2).
Proof.
  intros Hne Hp Hdir Hparse Hfirst Hsecond.
  pose proof (JSON_parse_is_json _ _ Hparse) as Hitems. cbn [is_json] in Hitems.
  pose proof (is_json_as_array _ Hfirst) as Hf.
  pose proof (is_json_as_array _ Hsecond) as Hs.
  assert (forallb is_json (items ++ IOF.as_array first) = true) as H1
    by (by rewrite forallb_app, Hitems, Hf).
  assert (forallb is_json ((items ++ IOF.as_array first) ++ IOF.as_array second) = true)
    as H2 by (by rewrite forallb_app, H1, Hs).
  destruct (stringify_serializable_array _ 2 (serializable_json_items _ H1))
    as [c1 Hc1].
  destruct (stringify_serializable_array _ 2 (serializable_json_items _ H2))
    as [c2 Hc2].
  assert (JSON_parse c1 = Returns (VArr (items ++ IOF.as_array first))) as Hparse1.
  { rewrite (stringify_array_parses _ 2 _ Hc1). by rewrite (revive_json_items _ H1). }
  assert (JSON_parse c2
          = Returns (VArr ((items ++ IOF.as_array first) ++ IOF.as_array second)))
    as Hparse2.
  { rewrite (stringify_array_parses _ 2 _ Hc2). by rewrite (revive_json_items _ H2). }
  set (d0 := ensure_dir (path_dirname p) d).
  assert (d0 !! path_dirname p = Some Dir) as Hd0 by (by apply ensure_dir_lookup_dir).
  assert (path_dirname p <> p) as Hself.
  { intros Heq. rewrite Heq in Hdir. by destruct (Hdir c). }
  exists (<[p := File c1]> d0), (<[p := File c2]> d0).
  split; [|split; [|split]].
  - by apply (writeJSONFile_append p first (VArr items) c c1).
  - pose proof (writeJSONFile_append p second (VArr (items ++ IOF.as_array first))
                  c1 c2 (<[p := File c1]> d0) Hne) as Hstep.
    rewrite ensure_dir_there, insert_insert_eq in Hstep
      by (by rewrite lookup_insert_ne).
    apply Hstep; [by rewrite lookup_insert_eq | |done|done].
    intros c'. by rewrite lookup_insert_ne, Hd0.
  - apply (writeJSONFile_append p _ (VArr items) c c2); [done..|].
    cbn [kept IOF.as_array]. by rewrite app_assoc.
  - rewrite (app_assoc items).
    apply (readJSONFile_array p c2); [done| by rewrite lookup_insert_eq |done].
Qed.

Lemma two_appends_as_one_witness :
  exists d1 d2,
    IOF.writeJSONFile "/srv/list.json" (VNum 3) false sample_disk = (Returns tt, d1)
    /\ IOF.writeJSONFile "/srv/list.json" (VArr [VNum 4; VNum 5]) false d1
       = (Returns tt, d2)
    /\ IOF.writeJSONFile "/srv/list.json"
         (VArr (IOF.as_array (VNum 3) ++ IOF.as_array (VArr [VNum 4; VNum 5]))) false
         sample_disk = (Returns tt, d2)
    /\ IOF.readJSONFile "/srv/list.json" d2
       = (Returns ([VNum 1; VNum 2] ++ IOF.as_array (VNum 3)
                   ++ IOF.as_array (VArr [VNum 4; VNum 5])), d2).
Proof.
  apply (two_appends_as_one sample_disk "/srv/list.json" "[1, 2]" [VNum 1; VNum 2]
           (VNum 3) (VArr [VNum 4; VNum 5])).
  - discriminate.
  - vm_compute. reflexivity.
  - intros c' H. vm_compute in H. discriminate H.
  - vm_compute. reflexivity.
  - reflexivity.
  - reflexivity.
Defined.

(** ** Buffers and base64 *)

Lemma bytes_of_string_of_bytes (bytes : list Byte.byte) :
  bytes_of_string (string_of_bytes bytes) = bytes.
Proof.
  unfold bytes_of_string, string_of_bytes. rewrite lit_str, map_map.
  induction bytes as [|b l IH]; [done|]. cbn [map].
  by rewrite byte_of_ascii_of_byte, IH.
Qed.

Lemma string_of_bytes_of_string (s : string) :
  string_of_bytes (bytes_of_string s) = s.
Proof.
  unfold bytes_of_string, string_of_bytes. rewrite map_map.
  rewrite <- (str_lit s) at 2. f_equal.
  induction (lit s) as [|c l IH]; [done|]. cbn [map].
  by rewrite ascii_of_byte_of_ascii, IH.
Qed.

Lemma sextets_ok : forallb sextet_ok (seq 0 64) = true.
Proof. vm_compute. reflexivity. Qed.

Lemma base64_value_char (s : N) :
  (s < 64)%N ->
  base64_value (base64_char s) = Some s /\ (base64_char s =? "=")%char = false.
Proof.
  intros Hs. pose proof sextets_ok as H.
  rewrite forallb_forall in H. specialize (H (N.to_nat s)).
  unfold sextet_ok in H. rewrite N2Nat.id in H.
  destruct (base64_value (base64_char s)) as [v|].
  - assert (In (N.to_nat s) (seq 0 64)) as Hin by (apply in_seq; lia).
    apply H in Hin. apply andb_prop in Hin as [Hv Hpad].
    apply N.eqb_eq in Hv. apply negb_true_iff in Hpad. by subst v.
  - assert (In (N.to_nat s) (seq 0 64)) as Hin by (apply in_seq; lia).
    by apply H in Hin.
Qed.

Lemma byte_of_to_N (b : Byte.byte) : byte_of_N (Byte.to_N b) = b.
Proof. unfold byte_of_N. by rewrite Byte.of_to_N. Qed.

Lemma to_N_lt (b : Byte.byte) : (Byte.to_N b < 256)%N.
Proof. pose proof (Byte.to_N_bounded b). lia. Qed.

(** The four sextets of three bytes, and the bytes back from them. *)
Lemma sextets_of_bytes (A B C : N) :
  (A < 256)%N -> (B < 256)%N -> (C < 256)%N ->
  let n := (A * 65536 + B * 256 + C)%N in
  let s1 := (n / 262144)%N in
  let s2 := ((n / 4096) mod 64)%N in
  let s3 := ((n / 64) mod 64)%N in
  let s4 := (n mod 64)%N in
  (s1 < 64 /\ s2 < 64 /\ s3 < 64 /\ s4 < 64
   /\ s1 * 4 + s2 / 16 = A /\ (s2 mod 16) * 16 + s3 / 4 = B
   /\ (s3 mod 4) * 64 + s4 = C)%N.
Proof.
  intros HA HB HC n s1 s2 s3 s4. subst n s1 s2 s3 s4.
  repeat split; zify; Z.to_euclidean_division_equations; lia.
Qed.

(** Induction on a list, three elements at a time. *)
Lemma list_ind_by_three {A : Type} (P : list A -> Prop) :
  P [] -> (forall a, P [a]) -> (forall a b, P [a; b]) ->
  (forall a b c rest, P rest -> P (a :: b :: c :: rest)) ->
  forall l, P l.
Proof.
  intros H0 H1 H2 H3 l.
  assert (forall n l, (length l <= n)%nat -> P l) as Hall; [|by apply (Hall (length l))].
  clear l. induction n as [|n IH]; intros l Hl.
  - destruct l; [done|]. cbn in Hl. lia.
  - destruct l as [|a [|b [|c rest]]]; [done..|].
    apply H3, IH. cbn [length] in Hl. lia.
Qed.

Lemma base64_decode_encode (bytes : list Byte.byte) :
  base64_decode (base64 bytes) = Some bytes.
Proof.
  induction bytes as [|a|a b|a b c rest IH] using list_ind_by_three.
  - done.
  - cbn [base64].
    destruct (sextets_of_bytes (Byte.to_N a) 0 0 (to_N_lt a) ltac:(lia) ltac:(lia))
      as (H1 & H2 & _ & _ & HA & _ & _).
    rewrite !N.mul_0_l, !N.add_0_r in H1, H2, HA.
    cbn [base64_decode].
    rewrite (proj1 (base64_value_char _ H1)), (proj1 (base64_value_char _ H2)).
    change ("=" =? "=")%char with true. cbv iota. by rewrite HA, byte_of_to_N.
  - cbn [base64].
    destruct (sextets_of_bytes (Byte.to_N a) (Byte.to_N b) 0 (to_N_lt a) (to_N_lt b)
                ltac:(lia)) as (H1 & H2 & H3 & _ & HA & HB & _).
    rewrite !N.add_0_r in H1, H2, H3, HA, HB.
    cbn [base64_decode].
    rewrite (proj1 (base64_value_char _ H1)), (proj1 (base64_value_char _ H2)).
    change ("=" =? "=")%char with true. cbv iota.
    rewrite (proj2 (base64_value_char _ H3)), (proj1 (base64_value_char _ H3)).
    by rewrite HA, HB, !byte_of_to_N.
  - cbn [base64].
    destruct (sextets_of_bytes (Byte.to_N a) (Byte.to_N b) (Byte.to_N c) (to_N_lt a)
                (to_N_lt b) (to_N_lt c)) as (H1 & H2 & H3 & H4 & HA & HB & HC).
    cbn [base64_decode].
    rewrite (proj1 (base64_value_char _ H1)), (proj1 (base64_value_char _ H2)).
    rewrite (proj2 (base64_value_char _ H4)).
    rewrite (proj1 (base64_value_char _ H3)), (proj1 (base64_value_char _ H4)), IH.
    by rewrite HA, HB, HC, !byte_of_to_N.
Qed.

Lemma length_base64 (bytes : list Byte.byte) :
  length (base64 bytes) = (4 * ((length bytes + 2) / 3))%nat.
Proof.
  induction bytes as [|a|a b|a b c rest IH] using list_ind_by_three; try done.
  cbn [base64 length]. rewrite IH.
  replace (S (S (S (length rest))) + 2)%nat with (1 * 3 + (length rest + 2))%nat by lia.
  rewrite Nat.div_add_l by lia. lia.
Qed.

(** ** Saving a buffer, downloading, converting *)

Lemma str_cons_nonempty (c : ascii) (t : text) : str (c :: t) <> "".
Proof. done. Qed.

Lemma path_resolve_nonempty (cwd : string) (args : list string) :
  path_resolve cwd args <> "".
Proof.
  unfold path_resolve. destruct (resolve_loop _ _) as [resolvedPath [|]].
  - apply str_cons_nonempty.
  - destruct (normalizeString _ _); [done|apply str_cons_nonempty].
Qed.

Lemma path_normalize_nonempty (p : string) : path_normalize p <> "".
Proof.
  unfold path_normalize. destruct (lit p) as [|c t]; [done|].
  destruct (normalizeString _ _) as [|c' t'].
  - destruct (starts_with_slash _); [done|]. by destruct (starts_with_slash _).
  - destruct (starts_with_slash (c :: t)); [apply str_cons_nonempty|].
    destruct (starts_with_slash _); apply str_cons_nonempty.
Qed.

Lemma path_join_nonempty (args : list string) : path_join args <> "".
Proof.
  unfold path_join. destruct (filter _ _); [done|apply path_normalize_nonempty].
Qed.

Lemma hash_nonempty (bytes : list Byte.byte) :
  bytes <> [] ->
  IOF.calculateHashByBuffer (ABuffer bytes) = Returns (SHA256.hex (SHA256.digest bytes))
  /\ IOF.calculateSizeByBuffer (ABuffer bytes) = Returns (length bytes).
Proof. by destruct bytes. Qed.





Lemma mkdir_throws (dirPath e : string) (d d' : disk) :
  IOF.mkdir dirPath d = (Throws e, d') -> d' = d.
Proof.
  destruct (String.eqb_spec dirPath "") as [->|Hne].
  - by intros [= _ <-].
  - by rewrite mkdir_run.
Qed.

(** X13. When [saveBufferToFile] throws, it has created and changed no
    file: every node of the disk is as it was and every file on the disk
    afterwards was there before, with the same content.  On an empty
    buffer the error is [Buffer cannot be empty], thrown before anything
    is done and without the prefix of the function, and the disk is
    exactly as it was; on any other buffer the message starts with
    [Failed to set file location: ]. *)
Theorem saveBufferToFile_failure (cwd : string) (data : FileType.FileData.t)
    (d d' : disk) (e : string) :
  IOF.saveBufferToFile cwd data d = (Throws e, d') ->
  (forall k n, d !! k = Some n -> d' !! k = Some n)
  /\ (forall k content, d' !! k = Some (File content) -> d !! k = Some (File content))
  /\ (FileType.FileData.filedata data = [] -> e = "Buffer cannot be empty" /\ d' = d)
  /\ (FileType.FileData.filedata data <> [] ->
      exists cause, e = "Failed to set file location: " +:+ cause).
Proof.
  unfold IOF.saveBufferToFile.
  destruct (FileType.FileData.filedata data) as [|b bytes] eqn:Hdata.
  - intros [= <- <-]. done.
  - unfold eff_bind at 1, eff_lift at 1.
    rewrite (proj1 (hash_nonempty (b :: bytes) ltac:(done))).
    unfold eff_bind at 1, eff_lift at 1.
    rewrite (proj2 (hash_nonempty (b :: bytes) ltac:(done))).
    fold (save_target cwd data). unfold eff_catch, eff_bind, eff_throw.
    rewrite mkdir_run by apply path_dirname_nonempty.
    unfold fs_writeFileBuffer.
    destruct (fs_writeFile _ _ _) as [[[]|cause] d2] eqn:E; [done|].
    intros [= <- <-]. apply fs_writeFile_throws in E as ->.
    split; [intros k n; apply ensure_dir_keeps|].
    split; [intros k content; apply ensure_dir_files|]. split; [done|].
    intros _. by exists cause.
Qed.

Lemma saveBufferToFile_failure_witness :
  (forall k n, sample_disk !! k = Some n -> (<["/" := Dir]> sample_disk) !! k = Some n)
  /\ (forall k content,
        (<["/" := Dir]> sample_disk) !! k = Some (File content) ->
        sample_disk !! k = Some (File content))
  /\ exists cause,
       "Failed to set file location: EISDIR: illegal operation on a directory, open '/srv'"
       = "Failed to set file location: " +:+ cause.
Proof.
  destruct (saveBufferToFile_failure "/srv" misplaced_upload sample_disk
              (<["/" := Dir]> sample_disk)
              "Failed to set file location: EISDIR: illegal operation on a directory, open '/srv'")
    as (H1 & H2 & _ & H4).
  - vm_compute. reflexivity.
  - split; [exact H1|]. split; [exact H2|]. apply H4. discriminate.
Defined.

Lemma fileToGenerativePath_run (fileName content : string) (d : disk) :
  fileName <> "" -> d !! fileName = Some (File content) ->
  IOF.fileToGenerativePath fileName d
  = (Returns {| GenerativePath.inlineData :=
                  {| GenerativePath.InlineData.data :=
                       str (base64 (bytes_of_string content));
                     GenerativePath.InlineData.mimeType := mimeType fileName |} |}, d).
Proof.
  intros Hne Hp.
  unfold IOF.fileToGenerativePath, eff_catch, eff_bind, stringified, eff_catch,
    fs_readFileBuffer, eff_bind, fs_readFile, eff_ret.
  by rewrite (eqb_nonempty _ Hne), Hp.
Qed.

(** X14. What [saveBufferToFile] has saved, [fileToGenerativePath] reads
    back: called on the [fileuri] of the returned metadata it completes,
    leaves the disk as it is, and its [data] is the [inlineData] of the
    metadata. *)
Theorem saved_file_converts_back (cwd : string) (data : FileType.FileData.t)
    (d d' : disk) (r : FileType.FileMetadata.t) :
  IOF.saveBufferToFile cwd data d = (Returns r, d') ->
  exists g,
    IOF.fileToGenerativePath (FileType.FileMetadata.fileuri r) d' = (Returns g, d')
    /\ GenerativePath.InlineData.data (GenerativePath.inlineData g)
       = FileType.FileMetadata.inlineData r
    /\ GenerativePath.InlineData.mimeType (GenerativePath.inlineData g)
       = mimeType (FileType.FileMetadata.fileuri r).
Proof.
  unfold IOF.saveBufferToFile.
  destruct (FileType.FileData.filedata data) as [|b bytes] eqn:Hdata; [done|].
  unfold eff_bind at 1, eff_lift at 1.
  rewrite (proj1 (hash_nonempty (b :: bytes) ltac:(done))).
  unfold eff_bind at 1, eff_lift at 1.
  rewrite (proj2 (hash_nonempty (b :: bytes) ltac:(done))).
  fold (save_target cwd data). unfold eff_catch, eff_bind, eff_throw, eff_ret.
  rewrite mkdir_run by apply path_dirname_nonempty.
  unfold fs_writeFileBuffer.
  destruct (fs_writeFile _ _ _) as [[[]|cause] d2] eqn:E; [|done].
  intros [= <- <-]. apply fs_writeFile_inv in E as ->.
  cbn [FileType.FileMetadata.fileuri FileType.FileMetadata.inlineData].
  eexists. split.
  - apply fileToGenerativePath_run; [apply path_resolve_nonempty|].
    by rewrite lookup_insert_eq.
  - cbn [GenerativePath.inlineData GenerativePath.InlineData.data
         GenerativePath.InlineData.mimeType].
    by rewrite bytes_of_string_of_bytes.
Qed.

Lemma saved_file_converts_back_witness :
  exists g,
    IOF.fileToGenerativePath "/srv/uploads/a.png"
      (IOF.saveBufferToFile "/srv" sample_upload sample_disk).2
    = (Returns g, (IOF.saveBufferToFile "/srv" sample_upload sample_disk).2)
    /\ GenerativePath.InlineData.data (GenerativePath.inlineData g) = "YWJj"
    /\ GenerativePath.InlineData.mimeType (GenerativePath.inlineData g) = "image/png".
Proof.
  apply (saved_file_converts_back "/srv" sample_upload sample_disk _
           (saved_metadata "/srv" sample_upload)).
  vm_compute. reflexivity.
Defined.

Lemma fs_writeFile_present (p content : string) (d : disk) :
  p <> "" -> d !! p <> Some Dir -> d !! path_dirname p = Some Dir ->
  fs_writeFile p content d = (Returns tt, <[p := File content]> d).
Proof. apply fs_writeFile_ok. Qed.

Lemma Error_toString_ENOENT (syscall p : string) :
  Error_toString "Error" (ENOENT syscall p) = "Error: " +:+ ENOENT syscall p.
Proof. reflexivity. Qed.

(** X15. [downloadFile] on a body that is not empty, into a directory
    that is there: the call returns, the disk differs only by the file at
    [saveTo/<last component of the address>], which holds the bytes of the
    body, and the metadata describe it: digest, size, type of the file
    name and a base64 text that decodes to the body. *)
Theorem downloadFile_saves_body (bytes : list Byte.byte)
    (data : FileType.FileDownloadRequest.t) (d : disk) :
  bytes <> [] ->
  d !! download_target data <> Some Dir ->
  d !! path_dirname (download_target data) = Some Dir ->
  exists r,
    IOF.downloadFile (Body bytes) data d
    = (Returns r, <[download_target data := File (string_of_bytes bytes)]> d)
    /\ FileType.FileMetadata.filename r
       = path_basename (FileType.FileDownloadRequest.fileuri data)
    /\ FileType.FileMetadata.fileuri r = download_target data
    /\ IOF.calculateHashByBuffer (ABuffer bytes)
       = Returns (FileType.FileMetadata.filehash r)
    /\ FileType.FileMetadata.filesize r = length bytes
    /\ FileType.FileMetadata.mimeType r
       = mimeType (path_basename (FileType.FileDownloadRequest.fileuri data))
    /\ base64_decode (lit (FileType.FileMetadata.inlineData r)) = Some bytes.
Proof.
  intros Hbytes Hp Hdir. destruct (hash_nonempty _ Hbytes) as [Hhash Hsize].
  eexists. split.
  - unfold IOF.downloadFile, eff_catch, eff_bind at 1, eff_ret at 1.
    fold (download_target data).
    unfold eff_bind at 1, stringified at 1, eff_catch, fs_writeFileBuffer.
    rewrite fs_writeFile_present; [| apply path_join_nonempty |done..].
    unfold eff_bind, stringified, eff_catch, eff_lift, eff_ret.
    rewrite Hhash, Hsize. reflexivity.
  - cbn [FileType.FileMetadata.fileuri FileType.FileMetadata.filename
         FileType.FileMetadata.filehash FileType.FileMetadata.filesize
         FileType.FileMetadata.mimeType FileType.FileMetadata.inlineData].
    repeat split; try done. by rewrite lit_str, base64_decode_encode.
Qed.

Lemma downloadFile_saves_body_witness :
  exists r,
    IOF.downloadFile (Body (bytes_of_string "abc")) sample_request sample_disk
    = (Returns r, <["/srv/clip.mp4" := File "abc"]> sample_disk)
    /\ FileType.FileMetadata.filename r = "clip.mp4"
    /\ FileType.FileMetadata.fileuri r = "/srv/clip.mp4"
    /\ IOF.calculateHashByBuffer (ABuffer (bytes_of_string "abc"))
       = Returns (FileType.FileMetadata.filehash r)
    /\ FileType.FileMetadata.filesize r = 3%nat
    /\ FileType.FileMetadata.mimeType r = "video/mp4"
    /\ base64_decode (lit (FileType.FileMetadata.inlineData r))
       = Some (bytes_of_string "abc").
Proof.
  apply (downloadFile_saves_body (bytes_of_string "abc") sample_request sample_disk).
  - discriminate.
  - intros H. vm_compute in H. discriminate H.
  - vm_compute. reflexivity.
Defined.

(** X16. The failures of [downloadFile], each with the prefix
    [Failed to download file: ] before the text of the error.  A
    rejection of the request changes nothing.  The directory is not
    created: when it is not there the write fails and the disk is as it
    was.  An empty body is refused only after it has been written: the
    call throws [Error: Buffer cannot be empty] behind the prefix and
    leaves an empty file at the target. *)
Theorem downloadFile_failures (data : FileType.FileDownloadRequest.t) (d : disk) :
  (forall name message,
     IOF.downloadFile (Rejected name message) data d
     = (Throws ("Failed to download file: " +:+ Error_toString name message), d))
  /\ (forall bytes,
        d !! download_target data <> Some Dir ->
        d !! path_dirname (download_target data) = None ->
        IOF.downloadFile (Body bytes) data d
        = (Throws ("Failed to download file: Error: "
                   +:+ ENOENT "open" (download_target data)), d))
  /\ (d !! download_target data <> Some Dir ->
      d !! path_dirname (download_target data) = Some Dir ->
      IOF.downloadFile (Body []) data d
      = (Throws "Failed to download file: Error: Buffer cannot be empty",
         <[download_target data := File ""]> d)).
Proof.
  split; [done|]. split.
  - intros bytes Hp Hdir.
    unfold IOF.downloadFile, eff_catch, eff_bind at 1, eff_ret at 1.
    fold (download_target data).
    unfold eff_bind at 1, stringified at 1, eff_catch, fs_writeFileBuffer, fs_writeFile.
    rewrite (eqb_nonempty (download_target data) (path_join_nonempty _)).
    rewrite Hdir. unfold eff_throw.
    by destruct (d !! download_target data) as [[|]|].
  - intros Hp Hdir.
    unfold IOF.downloadFile, eff_catch, eff_bind at 1, eff_ret at 1.
    fold (download_target data).
    unfold eff_bind at 1, stringified at 1, eff_catch, fs_writeFileBuffer.
    rewrite fs_writeFile_present; [| apply path_join_nonempty |done..].
    reflexivity.
Qed.

Lemma downloadFile_failures_witness :
  IOF.downloadFile (Rejected "TypeError" "fetch failed") sample_request sample_disk
  = (Throws "Failed to download file: TypeError: fetch failed", sample_disk)
  /\ IOF.downloadFile (Body (bytes_of_string "abc"))
       {| FileType.FileDownloadRequest.fileuri := "https://example.org/media/clip.mp4";
          FileType.FileDownloadRequest.saveTo := "/srv/new" |} sample_disk
     = (Throws "Failed to download file: Error: ENOENT: no such file or directory, open '/srv/new/clip.mp4'",
        sample_disk)
  /\ IOF.downloadFile (Body []) sample_request sample_disk
     = (Throws "Failed to download file: Error: Buffer cannot be empty",
        <["/srv/clip.mp4" := File ""]> sample_disk).
Proof.
  split; [|split].
  - apply (proj1 (downloadFile_failures sample_request sample_disk)).
  - apply (proj1 (proj2 (downloadFile_failures
             {| FileType.FileDownloadRequest.fileuri := "https://example.org/media/clip.mp4";
                FileType.FileDownloadRequest.saveTo := "/srv/new" |} sample_disk))).
    + intros H. vm_compute in H. discriminate H.
    + vm_compute. reflexivity.
  - apply (proj2 (proj2 (downloadFile_failures sample_request sample_disk))).
    + intros H. vm_compute in H. discriminate H.
    + vm_compute. reflexivity.
Defined.

(** X17. [fileToGenerativePath] never changes the disk.  On a file it
    returns the type of the file name and the base64 text of the content:
    four characters for every three bytes, started or complete, which
    decode to the bytes of the file.  On a path that names nothing it
    throws [Failed to convert file to generative path: Error: ] followed by
    the error of the host. *)
Theorem fileToGenerativePath_outcome (fileName : string) (d : disk) :
  (forall content,
     fileName <> "" -> d !! fileName = Some (File content) ->
     exists g,
       IOF.fileToGenerativePath fileName d = (Returns g, d)
       /\ GenerativePath.InlineData.mimeType (GenerativePath.inlineData g)
          = mimeType fileName
       /\ base64_decode (lit (GenerativePath.InlineData.data (GenerativePath.inlineData g)))
          = Some (bytes_of_string content)
       /\ String.length (GenerativePath.InlineData.data (GenerativePath.inlineData g))
          = (4 * ((String.length content + 2) / 3))%nat)
  /\ (d !! fileName = None ->
      IOF.fileToGenerativePath fileName d
      = (Throws ("Failed to convert file to generative path: Error: "
                 +:+ ENOENT "open" fileName), d)).
Proof.
  split.
  - intros content Hne Hp. eexists. split; [by apply fileToGenerativePath_run|].
    cbn [GenerativePath.inlineData GenerativePath.InlineData.data
         GenerativePath.InlineData.mimeType].
    split; [done|]. rewrite lit_str. split; [apply base64_decode_encode|].
    rewrite <- length_lit, lit_str, length_base64.
    unfold bytes_of_string. by rewrite length_map, length_lit.
  - intros Hp.
    unfold IOF.fileToGenerativePath, eff_catch, eff_bind, stringified, eff_catch,
      fs_readFileBuffer, eff_bind, fs_readFile, eff_throw.
    rewrite Hp. by destruct (String.eqb fileName "").
Qed.

Lemma fileToGenerativePath_outcome_witness :
  (exists g,
     IOF.fileToGenerativePath "/srv/list.json" sample_disk = (Returns g, sample_disk)
     /\ GenerativePath.InlineData.mimeType (GenerativePath.inlineData g)
        = "application/json"
     /\ base64_decode (lit (GenerativePath.InlineData.data (GenerativePath.inlineData g)))
        = Some (bytes_of_string "[1, 2]")
     /\ String.length (GenerativePath.InlineData.data (GenerativePath.inlineData g))
        = 8%nat)
  /\ IOF.fileToGenerativePath "/srv/none.bin" sample_disk
     = (Throws "Failed to convert file to generative path: Error: ENOENT: no such file or directory, open '/srv/none.bin'",
        sample_disk).
Proof.
  split.
  - apply (proj1 (fileToGenerativePath_outcome "/srv/list.json" sample_disk) "[1, 2]").
    + discriminate.
    + vm_compute. reflexivity.
  - apply (proj2 (fileToGenerativePath_outcome "/srv/none.bin" sample_disk)).
    vm_compute. reflexivity.
Defined.

(** ** The MIME resolver: what it recognises *)

Lemma switch_cases (ext dflt : string) (cases : list (string * string)) :
  switch ext cases dflt = dflt \/ In (ext, switch ext cases dflt) cases.
Proof.
  induction cases as [|[label value] rest IH]; [by left|]. cbn [switch].
  destruct (String.eqb_spec ext label) as [->|Hne].
  - right. by left.
  - destruct IH as [IH|IH]; [by left|]. right. by right.
Qed.

Lemma mime_labels_plain :
  forallb (fun kv => plain_extension kv.1) mime_cases = true.
Proof. vm_compute. reflexivity. Qed.

(** X18. [mimeType] answers with a type other than
    [application/octet-stream] only for a name whose text after the last
    dot is a label of its table, as it is written there: one to four
    lowercase letters or digits.  An extension with an uppercase letter,
    a slash or any other character, or more than four characters long, is
    never recognised. *)
Theorem mimeType_recognises_plain_extensions (fileName : string) :
  mimeType fileName <> "application/octet-stream" ->
  In (extension fileName, mimeType fileName) mime_cases
  /\ plain_extension (extension fileName) = true.
Proof.
  unfold mimeType. intros Hne.
  destruct (switch_cases (extension fileName) "application/octet-stream" mime_cases)
    as [H|H]; [done|].
  split; [done|]. pose proof mime_labels_plain as Hall.
  rewrite forallb_forall in Hall. apply (Hall _ H).
Qed.

Lemma mimeType_recognises_plain_extensions_witness :
  In (extension "backup.tar.7z", mimeType "backup.tar.7z") mime_cases
  /\ plain_extension (extension "backup.tar.7z") = true.
Proof.
  apply (mimeType_recognises_plain_extensions "backup.tar.7z"). discriminate.
Defined.

(** ** Time: the two timestamps *)

Lemma collect_from (parts : list (string * string)) (m : gmap string string)
    (name : string) :
  fold_left (fun m tv => <[tv.1 := tv.2]> m) parts m !! name
  = match last_value name parts with
    | Some v => Some v
    | None => m !! name
    end.
Proof.
  revert m. induction parts as [|[type value] rest IH]; intros m; [done|].
  cbn [fold_left last_value fst snd]. rewrite IH.
  destruct (last_value name rest); [done|].
  destruct (String.eqb_spec type name) as [->|Hne].
  - by rewrite lookup_insert_eq.
  - by rewrite lookup_insert_ne.
Qed.

Lemma collect_lookup (parts : list (string * string)) (name : string) :
  Time.collect parts !! name = last_value name parts.
Proof.
  unfold Time.collect. rewrite collect_from. by destruct (last_value name parts).
Qed.

Lemma check_required_inv (required : list string) (dateParts : gmap string string) :
  Time.check_required required dateParts = Returns tt ->
  forallb (fun part => negb (Time.falsy (dateParts !! part))) required = true.
Proof.
  induction required as [|part rest IH]; [done|]. cbn [forallb Time.check_required].
  destruct (Time.falsy (dateParts !! part)); [done|]. apply IH.
Qed.

Lemma check_required_first (before after : list string) (name : string)
    (dateParts : gmap string string) :
  Forall (fun n => Time.falsy (dateParts !! n) = false) before ->
  Time.falsy (dateParts !! name) = true ->
  Time.check_required (before ++ name :: after) dateParts
  = Throws ("Missing date part: " +:+ name).
Proof.
  intros Hbefore Hname.
  induction Hbefore as [|n before Hn _ IH]; cbn [app Time.check_required].
  - by rewrite Hname.
  - by rewrite Hn.
Qed.

Lemma truthy_value (x : option string) (v : string) :
  x = Some v -> v <> "" -> Time.falsy x = false.
Proof. intros -> Hv. cbn. by apply String.eqb_neq. Qed.

(** X19. The two timestamps are built from the last part of each type
    that the formatter gave: when the last [year], [month], [day],
    [hour], [minute] and [second] parts are there and not empty,
    [getTimeToLogFormat] returns [day/month/year:hour:minute:second] and
    [getCurrentTimeToSaveString] returns
    [year-month-dayThour-minute-second], with no letter [Z] at its end. *)
Theorem timestamps_from_parts (parts : list (string * string))
    (year month day hour minute second : string) :
  last_value "year" parts = Some year -> last_value "month" parts = Some month ->
  last_value "day" parts = Some day -> last_value "hour" parts = Some hour ->
  last_value "minute" parts = Some minute -> last_value "second" parts = Some second ->
  year <> "" -> month <> "" -> day <> "" -> hour <> "" -> minute <> "" ->
  second <> "" ->
  Time.getTimeToLogFormat (Returns parts)
  = Returns (day +:+ "/" +:+ month +:+ "/" +:+ year +:+ ":" +:+ hour +:+ ":"
             +:+ minute +:+ ":" +:+ second)
  /\ Time.getCurrentTimeToSaveString (Returns parts)
     = Returns (year +:+ "-" +:+ month +:+ "-" +:+ day +:+ "T" +:+ hour +:+ "-"
                +:+ minute +:+ "-" +:+ second).
Proof.
  intros Hy Hmo Hd Hh Hmi Hs Ny Nmo Nd Nh Nmi Ns.
  assert (Time.formatDateToParts (Returns parts) = Returns (Time.collect parts)) as Hparts.
  { unfold Time.formatDateToParts. cbn [bind].
    rewrite check_required_ok; [done|]. cbn [forallb Time.requiredParts].
    rewrite !collect_lookup.
    rewrite (truthy_value _ _ Hy Ny), (truthy_value _ _ Hmo Nmo),
      (truthy_value _ _ Hd Nd), (truthy_value _ _ Hh Nh),
      (truthy_value _ _ Hmi Nmi), (truthy_value _ _ Hs Ns). done. }
  unfold Time.getTimeToLogFormat, Time.getCurrentTimeToSaveString.
  rewrite Hparts. cbn [bind].
  unfold Time.logFormat, Time.formatDateToSaveString, Time.part.
  rewrite !collect_lookup, Hy, Hmo, Hd, Hh, Hmi, Hs. done.
Qed.

Lemma timestamps_from_parts_witness :
  Time.getTimeToLogFormat (Returns sample_parts) = Returns "02/11/2026:09:05:59"
  /\ Time.getCurrentTimeToSaveString (Returns sample_parts)
     = Returns "2026-11-02T09-05-59".
Proof.
  apply (timestamps_from_parts sample_parts "2026" "11" "02" "09" "05" "59");
    solve [reflexivity | discriminate].
Defined.

(** X20. The failures of the two timestamps.  Both throw what the
    formatter throws behind [Failed to format date: ].  When a required
    part is missing or empty, both throw
    [Failed to format date: Missing date part: <name>] for the first such
    part in the order year, month, day, hour, minute, second.  And when
    one of them returns, every required part was there and not empty: no
    timestamp shows the text [undefined]. *)
Theorem timestamps_report_missing_part (parts : list (string * string)) :
  (forall message,
     Time.getTimeToLogFormat (Throws message)
     = Throws ("Failed to format date: " +:+ message)
     /\ Time.getCurrentTimeToSaveString (Throws message)
        = Throws ("Failed to format date: " +:+ message))
  /\ (forall before name after,
        Time.requiredParts = before ++ name :: after ->
        Forall (fun n => Time.falsy (last_value n parts) = false) before ->
        Time.falsy (last_value name parts) = true ->
        Time.getTimeToLogFormat (Returns parts)
        = Throws ("Failed to format date: Missing date part: " +:+ name)
        /\ Time.getCurrentTimeToSaveString (Returns parts)
           = Throws ("Failed to format date: Missing date part: " +:+ name))
  /\ (forall s,
        Time.getTimeToLogFormat (Returns parts) = Returns s
        \/ Time.getCurrentTimeToSaveString (Returns parts) = Returns s ->
        forall name, In name Time.requiredParts ->
          exists value, last_value name parts = Some value /\ value <> "").
Proof.
  split; [done|]. split.
  - intros before name after Hrequired Hbefore Hname.
    assert (Time.formatDateToParts (Returns parts)
            = Throws ("Failed to format date: Missing date part: " +:+ name)) as H.
    { unfold Time.formatDateToParts. cbn [bind]. rewrite Hrequired.
      rewrite (check_required_first before after name); [done| |by rewrite collect_lookup].
      eapply Forall_impl; [exact Hbefore|]. intros n Hn. by rewrite collect_lookup. }
    unfold Time.getTimeToLogFormat, Time.getCurrentTimeToSaveString. by rewrite H.
  - intros s Hs name Hin.
    assert (Time.check_required Time.requiredParts (Time.collect parts) = Returns tt)
      as Hcheck.
    { unfold Time.getTimeToLogFormat, Time.getCurrentTimeToSaveString,
        Time.formatDateToParts in Hs. cbn [bind] in Hs.
      destruct (Time.check_required _ _) as [[]|]; [done|]. by destruct Hs. }
    apply check_required_inv in Hcheck. rewrite forallb_forall in Hcheck.
    specialize (Hcheck name Hin). rewrite collect_lookup in Hcheck.
    destruct (last_value name parts) as [value|]; [|done].
    exists value. split; [done|]. intros ->. done.
Qed.

Lemma timestamps_report_missing_part_witness :
  Time.getTimeToLogFormat (Returns [("year", "2026"); ("month", "11"); ("day", "02");
                                    ("hour", ""); ("second", "59")])
  = Throws "Failed to format date: Missing date part: hour"
  /\ Time.getCurrentTimeToSaveString
       (Returns [("year", "2026"); ("month", "11"); ("day", "02");
                 ("hour", ""); ("second", "59")])
     = Throws "Failed to format date: Missing date part: hour".
Proof.
  apply (proj1 (proj2 (timestamps_report_missing_part
                         [("year", "2026"); ("month", "11"); ("day", "02");
                          ("hour", ""); ("second", "59")]))
           ["year"; "month"; "day"] "hour" ["minute"; "second"]).
  - reflexivity.
  - repeat constructor.
  - reflexivity.
Defined.

(** ** Time: parsing a date *)

(** X21. [parseDate] never returns an invalid date.  When it returns,
    the time value of the result is a number: the very [Date] it was
    given, the date of the timestamp it was given, which is then at most
    8.64e15 milliseconds away from the epoch, or the date the host parses
    from the string.  When it throws, the message names the kind of the
    input: an invalid [Date], an invalid timestamp, a string that cannot
    be parsed (quoted in the message), or an input of another type. *)
Theorem parseDate_returns_valid_dates (Date_parse : string -> option Z)
    (input : date_input) :
  (forall date,
     Time.parseDate Date_parse input = Returns date ->
     exists t,
       getTime date = Some t
       /\ (forall given, input = IDate given -> date = given)
       /\ (forall n, input = IValue (VNum n) -> t = n /\ Z.abs n <= 8640000000000000)
       /\ (forall s, input = IValue (VStr s) ->
             Date_parse s = Some t /\ Z.abs t <= 8640000000000000))
  /\ (forall e,
        Time.parseDate Date_parse input = Throws e ->
        match input with
        | IDate given => getTime given = None /\ e = "Invalid Date object provided"
        | IValue (VNum n) =>
            8640000000000000 < Z.abs n /\ e = "Invalid timestamp provided"
        | IValue (VStr s) =>
            e = "Unable to parse date string: " +:+ dq +:+ s +:+ dq
        | IValue _ =>
            e = "Input must be a Date object, timestamp number, or valid date string"
        end).
Proof.
  split.
  - intros date. destruct input as [[[t|]]|v]; [| done |].
    + intros [= <-]. exists t. repeat split; try done; intros; by simplify_eq.
    + destruct v; try done; cbn [Time.parseDate getTime].
      * unfold TimeClip. destruct (Z.leb_spec (Z.abs n) 8640000000000000); [|done].
        intros [= <-]. exists n. repeat split; try done; intros; by simplify_eq.
      * destruct (Date_parse s) as [t|] eqn:E; [|done]. cbn [mbind option_bind].
        unfold TimeClip. destruct (Z.leb_spec (Z.abs t) 8640000000000000); [|done].
        intros [= <-]. exists t. repeat split; try done; intros; by simplify_eq.
  - intros e. destruct input as [[[t|]]|v]; cbn [Time.parseDate getTime];
      [done| by intros [= <-] |].
    destruct v; try (by intros [= <-]); cbn [Time.parseDate getTime].
    + unfold TimeClip. destruct (Z.leb_spec (Z.abs n) 8640000000000000); [done|].
      by intros [= <-].
    + destruct (Date_parse s ≫= TimeClip); [done|]. by intros [= <-].
Qed.

Lemma parseDate_returns_valid_dates_witness :
  exists t,
    getTime {| getTime := Some 1762074359000 |} = Some t
    /\ t = 1762074359000 /\ Z.abs 1762074359000 <= 8640000000000000.
Proof.
  destruct (proj1 (parseDate_returns_valid_dates (fun _ => None)
                     (IValue (VNum 1762074359000)))
              {| getTime := Some 1762074359000 |} eq_refl) as (t & H1 & _ & H3 & _).
  exists t. split; [exact H1|]. exact (H3 _ eq_refl).
Defined.

(** ** The terminal: completion and the environment *)

Lemma completer_cases (line : string) :
  Terminal.completer line
  = (match startsWith line "help", startsWith line "exit", startsWith line "clear" with
     | false, false, false => ["help"; "exit"; "clear"]
     | h, e, c =>
         (if h then ["help"] else []) ++ (if e then ["exit"] else [])
           ++ (if c then ["clear"] else [])
     end, line).
Proof.
  unfold Terminal.completer, Terminal.completions.
  rewrite !filter_cons, filter_nil.
  destruct (startsWith line "help"), (startsWith line "exit"),
    (startsWith line "clear"); reflexivity.
Qed.

(** X22. The completer of the terminal always proposes something: it
    returns the line as it is, together with the commands among [help],
    [exit] and [clear] that start with the line, in this order, and all
    three of them when none does. *)
Theorem completer_proposes (line : string) :
  (Terminal.completer line).2 = line
  /\ (Terminal.completer line).1 <> []
  /\ (forall c, In c (Terminal.completer line).1 -> In c Terminal.completions)
  /\ ((exists c, In c Terminal.completions /\ startsWith line c = true) ->
      forall c, In c (Terminal.completer line).1
                <-> In c Terminal.completions /\ startsWith line c = true)
  /\ ((forall c, In c Terminal.completions -> startsWith line c = false) ->
      (Terminal.completer line).1 = Terminal.completions).
Proof.
  rewrite completer_cases. unfold Terminal.completions. cbn [fst snd].
  destruct (startsWith line "help") eqn:Eh, (startsWith line "exit") eqn:Ee,
    (startsWith line "clear") eqn:Ec; cbn [app];
    (split; [done|]); (split; [done|]);
    (split; [intros c Hc; cbn [In] in *; tauto|]);
    (split; [intros Hsome c | intros Hno]); try reflexivity.
  all: try (pose proof (Hno "help" ltac:(cbn; tauto)); congruence).
  all: try (pose proof (Hno "exit" ltac:(cbn; tauto)); congruence).
  all: try (pose proof (Hno "clear" ltac:(cbn; tauto)); congruence).
  all: try (cbn [In]; split;
            [ intros Hc; repeat (destruct Hc as [<-|Hc]; [tauto|]); done
            | intros [Hc Hs]; repeat (destruct Hc as [<-|Hc]; [tauto || congruence|]);
              done ]).
  destruct Hsome as (c' & Hc & Hs). cbn [In] in Hc.
  destruct Hc as [<-|[<-|[<-|[]]]]; congruence.
Qed.

Lemma completer_proposes_witness :
  (Terminal.completer "e").2 = "e"
  /\ (Terminal.completer "e").1 <> []
  /\ (forall c, In c (Terminal.completer "e").1
                <-> In c Terminal.completions /\ startsWith "e" c = true)
  /\ (Terminal.completer "q").1 = ["help"; "exit"; "clear"].
Proof.
  destruct (completer_proposes "e") as (H1 & H2 & _ & H4 & _).
  destruct (completer_proposes "q") as (_ & _ & _ & _ & H5).
  split; [exact H1|]. split; [exact H2|]. split.
  - apply H4. exists "exit". split; [cbn; tauto | reflexivity].
  - apply H5. intros c Hc. cbn [In Terminal.completions] in Hc.
    destruct Hc as [<-|[<-|[<-|[]]]]; reflexivity.
Defined.

Lemma envParser_fold (env : list (string * string)) (candidates : list string)
    (found : Terminal.EnvParsed) :
  fold_left
    (fun found key =>
       match assoc key env with
       | Some value =>
           if String.eqb value "" then found
           else {| Terminal.keys := Terminal.keys found ++ [key];
                   Terminal.values := Terminal.values found ++ [value] |}
       | None => found
       end) candidates found
  = {| Terminal.keys := Terminal.keys found ++ (kept_variables env candidates).*1;
       Terminal.values := Terminal.values found ++ (kept_variables env candidates).*2 |}.
Proof.
  revert found. induction candidates as [|key rest IH]; intros found.
  - cbn. rewrite !app_nil_r. by destruct found.
  - cbn [fold_left]. rewrite IH. unfold kept_variables. cbn [omap list_omap].
    destruct (assoc key env) as [value|]; [|done].
    destruct (String.eqb value ""); [done|].
    cbn [Terminal.keys Terminal.values fmap list_fmap fst snd].
    by rewrite <- !app_assoc.
Qed.

Lemma assoc_key (key value : string) (table : list (string * string)) :
  assoc key table = Some value -> key ∈ table.*1.
Proof.
  induction table as [|[k v] rest IH]; [done|]. cbn [assoc fmap list_fmap fst].
  destruct (String.eqb_spec key k) as [->|Hne].
  - intros _. by left.
  - intros H. right. by apply IH.
Qed.

(** X23. [envParser] returns the variables of the environment whose name
    starts with the prefix and whose value is not empty, and only these:
    [keys] and [values] have the same length, the value at a position is
    the value of the variable whose name is at this position, and every
    such variable has a position. *)
Theorem envParser_pairs (env : list (string * string)) (prefix : string) :
  length (Terminal.keys (Terminal.envParser env prefix))
  = length (Terminal.values (Terminal.envParser env prefix))
  /\ (forall (i : nat) key value,
        Terminal.keys (Terminal.envParser env prefix) !! i = Some key ->
        Terminal.values (Terminal.envParser env prefix) !! i = Some value ->
        startsWith prefix key = true /\ value <> "" /\ assoc key env = Some value)
  /\ (forall key value,
        assoc key env = Some value -> value <> "" -> startsWith prefix key = true ->
        exists i : nat,
          Terminal.keys (Terminal.envParser env prefix) !! i = Some key
          /\ Terminal.values (Terminal.envParser env prefix) !! i = Some value).
Proof.
  unfold Terminal.envParser. rewrite envParser_fold.
  cbn [Terminal.keys Terminal.values app].
  set (candidates := filter _ _).
  split; [by rewrite !length_fmap|]. split.
  - intros i key value Hk Hv. rewrite list_lookup_fmap in Hk, Hv.
    destruct (kept_variables env candidates !! i) as [[k v]|] eqn:Hi; [|done].
    cbn in Hk, Hv. injection Hk as ->. injection Hv as ->.
    apply list_elem_of_lookup_2, list_elem_of_omap in Hi as (key' & Hin & Hkept).
    destruct (assoc key' env) as [value'|] eqn:Ha; [|done].
    destruct (String.eqb_spec value' "") as [|Hne]; [done|].
    injection Hkept as -> ->.
    apply list_elem_of_filter in Hin as [Hstarts _].
    split; [by apply Is_true_true|done].
  - intros key value Ha Hne Hstarts.
    assert ((key, value) ∈ kept_variables env candidates) as Hin.
    { apply list_elem_of_omap. exists key. split.
      - apply list_elem_of_filter. split; [by apply Is_true_true|].
        by apply (assoc_key key value).
      - rewrite Ha. by rewrite (proj2 (String.eqb_neq _ _) Hne). }
    apply list_elem_of_lookup in Hin as [i Hi]. exists i.
    by rewrite !list_lookup_fmap, Hi.
Qed.

Lemma envParser_pairs_witness :
  exists i : nat,
    Terminal.keys (Terminal.envParser
                     [("PATH", "/bin"); ("APP_KEY", "k1"); ("APP_EMPTY", "");
                      ("APP_URL", "u")] "APP_") !! i = Some "APP_URL"
    /\ Terminal.values (Terminal.envParser
                          [("PATH", "/bin"); ("APP_KEY", "k1"); ("APP_EMPTY", "");
                           ("APP_URL", "u")] "APP_") !! i = Some "u".
Proof.
  apply (proj2 (proj2 (envParser_pairs
                         [("PATH", "/bin"); ("APP_KEY", "k1"); ("APP_EMPTY", "");
                          ("APP_URL", "u")] "APP_")) "APP_URL" "u");
    solve [reflexivity | discriminate].
Defined.

(** ** The logger: when a call completes, and what the tag can be *)

Lemma serialize_elements_inv (gap indent : text) (items : list jsval)
    (partial : list text) :
  serialize_elements gap indent items = Returns partial ->
  Forall (fun x => exists sx, serialize gap indent x = Returns sx) items.
Proof.
  revert partial. induction items as [|x l IH]; intros partial; [constructor|].
  cbn [serialize_elements].
  destruct (serialize gap indent x) as [sx|] eqn:Ex; [|done]. cbn [bind].
  destruct (serialize_elements gap indent l) as [rest|] eqn:El; [|done].
  intros _. constructor; [by exists sx | by apply (IH rest)].
Qed.

Lemma serialize_members_inv (gap indent : text) (props : list (string * jsval))
    (partial : list text) :
  serialize_members gap indent props = Returns partial ->
  Forall (fun kv => exists sx, serialize gap indent kv.2 = Returns sx) props.
Proof.
  revert partial. induction props as [|[k x] l IH]; intros partial; [constructor|].
  cbn [serialize_members].
  destruct (serialize gap indent x) as [sx|] eqn:Ex; [|done]. cbn [bind].
  destruct (serialize_members gap indent l) as [rest|] eqn:El; [|done].
  intros _. constructor; [by exists sx | by apply (IH rest)].
Qed.

(** What [JSON.stringify] accepts has no [BigInt] inside. *)
Lemma serialize_serializable (v : jsval) :
  forall gap indent r, serialize gap indent v = Returns r -> serializable v = true.
Proof.
  induction v as [| |b|n|n|s|items IH|props IH|stack message] using jsval_ind;
    intros gap indent r; try done.
  - rewrite serialize_VArr.
    destruct (serialize_elements gap (indent ++ gap) items) as [partial|] eqn:E;
      [|done].
    intros _. apply serialize_elements_inv in E. cbn [serializable].
    induction IH as [|x l Hx _ IHl]; [done|].
    apply Forall_cons in E as [[sx Hsx] El]. cbn [forallb].
    by rewrite (Hx _ _ _ Hsx), IHl.
  - rewrite serialize_VObj.
    destruct (serialize_members gap (indent ++ gap) props) as [partial|] eqn:E;
      [|done].
    intros _. apply serialize_members_inv in E. cbn [serializable].
    induction IH as [|[k x] l Hx _ IHl]; [done|].
    apply Forall_cons in E as [[sx Hsx] El]. cbn [forallb snd] in *.
    by rewrite (Hx _ _ _ Hsx), IHl.
Qed.

Lemma render_renderable (a : jsval) (piece : option string) :
  Logger.render a = Returns piece -> renderable a = true.
Proof.
  unfold renderable, Logger.render, JSON_stringify.
  destruct a as [| |b|n|n|s|items|props|stack message]; try done.
  - cbn [typeof_object instanceofError negb orb].
    destruct (serialize _ _ (VArr items)) as [r|] eqn:E; [|done].
    intros _. by apply serialize_serializable in E.
  - cbn [typeof_object instanceofError negb orb].
    destruct (serialize _ _ (VObj props)) as [r|] eqn:E; [|done].
    intros _. by apply serialize_serializable in E.
Qed.

Lemma render_all_renderable (args : list jsval) (pieces : list (option string)) :
  Logger.render_all args = Returns pieces -> forallb renderable args = true.
Proof.
  revert pieces. induction args as [|a rest IH]; intros pieces; [done|].
  cbn [Logger.render_all forallb].
  destruct (Logger.render a) as [piece|] eqn:Ea; [|done]. cbn [bind].
  destruct (Logger.render_all rest) as [others|] eqn:Er; [|done].
  intros _. by rewrite (render_renderable _ _ Ea), (IH others).
Qed.

Lemma time_has_date_parts (h : host) (currentTime : string) :
  Time.getTimeToLogFormat (formatted h) = Returns currentTime -> has_date_parts h.
Proof.
  unfold Time.getTimeToLogFormat, Time.formatDateToParts, has_date_parts.
  destruct (formatted h) as [parts|]; [|done]. cbn [bind].
  destruct (Time.check_required _ _) as [[]|] eqn:E; [|done].
  intros _. exists parts. split; [done|]. by apply check_required_inv.
Qed.

(** X24. A logger method completes exactly when the host formats the six
    parts of the date and [JSON.stringify] accepts every argument that is
    an object other than an [Error]; and a call that throws has written
    nothing: the console is as it was before the call. *)
Theorem logger_completes_exactly (forced : bool) (m : method) (h : host) (show : bool)
    (args : list jsval) (out : console) :
  ((exists r out', call forced m h show args out = (Returns r, out'))
   <-> has_date_parts h /\ forallb renderable args = true)
  /\ (forall e out', call forced m h show args out = (Throws e, out') -> out' = out).
Proof.
  rewrite call_run. split; [split|].
  - intros (r & out' & H).
    destruct (Time.getTimeToLogFormat (formatted h)) as [t|] eqn:Et; [|done].
    destruct (Logger.render_all args) as [pieces|] eqn:Er; [|done].
    split; [by apply (time_has_date_parts h t) | by apply (render_all_renderable _ pieces)].
  - intros [Hh Hargs]. destruct (has_date_parts_time h Hh) as [t ->].
    destruct (renderable_render_all args Hargs) as [pieces ->]. by eexists _, _.
  - intros e out'.
    destruct (Time.getTimeToLogFormat (formatted h)) as [t|]; [|by intros [= _ <-]].
    destruct (Logger.render_all args) as [pieces|]; [done|by intros [= _ <-]].
Qed.

(** X25. The flag and the variant decide nothing but the tag of the
    console line: a call returns the same record, or throws the same
    error, whether it is plain or forced and whatever the flag is; and a
    plain method with the flag set is the forced method: same record, same
    console. *)
Theorem record_ignores_flag_and_variant (m : method) (h : host) (args : list jsval)
    (out : console) (forced forced' show show' : bool) :
  (call forced m h show args out).1 = (call forced' m h show' args out).1
  /\ (forced || show = forced' || show' ->
      call forced m h show args out = call forced' m h show' args out)
  /\ call false m h true args out = call true m h show args out.
Proof.
  rewrite !call_run. unfold shown_tag.
  destruct (Time.getTimeToLogFormat (formatted h)) as [t|]; [|done].
  destruct (Logger.render_all args) as [pieces|]; [|done].
  split; [done|]. split; [by intros ->|done].
Qed.

Lemma span_all (p : ascii -> bool) (s : text) : forallb p (span p s).1 = true.
Proof.
  induction s as [|c s IH]; [done|]. cbn [span].
  destruct (p c) eqn:E; [|done]. destruct (span p s) as [a b].
  cbn [fst forallb] in *. by rewrite E, IH.
Qed.

Lemma at_word_here_word (s name : text) :
  at_word_here s = Some name -> name <> [] /\ forallb is_word name = true.
Proof.
  unfold at_word_here. destruct (strip_prefix _ s) as [s1|]; [|done].
  destruct (span is_space s1) as [sp1 s2].
  pose proof (span_all is_word s2) as Hword.
  destruct (span is_word s2) as [word s3]. destruct (span is_space s3) as [sp2 s4].
  destruct s4 as [|c s5]; [done|].
  destruct (nonempty sp1); [|done]. cbn [andb].
  destruct (nonempty word) eqn:Hne; [|done]. cbn [andb].
  destruct (nonempty sp2 && (c =? "(")%char); [|done].
  intros [= <-]. split; [|done]. by destruct word.
Qed.

Lemma search_found {A : Type} (here : text -> option A) (s : text) (r : A) :
  search here s = Some r -> exists s', here s' = Some r.
Proof.
  induction s as [|c s IH]; cbn [search].
  - destruct (here []) eqn:E; [|done]. intros [= <-]. by exists [].
  - destruct (here (c :: s)) eqn:E; [intros [= <-]; by exists (c :: s)|]. apply IH.
Qed.

Lemma match_at_word_word (line name : string) :
  match_at_word line = Some name -> name <> "" /\ forallb is_word (lit name) = true.
Proof.
  unfold match_at_word.
  destruct (search at_word_here (lit line)) as [word|] eqn:E; [|done].
  intros [= <-]. apply search_found in E as [s' Hs'].
  apply at_word_here_word in Hs' as [Hne Hword]. rewrite lit_str.
  split; [|done]. by destruct word.
Qed.

Lemma frame_tag_reported (line callerTag : string) :
  Logger.frame_tag line = Some callerTag ->
  callerTag = "fn: <anonymous>"
  \/ exists name, reported_name name /\ callerTag = "fn: " +:+ name.
Proof.
  unfold Logger.frame_tag.
  destruct (Logger.skipped line); [done|].
  destruct (includes "at <anonymous>" line && negb (match_at_anonymous line));
    [done|].
  destruct (not_blank line); [|done].
  destruct (match_at_word line) as [name|] eqn:Hm.
  - apply match_at_word_word in Hm as [Hne Hword].
    destruct (String.eqb_spec name ""); [done|]. cbn [negb andb].
    destruct (String.eqb_spec name "Object"); cbn [negb andb].
    { destruct (includes "at <anonymous>" line); [|done]. intros [= <-]. by left. }
    destruct (String.eqb_spec name "Function"); cbn [negb].
    { destruct (includes "at <anonymous>" line); [|done]. intros [= <-]. by left. }
    intros [= <-]. right. by exists name.
  - destruct (includes "at <anonymous>" line); [|done]. intros [= <-]. by left.
Qed.

Lemma detect_reported (stack : option string) :
  Logger.detect stack = ""
  \/ Logger.detect stack = "fn: <anonymous>"
  \/ exists name, reported_name name /\ Logger.detect stack = "fn: " +:+ name.
Proof.
  unfold Logger.detect. destruct stack as [s|]; [|by left].
  destruct (String.eqb s ""); [by left|].
  induction (drop 2 (lines s)) as [|line rest IH]; [by left|]. cbn [Logger.scan].
  destruct (Logger.frame_tag line) as [callerTag|] eqn:E; [|done].
  right. by apply (frame_tag_reported line).
Qed.

(** X26. The caller tag has one of three shapes, and [pfn] with it:
    empty, when the scan finds no frame (as on a stack of at most two
    lines); [fn: <anonymous>], with [pfn] being [<anonymous>]; or [fn: ]
    followed by a run of word characters other than [Object] and
    [Function], which is then the [pfn] of the record. *)
Theorem caller_tag_shapes (forced : bool) (m : method) (h : host) (show : bool)
    (args : list jsval) (out out' : console) (r : LogReturn) :
  call forced m h show args out = (Returns r, out') ->
  ((Logger.getCallerNameForced h = "" /\ pfn r = "")
   \/ (Logger.getCallerNameForced h = "fn: <anonymous>" /\ pfn r = "<anonymous>")
   \/ (Logger.getCallerNameForced h = "fn: " +:+ pfn r /\ reported_name (pfn r)))
  /\ (forall stack, stackForced h = Some stack -> (length (lines stack) <= 2)%nat ->
        pfn r = "").
Proof.
  intros H. apply call_inv in H as (t & pieces & _ & _ & -> & _). cbn [pfn].
  unfold Logger.getCallerNameForced. split.
  - destruct (detect_reported (stackForced h)) as [->|[->|(name & Hname & ->)]].
    + by left.
    + right. by left.
    + right. right. by rewrite replace_prefix.
  - intros stack -> Hlen. unfold Logger.detect.
    destruct (String.eqb stack ""); [done|].
    rewrite drop_ge by done. done.
Qed.

Lemma caller_tag_shapes_witness :
  Logger.getCallerNameForced (sample_host "loadConfig") = "fn: " +:+ "loadConfig"
  /\ reported_name "loadConfig".
Proof.
  assert (call true Minfo (sample_host "loadConfig") false [VStr "hello"] []
          = (Returns {| pfn := "loadConfig"; timestamp := "02/11/2026:09:05:59";
                        message := VStr "hello"; level := "INFO" |},
             [(console_info,
               Logger.line "02/11/2026:09:05:59" (esc "34") "INFO" "fn: loadConfig"
                 "hello")])) as Hcall by (vm_compute; reflexivity).
  destruct (caller_tag_shapes _ _ _ _ _ _ _ _ Hcall) as [[[_ H]|[[_ H]|H]] _].
  - discriminate H.
  - discriminate H.
  - exact H.
Defined.

Lemma log_run (h : host) (show : bool) (type : string) (args : list jsval)
    (out : console) :
  Logger.log h show type args out
  = match Time.getTimeToLogFormat (formatted h) with
    | Throws e => (Throws e, out)
    | Returns currentTime =>
        match Logger.render_all args with
        | Throws e => (Throws e, out)
        | Returns pieces =>
            (Returns tt,
             out ++ [(Logger.logMethod type,
                      Logger.line currentTime
                        (default reset_ (assoc type Logger.colorMap)) type
                        (Logger.getCallerName h show) (Logger.join_pieces pieces))])
        end
    end.
Proof.
  unfold Logger.log, eff_bind, eff_lift, Logger.write.
  destruct (Time.getTimeToLogFormat (formatted h)); [|done].
  by destruct (Logger.render_all args).
Qed.

(** X27. The method [log], which returns nothing, writes what the plain
    level methods write: for each of the five levels, on a host whose two
    stack inspections find the same caller when the flag is set, [log]
    completes exactly when the method does, with the same console
    afterwards, and throws the same error otherwise. *)
Theorem log_writes_like_level_methods (m : method) (h : host) (show : bool)
    (args : list jsval) (out : console) :
  (forall opt, m <> Mcustom opt) ->
  (show = true -> Logger.detect (stackPlain h) = Logger.detect (stackForced h)) ->
  Logger.log h show (tag m) args out
  = match call false m h show args out with
    | (Returns _, out') => (Returns tt, out')
    | (Throws e, out') => (Throws e, out')
    end.
Proof.
  intros Hm Hsame. rewrite log_run, call_run.
  destruct (Time.getTimeToLogFormat (formatted h)) as [t|]; [|done].
  destruct (Logger.render_all args) as [pieces|]; [|done].
  assert (Logger.getCallerName h show = shown_tag false show h) as ->.
  { unfold Logger.getCallerName, shown_tag, Logger.getCallerNameForced.
    destruct show; [by apply Hsame|done]. }
  destruct m as [| | | | |opt]; try reflexivity. by destruct (Hm opt).
Qed.

Lemma log_writes_like_level_methods_witness :
  Logger.log (sample_host "loadConfig") true "WARN" [VStr "low disk"; VNum 3] []
  = match call false Mwarn (sample_host "loadConfig") true [VStr "low disk"; VNum 3] []
    with
    | (Returns _, out') => (Returns tt, out')
    | (Throws e, out') => (Throws e, out')
    end.
Proof.
  apply (log_writes_like_level_methods Mwarn (sample_host "loadConfig") true
           [VStr "low disk"; VNum 3] []).
  - discriminate.
  - reflexivity.
Defined.
